(** * The Solana agent-kit plugin: trend-to-token generation and search engagement

    A shallow embedding of
    - [packages/plugin-solana-agentkit/src/index.ts], class [TwitterSearchClient], and
    - the [CREATE_TRENDING_TOKEN] action (its [handler] and [isTrendingTokenContent]), and
    - the version script that shares the source file of the action,
    together with the properties that the specification states about them and
    further properties of the same code.

    The collaborators of the plugin (social client, language model, cache,
    agent runtime, blockchain SDK) are not part of the repository.  They are
    represented by an environment [Env] that fixes what each of them answers
    and which of the external calls fail; the functions of the plugin are
    written in a state-and-exception monad over a [World] that holds the cache,
    the log, the trace of external calls, the rejections that were left
    unhandled and the in-memory responded set.  What node makes of a
    rejection that is left unhandled is told by [in_node], for one run, and
    by [Process], for the loop. *)

From Stdlib Require Import ZArith String Ascii List Lia DecimalString.
From Corelib Require SpecFloat.
From stdpp Require Import base gmap strings list.

Set Warnings "-register-all".
#[local] Open Scope string_scope.

(** ** JavaScript strings

    A string is a sequence of code units; the fragment that the plugin looks
    at (letters, digits, white space) is the 8-bit one of [ascii]. *)

Module JS.

Definition code (c : ascii) : N := N_of_ascii c.

Definition is_upper (c : ascii) : bool := ((65 <=? code c) && (code c <=? 90))%N.
Definition is_lower (c : ascii) : bool := ((97 <=? code c) && (code c <=? 122))%N.

(** The character class [[A-Za-z]]. *)
Definition is_alpha (c : ascii) : bool := is_upper c || is_lower c.

Fixpoint every (p : ascii -> bool) (s : string) : bool :=
  match s with
  | EmptyString => true
  | String c s' => p c && every p s'
  end.

(** [/^[A-Za-z]+$/.test(s)]: at least one character, all of them letters
    (without the [m] flag, [$] matches at the end of the input only). *)
Definition test_letters (s : string) : bool :=
  match s with
  | EmptyString => false
  | String _ _ => every is_alpha s
  end.

Definition upper_char (c : ascii) : ascii :=
  if is_lower c then ascii_of_N (code c - 32) else c.

(** [s.toUpperCase()] on the letters [a-z]; other code units of the fragment
    are left as they are. *)
Fixpoint toUpperCase (s : string) : string :=
  match s with
  | EmptyString => EmptyString
  | String c s' => String (upper_char c) (toUpperCase s')
  end.

(** White space and line terminators removed by [trim]:
    TAB, LF, VT, FF, CR, SP and NBSP. *)
Definition is_space (c : ascii) : bool :=
  ((9 <=? code c) && (code c <=? 13) || (code c =? 32) || (code c =? 160))%N.

Fixpoint trimStart (s : string) : string :=
  match s with
  | EmptyString => EmptyString
  | String c s' => if is_space c then trimStart s' else s
  end.

Fixpoint trimEnd (s : string) : string :=
  match s with
  | EmptyString => EmptyString
  | String c s' =>
      match trimEnd s' with
      | EmptyString => if is_space c then EmptyString else String c EmptyString
      | t => String c t
      end
  end.

Definition trim (s : string) : string := trimEnd (trimStart s).

Fixpoint startsWith (s sub : string) {struct sub} : bool :=
  match sub, s with
  | EmptyString, _ => true
  | String _ _, EmptyString => false
  | String a sub', String b s' => Ascii.eqb a b && startsWith s' sub'
  end.

(** [s.includes(sub)]: [sub] occurs in [s] at some position. *)
Fixpoint includes (s sub : string) : bool :=
  startsWith s sub ||
  match s with
  | EmptyString => false
  | String _ s' => includes s' sub
  end.

(** [array.find(p)]: the first element that satisfies [p], or [undefined]. *)
Fixpoint find {A : Type} (p : A -> bool) (l : list A) : option A :=
  match l with
  | [] => None
  | x :: l' => if p x then Some x else find p l'
  end.

(** [array.join(sep)] on strings. *)
Fixpoint join (sep : string) (l : list string) : string :=
  match l with
  | [] => EmptyString
  | [x] => x
  | x :: l' => x ++ sep ++ join sep l'
  end.

(** [array[i]]: [undefined] outside of the array. *)
Definition index {A : Type} (l : list A) (i : Z) : option A :=
  if (i <? 0)%Z then None else nth_error l (Z.to_nat i).

(** [array.slice(0, n)]. *)
Definition slice0 {A : Type} (n : nat) (l : list A) : list A := firstn n l.

(** [array.includes(x)] on an array of strings. *)
Definition array_includes (l : list string) (x : string) : bool :=
  existsb (String.eqb x) l.

(** The double-quote character, and a line break. *)
Definition dq : string := String (ascii_of_N 34) EmptyString.
Definition nl : string := String (ascii_of_N 10) EmptyString.

(** The values that [JSON.parse] produces.  An object is a finite map from
    its keys to values; numbers are kept as integers, which is all the plugin
    asks of them ([typeof x === "number"]). *)
Inductive value : Type :=
  | JNull
  | JBool (b : bool)
  | JNum (n : Z)
  | JStr (s : string)
  | JArr (items : list value)
  | JObj (fields : gmap string value).

(** An object literal, from its properties. *)
Definition object (fields : list (string * value)) : value :=
  JObj (list_to_map fields).

(** Thrown values are [Error] objects: the code reads their [message], and
    interpolates them into a template. *)
Record Error := newError { name : string; message : string }.

(** [new Error(message)], and the errors of the engine. *)
Definition mkError (message : string) : Error := newError "Error" message.
Definition TypeError (message : string) : Error := newError "TypeError" message.

(** [`${error}`]: the name and the message of the error. *)
Definition Error_toString (e : Error) : string :=
  match name e, message e with
  | EmptyString, m => m
  | n, EmptyString => n
  | n, m => n ++ ": " ++ m
  end.

(** A key between single quotes, as the messages of the engine show it. *)
Definition quote (s : string) : string := "'" ++ s ++ "'".

(** The decimal form of an integer. *)
Definition Number_toString (n : Z) : string := NilZero.string_of_int (Z.to_int n).

(** [v.key]: reading a property.  [None] is [undefined]; reading a property
    of [null] throws.  None of the keys that the plugin reads is defined on
    the prototypes of arrays, strings, numbers or booleans. *)
Definition get_prop (v : value) (key : string) : Error + option value :=
  match v with
  | JNull => inl (TypeError ("Cannot read properties of null (reading " ++ quote key ++ ")"))
  | JObj fields => inr (fields !! key)
  | _ => inr None
  end.

(** [v.key = x]: writing a property.  It throws on [null] and, the module
    being in strict mode, on the other primitives; a named property written
    on an array is not among its items. *)
Definition set_prop (v : value) (key : string) (x : value) : Error + value :=
  match v with
  | JObj fields => inr (JObj (<[key := x]> fields))
  | JArr items => inr (JArr items)
  | JNull => inl (TypeError ("Cannot set properties of null (setting " ++ quote key ++ ")"))
  | JBool b =>
      inl (TypeError ("Cannot create property " ++ quote key ++ " on boolean " ++
                      quote (if b then "true" else "false")))
  | JNum n =>
      inl (TypeError ("Cannot create property " ++ quote key ++ " on number " ++
                      quote (Number_toString n)))
  | JStr s =>
      inl (TypeError ("Cannot create property " ++ quote key ++ " on string " ++ quote s))
  end.

(** [typeof v === "string"] and [typeof v === "number"], on a property that
    may be [undefined]. *)
Definition is_string (v : option value) : bool :=
  match v with Some (JStr _) => true | _ => false end.
Definition is_number (v : option value) : bool :=
  match v with Some (JNum _) => true | _ => false end.

(** The string held by a property, when it holds one. *)
Definition as_string (v : option value) : option string :=
  match v with Some (JStr s) => Some s | _ => None end.

(** *** Numbers

    A finite double that is not negative is [mantissa * 2 ^ exponent], with
    a mantissa below [2 ^ 53]; the doubles of the interval from 0 (included)
    to 1 (excluded), the values of [Math.random()], are those with an
    exponent between -1074 and -53. *)
Record double := mkDouble { mantissa : Z; exponent : Z }.

Definition two53 : Z := 2 ^ 53.

Definition unit_interval (x : double) : Prop :=
  (0 <= mantissa x < two53)%Z /\ (-1074 <= exponent x <= -53)%Z.

Definition zero : double := mkDouble 0 (-53).

(** The double nearest to [N * 2 ^ e], for [N] not negative: a mantissa of
    more than 53 bits loses its low bits, rounded to the nearest, a tie
    going to the even mantissa. *)
Definition round (N e : Z) : double :=
  let s := (Z.log2 N + 1 - 53)%Z in
  if (s <=? 0)%Z then mkDouble N e
  else
    let q := (N / 2 ^ s)%Z in
    let r := (N mod 2 ^ s)%Z in
    let half := (2 ^ (s - 1))%Z in
    let q' := if (half <? r)%Z || ((r =? half)%Z && Z.odd q) then (q + 1)%Z else q in
    mkDouble q' (e + s).

(** [x * n], the product of doubles, for an integer [n] that is a double
    itself: not negative and below [2 ^ 53], as the length of an array
    is. *)
Definition times (x : double) (n : Z) : double :=
  round (mantissa x * n) (exponent x).

(** [Math.floor(x)] *)
Definition floor (x : double) : Z :=
  if (0 <=? exponent x)%Z then (mantissa x * 2 ^ exponent x)%Z
  else (mantissa x / 2 ^ (- exponent x))%Z.

(** [Math.floor(x * n)] *)
Definition floor_random_times (x : double) (n : Z) : Z := floor (times x n).

(** The same double in the representation of the library's specification
    of IEEE 754 arithmetic. *)
Definition as_binary64 (x : double) : SpecFloat.spec_float :=
  SpecFloat.binary_normalize 53 1024 (mantissa x) (exponent x) false.

End JS.

(** ** Data model *)

Record TwitterTrend := mkTrend {
  trend_name : string;
  url : string;
  promoted_content : bool;
  query : string;
  tweet_volume : option Z;
}.

Record Photo := mkPhoto { photo_url : string }.

(** A fetched post.  [thread] is the reply thread that the social client
    attached to it. *)
Inductive Tweet : Type := mkTweet {
  id : string;
  name : string;
  username : string;
  text : option string;
  inReplyToStatusId : option string;
  thread : list Tweet;
  photos : list Photo;
  urls : list string;
  isRetweet : bool;
  conversationId : string;
  userId : string;
  permanentUrl : string;
  timestamp : Z;
}.

Inductive ModelClass := SMALL | LARGE.
Inductive SearchMode := Top | Latest.

(** What [generateMessageResponse] returns, as far as the engager reads it. *)
Record Content := mkContent {
  content_text : string;
  content_inReplyTo : option string;
}.

(** A persisted message record returned by [sendTweet]. *)
Record Memory := mkMemory { memory_id : string; memory_text : string }.

(** What the action handler hands to its callback. *)
Record CallbackResponse := mkResponse {
  response_text : string;
  response_success : bool;
}.

(** The template state of the agent runtime: template variables and their
    rendered values. *)
Abbreviation State := (gmap string string).

(** *** External calls

    Every call that leaves the plugin is recorded, with the arguments that the
    plugin chose. *)
Inductive Call :=
  | GetTrends
  | CacheGet (key : string)
  | CacheSet (key : string)
  | GenerateText (context : string) (modelClass : ModelClass)
  | TwitterSendTweet (text : string)
  | Sleep (ms : Z)
  | FetchSearchTweets (query : option string) (maxTweets : Z) (mode : SearchMode)
  | FetchHomeTimeline (count : Z)
  | CacheTimeline
  | EnsureConnection (userId roomId userName userScreenName source : string)
  | BuildConversationThread (tweetId : string)
  | GetTweet (tweetId : string)
  | DescribeImage (imageUrl : string)
  | ComposeState (messageId : string)
  | SaveRequestMessage (messageId : string)
  | GenerateMessageResponse (context : string) (modelClass : ModelClass)
  | SendTweet (text roomId twitterUsername inReplyTo : string)
  | UpdateRecentMessageState
  | CreateMemory (memory : Memory)
  | Evaluate (messageId : string)
  | ProcessActions (messageId : string)
  | Wait
  | GetService (serviceType : string)
  | GetSetting (key : string)
  | NewSolanaAgentKit
  | DeployToken (tokenName uri symbol : string) (decimals : Z)
  | InvokeCallback (response : CallbackResponse).

Inductive LogLevel := LogInfo | LogWarn | LogError | ConsoleError.

(** *** The world

    The cache is the only durable store.  It is read at the type the code
    reads each key at: lists of strings, lists of objects, or text.  A read
    yields a copy of what is stored. *)
Record World := mkWorld {
  cache_strings : gmap string (list string);
  cache_objects : gmap string (list JS.value);
  cache_text : gmap string string;
  trace : list Call;
  logs : list (LogLevel * string);
  draws : nat;
  unhandled : list JS.Error;
  respondedTweets : gset string;
}.

Definition set_cache_strings (f : gmap string (list string) -> gmap string (list string)) (w : World) : World :=
  mkWorld (f (cache_strings w)) (cache_objects w) (cache_text w) (trace w) (logs w)
          (draws w) (unhandled w) (respondedTweets w).
Definition set_cache_objects (f : gmap string (list JS.value) -> gmap string (list JS.value)) (w : World) : World :=
  mkWorld (cache_strings w) (f (cache_objects w)) (cache_text w) (trace w) (logs w)
          (draws w) (unhandled w) (respondedTweets w).
Definition set_cache_text (f : gmap string string -> gmap string string) (w : World) : World :=
  mkWorld (cache_strings w) (cache_objects w) (f (cache_text w)) (trace w) (logs w)
          (draws w) (unhandled w) (respondedTweets w).
Definition set_trace (f : list Call -> list Call) (w : World) : World :=
  mkWorld (cache_strings w) (cache_objects w) (cache_text w) (f (trace w)) (logs w)
          (draws w) (unhandled w) (respondedTweets w).
Definition set_logs (f : list (LogLevel * string) -> list (LogLevel * string)) (w : World) : World :=
  mkWorld (cache_strings w) (cache_objects w) (cache_text w) (trace w) (f (logs w))
          (draws w) (unhandled w) (respondedTweets w).
Definition set_draws (f : nat -> nat) (w : World) : World :=
  mkWorld (cache_strings w) (cache_objects w) (cache_text w) (trace w) (logs w)
          (f (draws w)) (unhandled w) (respondedTweets w).
Definition set_unhandled (f : list JS.Error -> list JS.Error) (w : World) : World :=
  mkWorld (cache_strings w) (cache_objects w) (cache_text w) (trace w) (logs w)
          (draws w) (f (unhandled w)) (respondedTweets w).
Definition set_respondedTweets (f : gset string -> gset string) (w : World) : World :=
  mkWorld (cache_strings w) (cache_objects w) (cache_text w) (trace w) (logs w)
          (draws w) (unhandled w) (f (respondedTweets w)).

(** The used-trends log: the list stored under ["twitter/used_trends"], empty
    when the key is absent. *)
Definition used_trends_key : string := "twitter/used_trends".
Definition UsedTrendsLog (w : World) : list string :=
  default [] (cache_strings w !! used_trends_key).

(** *** The environment

    What the collaborators answer.  [fault n] tells whether the [n]-th
    external call (counting from the start of the trace) throws or rejects,
    and with what. *)
Record Env := mkEnv {
  fault : nat -> option JS.Error;
  (* the draws of [Math.random()] *)
  random : nat -> JS.double;
  (* [client.twitterConfig] and [runtime.character] *)
  twitterUsername : string;
  ANNOUNCE_NEW_TOKENS : bool;
  agentId : string;
  characterName : string;
  topics : list string;
  twitterSearchTemplate_override : option string;
  (* a constant of the agent runtime *)
  messageCompletionFooter : string;
  (* the social client *)
  getTrends : list TwitterTrend;
  fetchSearchTweets : option string -> list Tweet;
  fetchHomeTimeline : list Tweet;
  getTweet : string -> Tweet;
  sendTweet : Content -> list Memory;
  (* the language model, and [JSON.parse] on its answers *)
  generateText : string -> ModelClass -> string;
  generateMessageResponse : string -> Content;
  JSON_parse : string -> JS.Error + JS.value;
  (* the order in which [sort] with a random comparator leaves an array *)
  shuffle : list Tweet -> list Tweet;
  (* the agent runtime *)
  describeImage : string -> string;
  composeState : string -> State -> State;
  composeContext : State -> string -> string;
  stringToUuid : string -> string;
  (* the blockchain SDK, and the clock *)
  mintAddress : string;
  Date_now : Z;
}.

(** ** The monad of the plugin: state, and exceptions that keep the state *)

Inductive outcome (A : Type) : Type :=
  | Ok (a : A)
  | Throw (e : JS.Error).
Arguments Ok {A} a.
Arguments Throw {A} e.

Definition M (A : Type) : Type := World -> outcome A * World.

Definition ret {A : Type} (a : A) : M A := fun w => (Ok a, w).

Definition bind {A B : Type} (m : M A) (k : A -> M B) : M B :=
  fun w =>
    match m w with
    | (Ok a, w') => k a w'
    | (Throw e, w') => (Throw e, w')
    end.

Definition throw {A : Type} (e : JS.Error) : M A := fun w => (Throw e, w).

(** [try { m } catch (error) { h error }] *)
Definition try_catch {A : Type} (m : M A) (h : JS.Error -> M A) : M A :=
  fun w =>
    match m w with
    | (Ok a, w') => (Ok a, w')
    | (Throw e, w') => h e w'
    end.

(** A pure step that may throw. *)
Definition lift {A : Type} (r : JS.Error + A) : M A :=
  match r with
  | inl e => throw e
  | inr a => ret a
  end.

(** Sequencing of pure steps that may throw. *)
Definition and_then {A B : Type} (r : JS.Error + A) (k : A -> JS.Error + B) : JS.Error + B :=
  match r with
  | inl e => inl e
  | inr a => k a
  end.

Declare Scope plugin_scope.
Delimit Scope plugin_scope with plugin.
Notation "'get!' x ':=' r 'in' k" := (and_then r (fun x => k))
  (at level 10, x name, r at level 100, k at level 200) : plugin_scope.
Notation "'let!' x ':=' m 'in' k" := (bind m (fun x => k))
  (at level 10, x name, m at level 100, k at level 200) : plugin_scope.
Notation "m ';;' k" := (bind m (fun _ => k))
  (at level 100, k at level 200, right associativity) : plugin_scope.
#[local] Open Scope plugin_scope.

Definition log (level : LogLevel) (msg : string) : M unit :=
  fun w => (Ok tt, set_logs (fun l => (l ++ [(level, msg)])%list) w).

(** Iterating an effectful body over an array ([for (const x of l)]). *)
Fixpoint for_of {A : Type} (l : list A) (body : A -> M unit) : M unit :=
  match l with
  | [] => ret tt
  | x :: l' => body x ;; for_of l' body
  end.

Fixpoint map_M {A B : Type} (f : A -> M B) (l : list A) : M (list B) :=
  match l with
  | [] => ret []
  | x :: l' => let! y := f x in let! ys := map_M f l' in ret (y :: ys)
  end.

(** ** The process

    Node reports a rejection that is left unhandled when the turn in which
    the promise rejects is over.  When the host has installed a listener for
    [unhandledRejection] the process goes on; when it has not (it is the
    host's to install, the plugin installs none) node raises the error as
    an uncaught exception and the process ends with the exit code 1.  The
    promise rejects when its collaborator chooses, at the call or at any
    time after it: of a run that leaves a rejection unhandled in a process
    without a listener, the model keeps that the process ends, and the
    error it ends with, not how far the run has come by then. *)
Inductive Fate (A : Type) : Type :=
  | Returns (r : outcome A) (w : World)
  | ProcessExits (code : Z) (e : JS.Error).
Arguments Returns {A} r w.
Arguments ProcessExits {A} code e.

(** The rejections that a run from [w] to [w'] has left unhandled. *)
Definition abandoned (w w' : World) : list JS.Error :=
  drop (length (unhandled w)) (unhandled w').

(** A run of [m] in a process of node, with or without a listener. *)
Definition in_node {A : Type} (listener : bool) (m : M A) (w : World) : Fate A :=
  let (r, w') := m w in
  match listener, abandoned w w' with
  | false, e :: _ => ProcessExits 1 e
  | _, _ => Returns r w'
  end.

(** ** [TwitterSearchClient] (index.ts) *)

Section TwitterSearchClient.

Variable E : Env.

(** An awaited external call: it is recorded in the trace; if it is one of
    the failing calls of the environment its error is thrown at the call
    site, otherwise the collaborator answers (and may change the world). *)
Definition ext {A : Type} (c : Call) (answer : World -> A * World) : M A :=
  fun w =>
    let n := length (trace w) in
    let w1 := set_trace (fun t => (t ++ [c])%list) w in
    match fault E n with
    | Some e => (Throw e, w1)
    | None => let (a, w2) := answer w1 in (Ok a, w2)
    end.

(** A call of a collaborator that answers from the environment.  What the
    collaborator does besides answering is not in the repository and not in
    the model: the cache is taken to be written by the plugin alone, and the
    actions that the runtime runs inside [processActions] are not followed. *)
Definition call {A : Type} (c : Call) (answer : A) : M A :=
  ext c (fun w => (answer, w)).

(** An external call whose promise is neither awaited nor given a handler:
    a rejection is not raised at the call site and does not stop the run;
    it is left unhandled, for node to report ([in_node] tells what becomes
    of the process). *)
Definition call_detached (c : Call) : M unit :=
  fun w =>
    let n := length (trace w) in
    let w1 := set_trace (fun t => (t ++ [c])%list) w in
    match fault E n with
    | Some e => (Ok tt, set_unhandled (fun u => (u ++ [e])%list) w1)
    | None => (Ok tt, w1)
    end.

(** [runtime.cacheManager.get<string[]>(key)] and [.set(key, value)]. *)
Definition cache_get_strings (key : string) : M (option (list string)) :=
  ext (CacheGet key) (fun w => (cache_strings w !! key, w)).
Definition cache_set_strings (key : string) (v : list string) : M unit :=
  ext (CacheSet key) (fun w => (tt, set_cache_strings (insert key v) w)).

Definition cache_get_objects (key : string) : M (option (list JS.value)) :=
  ext (CacheGet key) (fun w => (cache_objects w !! key, w)).
Definition cache_set_objects (key : string) (v : list JS.value) : M unit :=
  ext (CacheSet key) (fun w => (tt, set_cache_objects (insert key v) w)).

Definition cache_set_text (key : string) (v : string) : M unit :=
  ext (CacheSet key) (fun w => (tt, set_cache_text (insert key v) w)).

(** [Math.random()]: the next draw of the environment. *)
Definition Math_random : M JS.double :=
  fun w => (Ok (random E (draws w)), set_draws S w).

(** *** Token generation *)

(** [validateTokenInfo] (lines 173-184).  Reading a property throws when
    [tokenInfo] is [null] and at no other value, so the four reads are made
    first; the conjunction is then evaluated left to right, the lengths
    being looked at only once the property is known to be a string. *)
Definition validateTokenInfo (tokenInfo : JS.value) : JS.Error + bool :=
  get! name_ := JS.get_prop tokenInfo "name" in
  get! ticker := JS.get_prop tokenInfo "ticker" in
  get! description := JS.get_prop tokenInfo "description" in
  get! imagePrompt := JS.get_prop tokenInfo "imagePrompt" in
  inr
    match name_, ticker with
    | Some (JS.JStr name_), Some (JS.JStr ticker) =>
        (String.length name_ <=? 32)%nat &&
        (3 <=? String.length ticker)%nat &&
        (String.length ticker <=? 5)%nat &&
        JS.test_letters ticker &&
        JS.is_string description &&
        JS.is_string imagePrompt
    | _, _ => false
    end.

(** [cacheUsedTrend] (lines 186-193). *)
Definition cacheUsedTrend (trend : string) : M unit :=
  let! usedTrends := cache_get_strings "twitter/used_trends" in
  let usedTrends := (default [] usedTrends ++ [trend])%list in
  cache_set_strings "twitter/used_trends" usedTrends.

(** [isTopicUsed] (lines 195-201). *)
Definition isTopicUsed (trend : string) : M bool :=
  let! usedTrends := cache_get_strings "twitter/used_trends" in
  ret (JS.array_includes (default [] usedTrends) trend).

(** The loop of lines 107-114: the name of the first trend that is not used,
    [null] when the loop ends without one. *)
Fixpoint selectTrend (trends : list TwitterTrend) : M (option string) :=
  match trends with
  | [] => ret None
  | trend :: rest =>
      let! isUsed := isTopicUsed (trend_name trend) in
      if negb isUsed then ret (Some (trend_name trend)) else selectTrend rest
  end.

(** [!selectedTrend]: [null] and the empty string are falsy. *)
Definition truthy (s : option string) : option string :=
  match s with
  | Some (String c s') => Some (String c s')
  | _ => None
  end.

(** The prompt of lines 122-137. *)
Definition tokenPrompt (selectedTrend : string) : string :=
  JS.nl ++ "Given the trending topic " ++ JS.dq ++ selectedTrend ++ JS.dq ++
  ", generate a crypto token concept with the following:

1. A creative token name related to this trend (max 32 characters)
2. A unique ticker symbol (3-5 characters)
3. A brief description of the token's purpose (max 100 words)
4. An image prompt that would represent this token (max 50 words)

Format the response as JSON with keys: name, ticker, description, imagePrompt

The name should be catchy and memorable, the ticker should be unique and related,
the description should explain the token's purpose and relation to the trend,
and the image prompt should describe a professional logo or icon.

Ensure the ticker is UPPERCASE and contains only letters.
".

(** [v.toUpperCase()] on a property: a method call on a value that is not a
    string throws. *)
Definition toUpperCase_prop (v : option JS.value) : JS.Error + string :=
  match v with
  | Some (JS.JStr s) => inr (JS.toUpperCase s)
  | _ => inl (JS.TypeError "tokenInfo.ticker.toUpperCase is not a function")
  end.

(** The inner [try] of lines 145-161.  [None] stands for the [return null]
    of the block and of its [catch]; [Some tokenInfo] falls through to the
    statements after it. *)
Definition parseTokenInfo (response selectedTrend : string) : M (option JS.value) :=
  try_catch
    (let! tokenInfo := lift (JSON_parse E response) in
     let! tokenInfo := lift (JS.set_prop tokenInfo "sourceTrend" (JS.JStr selectedTrend)) in
     let! valid := lift (validateTokenInfo tokenInfo) in
     if negb valid then
       log LogError "Invalid token info generated" ;;
       ret None
     else
       let! ticker := lift (JS.get_prop tokenInfo "ticker") in
       let! upper := lift (toUpperCase_prop ticker) in
       let! tokenInfo := lift (JS.set_prop tokenInfo "ticker" (JS.JStr upper)) in
       ret (Some tokenInfo))
    (fun error =>
       log LogError ("Error parsing LLM response: " ++ JS.message error) ;;
       ret None).

(** The [try] block of [getTopTrendAndGenerateToken] (lines 101-166). *)
Definition getTopTrendAndGenerateToken_body : M (option JS.value) :=
  let! trends := call GetTrends (getTrends E) in
  log LogInfo "Fetched trends:" ;;
  let! selectedTrend := selectTrend trends in
  match truthy selectedTrend with
  | None =>
      log LogInfo "No unused trends found" ;;
      ret None
  | Some selectedTrend =>
      let prompt := tokenPrompt selectedTrend in
      let! response := call (GenerateText prompt LARGE) (generateText E prompt LARGE) in
      let! tokenInfo := parseTokenInfo response selectedTrend in
      match tokenInfo with
      | None => ret None
      | Some tokenInfo =>
          cacheUsedTrend selectedTrend ;;
          ret (Some tokenInfo)
      end
  end.

(** [getTopTrendAndGenerateToken] (lines 99-171). *)
Definition getTopTrendAndGenerateToken : M (option JS.value) :=
  try_catch getTopTrendAndGenerateToken_body
    (fun error =>
       log LogError ("Error generating token info: " ++ JS.message error) ;;
       ret None).

(** The property of an accepted concept, as a string: the concepts that
    [getTopTrendAndGenerateToken] returns, and the contents that pass the type
    guard of the action, are objects, and the properties that the code reads
    of them are strings. *)
Definition field (tokenInfo : JS.value) (key : string) : string :=
  match JS.get_prop tokenInfo key with
  | inr (Some (JS.JStr s)) => s
  | _ => ""
  end.

(** [storeTokenInfo] (lines 203-226), for a concept such as [start] hands
    to it (line 89 keeps [null] from it): the announcement of line 216 shows
    its name, its ticker and its description. *)
Definition storeTokenInfo (tokenInfo : JS.value) : M unit :=
  let! generatedTokens := cache_get_objects "twitter/generated_tokens" in
  let generatedTokens := (default [] generatedTokens ++ [tokenInfo])%list in
  cache_set_objects "twitter/generated_tokens" generatedTokens ;;
  if ANNOUNCE_NEW_TOKENS E then
    let announcement :=
      " New Token Alert! 🔥" ++ JS.nl ++ JS.nl ++
      field tokenInfo "name" ++ " ($" ++ field tokenInfo "ticker" ++ ")" ++ JS.nl ++ JS.nl ++
      field tokenInfo "description" ++ JS.nl ++ JS.nl ++ "#crypto #newtoken " in
    try_catch
      (call (TwitterSendTweet announcement) tt ;;
       log LogInfo "Token announcement tweeted:")
      (fun error => log LogError ("Error announcing new token: " ++ JS.message error))
  else ret tt.

(** [start] (lines 86-97), up to its last statement, the call of
    [engageWithSearchTermsLoop], which is the subject of the timer model
    further down. *)
Definition start : M unit :=
  let! tokenInfo := getTopTrendAndGenerateToken in
  match tokenInfo with
  | Some tokenInfo =>
      log LogInfo "Generated token info:" ;;
      storeTokenInfo tokenInfo
  | None => ret tt
  end.

(** *** Search engagement *)

(** A string interpolated into a template: [undefined] prints as such. *)
Definition show (s : option string) : string := default "undefined" s.

(** [tweet.inReplyToStatusId ? ` In reply to: ...` : ""] *)
Definition inReplyTo_note (tweet : Tweet) : string :=
  match truthy (inReplyToStatusId tweet) with
  | Some parent => " In reply to: " ++ parent
  | None => ""
  end.

(** Lines 265-271. *)
Definition formatHomeTimeline (homeTimeline : list Tweet) : string :=
  "# " ++ characterName E ++ "'s Home Timeline" ++ JS.nl ++ JS.nl ++
  JS.join JS.nl
    (map (fun tweet =>
            "ID: " ++ id tweet ++ JS.nl ++
            "From: " ++ name tweet ++ " (@" ++ username tweet ++ ")" ++ inReplyTo_note tweet ++ JS.nl ++
            "Text: " ++ show (text tweet) ++ JS.nl ++ "---" ++ JS.nl)
         homeTimeline).

(** The callback of the [filter] of lines 290-297: a tweet is kept when no
    tweet of its thread is by the bot. *)
Definition notInBotThread (tweet : Tweet) : bool :=
  let thread_ := thread tweet in
  let botTweet := JS.find (fun t => String.eqb (username t) (twitterUsername E)) thread_ in
  match botTweet with
  | Some _ => false
  | None => true
  end.

(** The filtered pool of lines 289-297. *)
Definition promptPool (slicedTweets homeTimeline : list Tweet) : list Tweet :=
  List.filter notInBotThread (slicedTweets ++ homeTimeline)%list.

(** Lines 298-304. *)
Definition formatCandidate (tweet : Tweet) : string :=
  "
            ID: " ++ id tweet ++ inReplyTo_note tweet ++ "
            From: " ++ name tweet ++ " (@" ++ username tweet ++ ")
            Text: " ++ show (text tweet) ++ "
          ".

(** The prompt of lines 286-313. *)
Definition selectionPrompt (searchTerm : option string) (slicedTweets homeTimeline : list Tweet) : string :=
  "
          Here are some tweets related to the search term " ++ JS.dq ++ show searchTerm ++ JS.dq ++ ":

          " ++ JS.join JS.nl (map formatCandidate (promptPool slicedTweets homeTimeline)) ++ "

          Which tweet is the most interesting and relevant for Ruby to reply to? Please provide only the ID of the tweet in your response.
          Notes:
            - Respond to English tweets only
            - Respond to tweets that don't have a lot of hashtags, links, URLs or images
            - Respond to tweets that are not retweets
            - Respond to tweets where there is an easy exchange of ideas to have with the user
            - ONLY respond with the ID of the tweet".

(** The callback of the [find] of lines 322-326. *)
Definition matchesTweetId (tweetId : string) (tweet : Tweet) : bool :=
  JS.includes (id tweet) tweetId || JS.includes tweetId (id tweet).

(** [twitterSearchTemplate] (lines 47-72). *)
Definition twitterSearchTemplate : string :=
  "{{timeline}}

{{providers}}

Recent interactions between {{agentName}} and other users:
{{recentPostInteractions}}

About {{agentName}} (@{{twitterUserName}}):
{{bio}}
{{lore}}
{{topics}}

{{postDirections}}

{{recentPosts}}

# Task: Respond to the following post in the style and perspective of {{agentName}} (aka @{{twitterUserName}}). Write a {{adjective}} response for {{agentName}} to say directly in response to the post. don't generalize.
{{currentPost}}

IMPORTANT: Your response CANNOT be longer than 20 words.
Aim for 1-2 short sentences maximum. Be concise and direct.

Your response should not contain any questions. Brief, concise statements only. No emojis. Use \n\n (double spaces) between statements.

" ++ messageCompletionFooter E.

(** [engageWithSearchTerms] returns nothing; the value of the model tells
    which of its exits was taken. *)
Inductive PassExit :=
  | NoTweets
  | NoMatchingTweet
  | OwnTweet (selectedTweet : Tweet)
  | NoMessageText (selectedTweet : Tweet)
  | NoResponseText (selectedTweet : Tweet)
  | Responded (selectedTweet : Tweet)
  | SendFailed (selectedTweet : Tweet)
  | PassError.

(** A step of the plugin itself that is recorded in the trace and cannot
    fail (a timer). *)
Definition tick (c : Call) : M unit :=
  fun w => (Ok tt, set_trace (fun t => (t ++ [c])%list) w).

(** [this.respondedTweets.add(id)] *)
Definition respondedTweets_add (tweetId : string) : M unit :=
  fun w => (Ok tt, set_respondedTweets (fun s => {[ tweetId ]} ∪ s) w).

(** Lines 385-389: the replies of the thread that are not by the bot. *)
Definition replyContextOf (replies : list Tweet) : string :=
  JS.join JS.nl
    (map (fun reply => "@" ++ username reply ++ ": " ++ show (text reply))
         (List.filter (fun reply => negb (String.eqb (username reply) (twitterUsername E))) replies)).

(** Lines 416-423.  [replyContext.length > 0 && ...] is interpolated: when
    there is no reply the template shows [false]. *)
Definition tweetContextOf (tweetBackground : string) (selectedTweet : Tweet)
    (message_text replyContext : string) (imageDescriptions : list string) : string :=
  tweetBackground ++ "

          Original Post:
          By @" ++ username selectedTweet ++ "
          " ++ message_text ++
  (if (0 <? String.length replyContext)%nat
   then JS.nl ++ "Replies to original post:" ++ JS.nl ++ replyContext
   else "false") ++ "
          " ++ "Original post text: " ++ message_text ++ "
          " ++
  (if (0 <? length (urls selectedTweet))%nat
   then "URLs: " ++ JS.join ", " (urls selectedTweet) ++ JS.nl else "") ++
  (if (0 <? length imageDescriptions)%nat
   then JS.nl ++ "Images in Post (Described): " ++ JS.join ", " imageDescriptions ++ JS.nl else "") ++ "
          ".

(** Line 488. *)
Definition responseInfoOf (context : string) (selectedTweet : Tweet)
    (message_text response_text : string) : string :=
  "Context:" ++ JS.nl ++ JS.nl ++ context ++ JS.nl ++ JS.nl ++
  "Selected Post: " ++ id selectedTweet ++ " - " ++ username selectedTweet ++ ": " ++
  message_text ++ JS.nl ++ "Agent's Output:" ++ JS.nl ++ response_text.

(** Lines 334-498: what the pass does with the tweet it selected.
    [tweetId] is the trimmed answer of the model.  For each photo the image
    description service is looked up on the runtime (with the member
    [IMAGE_DESCRIPTION] of its enumeration [ServiceType]) and then asked. *)
Definition replyTo (selectedTweet : Tweet) (tweetId formattedHomeTimeline : string) : M PassExit :=
  log LogInfo ("Selected tweet to reply to: " ++ show (text selectedTweet)) ;;
  if String.eqb (username selectedTweet) (twitterUsername E) then
    log LogInfo "Skipping tweet from bot itself" ;;
    ret (OwnTweet selectedTweet)
  else
    let conversationId_ := conversationId selectedTweet in
    let roomId := stringToUuid E (conversationId_ ++ "-" ++ agentId E) in
    let userIdUUID := stringToUuid E (userId selectedTweet) in
    call (EnsureConnection userIdUUID roomId (username selectedTweet) (name selectedTweet) "twitter") tt ;;
    call (BuildConversationThread (id selectedTweet)) tt ;;
    let message_id := stringToUuid E (id selectedTweet ++ "-" ++ agentId E) in
    match truthy (text selectedTweet) with
    | None =>
        log LogWarn "Returning: No response text found" ;;
        ret (NoMessageText selectedTweet)
    | Some message_text =>
        let replies := thread selectedTweet in
        let replyContext := replyContextOf replies in
        let! tweetBackground :=
          (if isRetweet selectedTweet then
             let! originalTweet := call (GetTweet (id selectedTweet)) (getTweet E (id selectedTweet)) in
             ret ("Retweeting @" ++ username originalTweet ++ ": " ++ show (text originalTweet))
           else ret "") in
        call_detached GetTrends ;;
        let! imageDescriptions :=
          map_M (fun photo =>
                   call (GetService "IMAGE_DESCRIPTION") tt ;;
                   call (DescribeImage (photo_url photo)) (describeImage E (photo_url photo)))
                (photos selectedTweet) in
        let tweetContext :=
          tweetContextOf tweetBackground selectedTweet message_text replyContext imageDescriptions in
        let additionalKeys : State :=
          <["twitterUserName" := twitterUsername E]>
            (<["timeline" := formattedHomeTimeline]>
               (<["tweetContext" := tweetContext]> ∅)) in
        let! state := call (ComposeState message_id) (composeState E message_id additionalKeys) in
        call (SaveRequestMessage message_id) tt ;;
        let context :=
          composeContext E state (default twitterSearchTemplate (truthy (twitterSearchTemplate_override E))) in
        let! responseContent :=
          call (GenerateMessageResponse context LARGE) (generateMessageResponse E context) in
        let responseContent := mkContent (content_text responseContent) (Some message_id) in
        let response := responseContent in
        match truthy (Some (content_text response)) with
        | None =>
            log LogWarn "Returning: No response text found" ;;
            ret (NoResponseText selectedTweet)
        | Some response_text =>
            log LogInfo ("Bot would respond to tweet " ++ id selectedTweet ++ " with: " ++ response_text) ;;
            try_catch
              (let! responseMessages :=
                 call (SendTweet response_text roomId (twitterUsername E) tweetId)
                      (sendTweet E responseContent) in
               call UpdateRecentMessageState tt ;;
               for_of responseMessages (fun responseMessage => call (CreateMemory responseMessage) tt) ;;
               call UpdateRecentMessageState tt ;;
               call (Evaluate message_id) tt ;;
               call (ProcessActions message_id) tt ;;
               respondedTweets_add (id selectedTweet) ;;
               let responseInfo := responseInfoOf context selectedTweet message_text response_text in
               cache_set_text ("twitter/tweet_generation_" ++ id selectedTweet ++ ".txt") responseInfo ;;
               call Wait tt ;;
               ret (Responded selectedTweet))
              (fun error =>
                 log ConsoleError ("Error sending response post: " ++ JS.Error_toString error) ;;
                 ret (SendFailed selectedTweet))
        end
    end.

(** The [try] block of [engageWithSearchTerms] (lines 247-498). *)
Definition engageWithSearchTerms_body : M PassExit :=
  let! r := Math_random in
  let searchTerm :=
    JS.index (topics E) (JS.floor_random_times r (Z.of_nat (length (topics E)))) in
  log LogInfo "Fetching search tweets" ;;
  tick (Sleep 5000) ;;
  let! recentTweets :=
    call (FetchSearchTweets searchTerm 20 Top) (fetchSearchTweets E searchTerm) in
  log LogInfo "Search tweets fetched" ;;
  let! homeTimeline := call (FetchHomeTimeline 50) (fetchHomeTimeline E) in
  call CacheTimeline tt ;;
  let formattedHomeTimeline := formatHomeTimeline homeTimeline in
  let slicedTweets := JS.slice0 20 (shuffle E recentTweets) in
  if (length slicedTweets =? 0)%nat then
    log LogInfo ("No valid tweets found for the search term " ++ show searchTerm) ;;
    ret NoTweets
  else
    let prompt := selectionPrompt searchTerm slicedTweets homeTimeline in
    let! mostInterestingTweetResponse :=
      call (GenerateText prompt SMALL) (generateText E prompt SMALL) in
    let tweetId := JS.trim mostInterestingTweetResponse in
    let selectedTweet := JS.find (matchesTweetId tweetId) slicedTweets in
    match selectedTweet with
    | None =>
        log LogWarn "No matching tweet found for the selected ID" ;;
        log LogInfo ("Selected tweet ID: " ++ tweetId) ;;
        ret NoMatchingTweet
    | Some selectedTweet => replyTo selectedTweet tweetId formattedHomeTimeline
    end.

(** [engageWithSearchTerms] (lines 242-502). *)
Definition engageWithSearchTerms : M PassExit :=
  log LogInfo "Engaging with search terms" ;;
  try_catch engageWithSearchTerms_body
    (fun error =>
       log ConsoleError ("Error engaging with search terms: " ++ JS.message error) ;;
       ret PassError).

End TwitterSearchClient.

(** ** The [CREATE_TRENDING_TOKEN] action *)

Section CreateTrendingToken.

Variable E : Env.

(** [isTrendingTokenContent] (lines 41-50): a check of the types of six
    properties.  Reading a property of [null] throws. *)
Definition isTrendingTokenContent (content : JS.value) : JS.Error + bool :=
  get! trend := JS.get_prop content "trend" in
  get! name_ := JS.get_prop content "name" in
  get! symbol := JS.get_prop content "symbol" in
  get! description := JS.get_prop content "description" in
  get! uri := JS.get_prop content "uri" in
  get! decimals := JS.get_prop content "decimals" in
  inr (JS.is_string trend &&
       JS.is_string name_ &&
       JS.is_string symbol &&
       JS.is_string description &&
       JS.is_string uri &&
       JS.is_number decimals).

Definition quoted (s : string) : string := JS.dq ++ s ++ JS.dq.

(** [trendingTokenTemplate] (lines 52-65). *)
Definition trendingTokenTemplate : string :=
  "Generate a token based on the trending topic. Response must be JSON:

`json
{
    " ++ quoted "trend" ++ ": " ++ quoted "trending topic" ++ ",
    " ++ quoted "name" ++ ": " ++ quoted "Token name (max 32 chars)" ++ ",
    " ++ quoted "symbol" ++ ": " ++ quoted "3-5 letter uppercase ticker" ++ ",
    " ++ quoted "description" ++ ": " ++ quoted "Token purpose and relation to trend" ++ ",
    " ++ quoted "uri" ++ ": " ++ quoted "https://raw.githubusercontent.com/solana-developers/opos-asset/main/assets/CompressedCoil/image.png" ++ ",
    " ++ quoted "decimals" ++ ": 9
}
`

Current trending topic: {{trend}}".

(** The number held by a property that passed the type check. *)
Definition number_field (v : JS.value) (key : string) : Z :=
  match JS.get_prop v key with
  | inr (Some (JS.JNum n)) => n
  | _ => 0
  end.

(** [{ ...tokenInfo, mintAddress, timestamp }] *)
Definition launchedRecord (tokenInfo : JS.value) (mint : string) (now : Z) : JS.value :=
  match tokenInfo with
  | JS.JObj fields =>
      JS.JObj (<["timestamp" := JS.JNum now]> (<["mintAddress" := JS.JStr mint]> fields))
  | _ =>
      JS.JObj (<["timestamp" := JS.JNum now]> (<["mintAddress" := JS.JStr mint]> ∅))
  end.

(** The optional callback of the handler is code of the caller.
    [types/eliza.d.ts] declares it as returning nothing; the callback that a
    pass builds and hands to the runtime (index.ts, lines 454-463) is an
    [async] function, whose failure is a promise that rejects.  On a
    response, a callback returns, throws, or returns a promise that
    rejects. *)
Inductive CallbackResult :=
  | Returned
  | Thrown (e : JS.Error)
  | Rejected (e : JS.Error).

Definition HandlerCallback : Type := CallbackResponse -> CallbackResult.

(** A promise that rejects and that nobody awaits or handles. *)
Definition abandon (e : JS.Error) : M unit :=
  fun w => (Ok tt, set_unhandled (fun u => (u ++ [e])%list) w).

(** [if (callback) { callback(response) }]: what the callback returns is not
    awaited. *)
Definition invoke (callback : option HandlerCallback) (response : CallbackResponse) : M unit :=
  match callback with
  | None => ret tt
  | Some cb =>
      tick (InvokeCallback response) ;;
      match cb response with
      | Returned => ret tt
      | Thrown e => throw e
      | Rejected e => abandon e
      end
  end.

(** The [try] block of the handler (lines 82-162). *)
Definition handler_body (state : State) (callback : option HandlerCallback) : M bool :=
  call E (GetService "TWITTER_CLIENT") tt ;;
  let! trends := call E GetTrends (getTrends E) in
  let topTrend := option_map trend_name (head trends) in
  match truthy topTrend with
  | None => throw (JS.mkError "No trending topics found")
  | Some topTrend =>
      let! usedTrends := cache_get_strings E "twitter/used_trends" in
      let usedTrends := default [] usedTrends in
      if JS.array_includes usedTrends topTrend then
        throw (JS.mkError "Top trend already used")
      else
        let tokenContext := composeContext E (<["trend" := topTrend]> state) trendingTokenTemplate in
        let! content := call E (GenerateText tokenContext LARGE) (generateText E tokenContext LARGE) in
        let! tokenInfo := lift (JSON_parse E content) in
        let! isContent := lift (isTrendingTokenContent tokenInfo) in
        if negb isContent then
          throw (JS.mkError "Invalid token content generated")
        else
          call E (GetSetting "SOLANA_PRIVATE_KEY") tt ;;
          call E (GetSetting "SOLANA_RPC_URL") tt ;;
          call E (GetSetting "OPENAI_API_KEY") tt ;;
          call E NewSolanaAgentKit tt ;;
          let! deployedToken :=
            call E (DeployToken (field tokenInfo "name") (field tokenInfo "uri")
                                (field tokenInfo "symbol") (number_field tokenInfo "decimals"))
                 (mintAddress E) in
          let usedTrends := (usedTrends ++ [topTrend])%list in
          cache_set_strings E "twitter/used_trends" usedTrends ;;
          let! launchedTokens := cache_get_objects E "twitter/launched_tokens" in
          let launchedTokens :=
            (default [] launchedTokens ++ [launchedRecord tokenInfo deployedToken (Date_now E)])%list in
          cache_set_objects E "twitter/launched_tokens" launchedTokens ;;
          invoke callback
            (mkResponse
               ("Successfully created trending token " ++ field tokenInfo "name" ++
                " ($" ++ field tokenInfo "symbol" ++ ") based on trend: " ++ topTrend)
               true) ;;
          ret true
  end.

(** [handler] (lines 72-173). *)
Definition handler (state : State) (callback : option HandlerCallback) : M bool :=
  log LogInfo "Starting CREATE_TRENDING_TOKEN handler..." ;;
  try_catch (handler_body state callback)
    (fun error =>
       log LogError ("Error in CREATE_TRENDING_TOKEN: " ++ JS.message error) ;;
       invoke callback
         (mkResponse ("Error creating trending token: " ++ JS.message error) false) ;;
       ret false).

End CreateTrendingToken.

(** ** The timer loop

    [engageWithSearchTermsLoop] (lines 229-240) starts a pass and arms a
    timer for its own next run.  The loop is modelled on a queue of timers
    and continuations ordered by due time (in milliseconds).  Of a pass, the
    loop sees only how long each of its suspensions lasts: [latency k] lists
    them for the [k]-th pass. *)

Module EventLoop.

Inductive Task :=
  | RunLoop
  | ResumePass (pass : nat) (rest : list Z).

Inductive Event :=
  | PassStarted (pass : nat)
  | PassCompleted (pass : nat)
  | LoopRescheduled (pass : nat) (randomMinutes : Z).

Record Sched := mkSched {
  now : Z;
  queue : list (Z * Task);
  passes : nat;
  running : list nat;
  journal : list (Z * Event);
}.

(** A new entry goes behind the entries that are due no later than it. *)
Fixpoint enqueue (due : Z) (t : Task) (q : list (Z * Task)) : list (Z * Task) :=
  match q with
  | [] => [(due, t)]
  | (d, t') :: q' =>
      if (d <=? due)%Z then (d, t') :: enqueue due t q' else (due, t) :: q
  end.

Definition record (e : Event) (s : Sched) : Sched :=
  mkSched (now s) (queue s) (passes s) (running s) (journal s ++ [(now s, e)])%list.

(** [setTimeout(task, ms)] and the suspension of a pass for [ms]. *)
Definition setTimeout (t : Task) (ms : Z) (s : Sched) : Sched :=
  mkSched (now s) (enqueue (now s + ms) t (queue s)) (passes s) (running s) (journal s).

Definition remove (k : nat) (l : list nat) : list nat :=
  List.filter (fun j => negb (Nat.eqb j k)) l.

Section Loop.

Variable random : nat -> JS.double.
Variable latency : nat -> list Z.

(** A pass runs up to its next suspension; at its last one it completes. *)
Definition continue (k : nat) (rest : list Z) (s : Sched) : Sched :=
  match rest with
  | [] =>
      record (PassCompleted k)
        (mkSched (now s) (queue s) (passes s) (remove k (running s)) (journal s))
  | d :: rest' => setTimeout (ResumePass k rest') d s
  end.

(** [this.engageWithSearchTerms().then()]: the call runs the pass up to its
    first suspension and returns its promise, on which nothing waits. *)
Definition engageWithSearchTerms_call (s : Sched) : Sched :=
  let k := passes s in
  let s1 :=
    record (PassStarted k)
      (mkSched (now s) (queue s) (S k) (running s ++ [k])%list (journal s)) in
  continue k (latency k) s1.

(** [Math.floor(Math.random() * (120 - 60 + 1)) + 60] *)
Definition randomMinutes (k : nat) : Z :=
  (JS.floor_random_times (random k) (120 - 60 + 1) + 60)%Z.

(** [engageWithSearchTermsLoop] (lines 229-240). *)
Definition engageWithSearchTermsLoop (s : Sched) : Sched :=
  let k := passes s in
  let s1 := engageWithSearchTerms_call s in
  let minutes := randomMinutes k in
  let s2 := record (LoopRescheduled k minutes) s1 in
  setTimeout RunLoop (minutes * 60 * 1000) s2.

Definition exec (t : Task) (s : Sched) : Sched :=
  match t with
  | RunLoop => engageWithSearchTermsLoop s
  | ResumePass k rest => continue k rest s
  end.

(** One turn of the event loop: the entry that is due first runs, at its due
    time. *)
Definition step (s : Sched) : option Sched :=
  match queue s with
  | [] => None
  | (due, t) :: q' =>
      Some (exec t (mkSched (Z.max (now s) due) q' (passes s) (running s) (journal s)))
  end.

Fixpoint run (n : nat) (s : Sched) : Sched :=
  match n with
  | O => s
  | S n' =>
      match step s with
      | None => s
      | Some s' => run n' s'
      end
  end.

(** [start()] calls the loop once. *)
Definition boot : Sched := engageWithSearchTermsLoop (mkSched 0 [] 0 [] []).

End Loop.

End EventLoop.

(** ** The process that runs the loop

    The passes that the loop starts run in one process of node.  A pass can
    leave the rejection of its un-awaited call unhandled: [rejection k]
    tells how long after the start of the [k]-th pass node reports it
    ([None]: the call does not fail, or the pass does not come to it), and
    [listener] whether the host has a listener for [unhandledRejection].
    Without one the report ends the process, with the exit code 1: no timer
    fires and no pass resumes any more. *)

Module Process.

Inductive State :=
  | Alive (s : EventLoop.Sched) (doom : option (Z * nat))
  | Exited (code : Z) (time : Z) (pass : nat) (s : EventLoop.Sched).

Section Node.

Variable random : nat -> JS.double.
Variable latency : nat -> list Z.
Variable rejection : nat -> option Z.
Variable listener : bool.

(** The earlier of the report that is due and a new one. *)
Definition earlier (doom : option (Z * nat)) (report : Z * nat) : option (Z * nat) :=
  match doom with
  | Some (t, k) => if (t <=? fst report)%Z then Some (t, k) else Some report
  | None => Some report
  end.

(** A turn from [s] to [s'] in which the loop ran has started the pass
    [passes s]: when its promise rejects and nobody listens, the report is
    due. *)
Definition schedule_report (s s' : EventLoop.Sched) (doom : option (Z * nat)) : option (Z * nat) :=
  if (EventLoop.passes s' =? S (EventLoop.passes s))%nat then
    match rejection (EventLoop.passes s), listener with
    | Some d, false => earlier doom ((EventLoop.now s' + d)%Z, EventLoop.passes s)
    | _, _ => doom
    end
  else doom.

(** A turn of the event loop, in a process that lives. *)
Definition turn (s : EventLoop.Sched) (doom : option (Z * nat)) : option State :=
  match EventLoop.step random latency s with
  | Some s' => Some (Alive s' (schedule_report s s' doom))
  | None => None
  end.

(** What happens next: the report of a rejection, when it is due no later
    than the next entry of the queue, ends the process; otherwise the entry
    runs. *)
Definition step (p : State) : option State :=
  match p with
  | Exited _ _ _ _ => None
  | Alive s doom =>
      match doom, EventLoop.queue s with
      | Some (t, k), (due, _) :: _ =>
          if (t <=? due)%Z then Some (Exited 1 t k s) else turn s doom
      | Some (t, k), [] => Some (Exited 1 t k s)
      | None, _ => turn s doom
      end
  end.

Fixpoint run (n : nat) (p : State) : State :=
  match n with
  | O => p
  | S n' =>
      match step p with
      | None => p
      | Some p' => run n' p'
      end
  end.

(** [start()] calls the loop once. *)
Definition boot : State :=
  let s0 := EventLoop.mkSched 0 [] 0 [] [] in
  let s := EventLoop.engageWithSearchTermsLoop random latency s0 in
  Alive s (schedule_report s0 s None).

(** The report that ends a process is that of a pass that was started, and
    whose promise rejects with nobody listening. *)
Definition doomed (p : State) : Prop :=
  match p with
  | Alive s (Some (t, k)) | Exited _ t k s =>
      listener = false /\ (exists d, rejection k = Some d) /\ (k < EventLoop.passes s)%nat
  | Alive _ None => True
  end.

End Node.

End Process.

(** ** Vocabulary of the specification *)

(** [sub] occurs in [s]. *)
Definition substring_of (sub s : string) : Prop :=
  exists before after, s = before ++ sub ++ after.

(** The answer of the model and the id of a candidate match when one of
    them occurs in the other. *)
Definition matches (tweetId : string) (candidate : Tweet) : Prop :=
  substring_of tweetId (id candidate) \/ substring_of (id candidate) tweetId.

(** The thread-exclusion filter in the words of the specification: of a
    pool, the posts whose reply thread has no post by the agent, in the order
    of the pool. *)
Definition without_agent_threads (agent : string) (pool : list Tweet) : list Tweet :=
  filter (fun t => ~ Exists (fun reply => username reply = agent) (thread t)) pool.

(** [t] is the name of the first trend of [trends], in list order, that is
    absent from [used]. *)
Definition first_absent (used : list string) (trends : list TwitterTrend) (t : string) : Prop :=
  exists pre tr post,
    trends = (pre ++ tr :: post)%list /\
    trend_name tr = t /\
    (t ∉ used) /\
    forall x, x ∈ pre -> trend_name x ∈ used.

(** No external call fails. *)
Definition no_fault (E : Env) : Prop := forall n, fault E n = None.

(** What an accepted concept is made of: the parsed answer [v], with the
    trend written to it, passes [validateTokenInfo], and its ticker is put in
    upper case. *)
Definition accepted (E : Env) (response selectedTrend : string) (tokenInfo : JS.value) : Prop :=
  exists v v1 ticker,
    JSON_parse E response = inr v /\
    JS.set_prop v "sourceTrend" (JS.JStr selectedTrend) = inr v1 /\
    validateTokenInfo v1 = inr true /\
    JS.get_prop v1 "ticker" = inr (Some (JS.JStr ticker)) /\
    JS.set_prop v1 "ticker" (JS.JStr (JS.toUpperCase ticker)) = inr tokenInfo.

(** The validity invariant of a token concept: a ticker of 3 to 5 letters,
    a name of at most 32 characters. *)
Definition valid_concept (name_ ticker : string) : Prop :=
  JS.every JS.is_alpha ticker = true /\
  (3 <= String.length ticker <= 5)%nat /\
  (String.length name_ <= 32)%nat.

(** What the handler has done once it has written the used-trends log: the
    top trend [t] was unused, the parsed answer passed the type guard, and
    the token was deployed with the fields of that answer. *)
Definition launched (E : Env) (state : State) (w w' : World) (t : string) (tokenInfo : JS.value) : Prop :=
  (exists tr rest, getTrends E = tr :: rest /\ trend_name tr = t) /\
  t <> "" /\
  (t ∉ UsedTrendsLog w) /\
  JSON_parse E (generateText E (composeContext E (<["trend" := t]> state) trendingTokenTemplate) LARGE)
    = inr tokenInfo /\
  isTrendingTokenContent tokenInfo = inr true /\
  (DeployToken (field tokenInfo "name") (field tokenInfo "uri") (field tokenInfo "symbol")
               (number_field tokenInfo "decimals") ∈ trace w') /\
  UsedTrendsLog w' = (UsedTrendsLog w ++ [t])%list.

(** A callback that returns: it does not throw, and the promise that it
    may return does not reject. *)
Definition quiet (callback : option HandlerCallback) : Prop :=
  forall cb response, callback = Some cb -> cb response = Returned.

(** The tweet that an exit of the pass is about. *)
Definition selected_of (x : PassExit) : option Tweet :=
  match x with
  | OwnTweet t | NoMessageText t | NoResponseText t | Responded t | SendFailed t => Some t
  | NoTweets | NoMatchingTweet | PassError => None
  end.

(** What a pass that starts in world [w] works with: its search term, its
    candidate pool, the prompt it sends and the trimmed answer it gets. *)
Definition pass_searchTerm (E : Env) (w : World) : option string :=
  JS.index (topics E) (JS.floor_random_times (random E (draws w)) (Z.of_nat (length (topics E)))).
Definition pass_slicedTweets (E : Env) (w : World) : list Tweet :=
  JS.slice0 20 (shuffle E (fetchSearchTweets E (pass_searchTerm E w))).
Definition pass_prompt (E : Env) (w : World) : string :=
  selectionPrompt E (pass_searchTerm E w) (pass_slicedTweets E w) (fetchHomeTimeline E).
Definition pass_tweetId (E : Env) (w : World) : string :=
  JS.trim (generateText E (pass_prompt E w) SMALL).

(** The exit that the selection step of a pass that starts in [w] allows. *)
Definition selection_outcome (E : Env) (w : World) (x : PassExit) : Prop :=
  match pass_slicedTweets E w with
  | [] => x = NoTweets
  | _ :: _ =>
      match JS.find (matchesTweetId (pass_tweetId E w)) (pass_slicedTweets E w) with
      | None => x = NoMatchingTweet
      | Some t => selected_of x = Some t
      end
  end.

(** A reply was handed to [sendTweet], with [tweetId] as the id to reply
    to. *)
Definition reply_sent (E : Env) (tweetId : string) (w : World) : Prop :=
  exists reply roomId, SendTweet reply roomId (twitterUsername E) tweetId ∈ trace w.

Definition no_match_warning : LogLevel * string :=
  (LogWarn, "No matching tweet found for the selected ID").

(** The world as the [try] block of a function finds it, after the log line
    that precedes the block. *)
Definition logged (level : LogLevel) (msg : string) (w : World) : World :=
  set_logs (fun l => (l ++ [(level, msg)])%list) w.

(** *** Reasoning about computations *)

(** The external calls of a computation are appended to the trace. *)
Definition extends {A : Type} (m : M A) : Prop :=
  forall w r w', m w = (r, w') -> exists suffix, trace w' = (trace w ++ suffix)%list.

(** Every exit of a computation other than an error is about [t]. *)
Definition carries (t : Tweet) (m : M PassExit) : Prop :=
  forall w x w', m w = (Ok x, w') -> selected_of x = Some t.

(** Total correctness when no external call fails: from a world that
    satisfies [P], the computation ends without an error in a world that
    satisfies [Q]. *)
Definition triple (E : Env) {A : Type} (P : World -> Prop) (m : M A) (Q : A -> World -> Prop) : Prop :=
  no_fault E -> forall w, P w -> exists a w', m w = (Ok a, w') /\ Q a w'.

Definition safe (E : Env) {A : Type} (m : M A) : Prop :=
  triple E (fun _ => True) m (fun _ _ => True).

(** *** The timer loop *)

(** The time a pass takes: the sum of its suspensions. *)
Definition duration (l : list Z) : Z := fold_right Z.add 0%Z l.

Definition hour : Z := 60 * 60 * 1000.

(** The shape of the scheduler between two turns when passes are short: the
    timer of the loop is armed, and at most one pass is in flight, which ends
    before the timer fires. *)
Definition calm (s : EventLoop.Sched) : Prop :=
  exists T,
    (EventLoop.queue s = [(T, EventLoop.RunLoop)] /\
     EventLoop.running s = [] /\ (EventLoop.now s <= T)%Z) \/
    (exists d k rest,
       EventLoop.queue s = [(d, EventLoop.ResumePass k rest); (T, EventLoop.RunLoop)] /\
       EventLoop.running s = [k] /\
       (EventLoop.now s <= d)%Z /\
       Forall (fun x => 0 <= x)%Z rest /\
       (d + duration rest < T)%Z).

(** ** Concrete situations *)

Module Scenario.

Definition trend (n : string) : TwitterTrend :=
  mkTrend n ("https://twitter.com/search?q=" ++ n) false n None.

Definition AI_AI_Web3 : list TwitterTrend := [trend "AI"; trend "AI"; trend "Web3"].

Definition tweet (i author : string) (thread_ : list Tweet) : Tweet :=
  mkTweet i author author (Some ("post " ++ i)) None thread_ [] [] false
          ("conversation-" ++ i) ("user-" ++ author)
          ("https://twitter.com/" ++ author ++ "/status/" ++ i) 0.

Definition world0 : World := mkWorld ∅ ∅ ∅ [] [] 0 [] ∅.

(** The used-trends log holds ["AI"]. *)
Definition world_AI : World := set_cache_strings (insert used_trends_key ["AI"]) world0.

Definition syntax_error : JS.Error := JS.newError "SyntaxError" "Unexpected token".

(** A parser that knows one text. *)
Definition parse_as (text_ : string) (v : JS.value) (s : string) : JS.Error + JS.value :=
  if String.eqb s text_ then inr v else inl syntax_error.

Definition concept (ticker : string) : JS.value :=
  JS.object [("name", JS.JStr "X"); ("ticker", JS.JStr ticker);
          ("description", JS.JStr "d"); ("imagePrompt", JS.JStr "p")].

Definition concept_text (ticker : string) : string :=
  "{" ++ quoted "name" ++ ":" ++ quoted "X" ++ "," ++
  quoted "ticker" ++ ":" ++ quoted ticker ++ "," ++
  quoted "description" ++ ":" ++ quoted "d" ++ "," ++
  quoted "imagePrompt" ++ ":" ++ quoted "p" ++ "}".

(** An answer to the template of the action, with a symbol of eight
    characters, one of them a digit. *)
Definition content_TOOLONG1 : JS.value :=
  JS.object [("trend", JS.JStr "AI"); ("name", JS.JStr "X"); ("symbol", JS.JStr "TOOLONG1");
          ("description", JS.JStr "d"); ("uri", JS.JStr "https://example.org/x.png");
          ("decimals", JS.JNum 9)].

Definition never : nat -> option JS.Error := fun _ => None.

Definition env (fault_ : nat -> option JS.Error) (topics_ : list string)
    (trends : list TwitterTrend) (answer : string) (parsed : JS.value)
    (search : list Tweet) : Env :=
  {| fault := fault_;
     random := fun _ => JS.zero;
     twitterUsername := "ruby";
     ANNOUNCE_NEW_TOKENS := false;
     agentId := "agent";
     characterName := "Ruby";
     topics := topics_;
     twitterSearchTemplate_override := None;
     messageCompletionFooter := "";
     getTrends := trends;
     fetchSearchTweets := fun _ => search;
     fetchHomeTimeline := [];
     getTweet := fun i => tweet i "someone" [];
     sendTweet := fun c => [mkMemory "memory-1" (content_text c)];
     generateText := fun _ _ => answer;
     generateMessageResponse := fun _ => mkContent "Interesting." None;
     JSON_parse := parse_as answer parsed;
     shuffle := fun l => l;
     describeImage := fun _ => "an image";
     composeState := fun _ st => st;
     composeContext := fun _ template => template;
     stringToUuid := fun s => "uuid:" ++ s;
     mintAddress := "MintAddress111";
     Date_now := 1700000000000 |}.

(** The model answers the concept with ticker ["xyz"]. *)
Definition env_xyz : Env :=
  env never ["crypto"] AI_AI_Web3 (concept_text "xyz") (concept "xyz") [].

(** The model answers a concept with ticker ["TOOLONG"]. *)
Definition env_TOOLONG : Env :=
  env never ["crypto"] AI_AI_Web3 (concept_text "TOOLONG") (concept "TOOLONG") [].

(** The action runs on the single trend ["AI"]. *)
Definition env_action : Env :=
  env never ["crypto"] [trend "AI"] "the answer of the model" content_TOOLONG1 [].

Definition bob : Tweet := tweet "777" "bob" [].
Definition alice : Tweet := tweet "12345" "alice" [].

(** The selection answer is ["12345 is the best"]. *)
Definition env_12345 : Env :=
  env never ["crypto"] [] "12345 is the best" JS.JNull [bob; alice].

(** The selection answer is ["123"]: it occurs in the id of [erin] and in
    no other id, while the ids of [carol] and [dave] occur in it. *)
Definition carol : Tweet := tweet "12" "carol" [].
Definition dave : Tweet := tweet "23" "dave" [].
Definition erin : Tweet := tweet "1234" "erin" [].
Definition env_123 : Env :=
  env never ["crypto"] [] "123" JS.JNull [carol; dave; erin].

(** The selection answer is white space. *)
Definition env_blank : Env :=
  env never ["crypto"] [] ("  " ++ JS.nl) JS.JNull [bob; alice].

(** The character has no topic. *)
Definition env_no_topics : Env :=
  env never [] [] "777" JS.JNull [bob; alice].

(** There is no trend, and the callback of the caller throws. *)
Definition env_no_trends : Env :=
  env never ["crypto"] [] "" JS.JNull [].
Definition callback_error : JS.Error := JS.mkError "callback failed".

(** The first trend has an empty name; no trend is used yet. *)
Definition env_empty_name : Env :=
  env never ["crypto"] [trend ""; trend "Web3"] (concept_text "xyz") (concept "xyz") [].

(** The first external call fails. *)
Definition network_error : JS.Error := JS.mkError "network down".
Definition env_offline : Env :=
  env (fun n => match n with O => Some network_error | _ => None end)
      ["crypto"] AI_AI_Web3 "" JS.JNull [].

(** A pass that takes two hours, and delays of sixty minutes. *)
Definition slow_latency (k : nat) : list Z := [5000; 7200000]%Z.
Definition quick_latency (k : nat) : list Z := [5000; 20000]%Z.
Definition zero_random (k : nat) : JS.double := JS.zero.

End Scenario.

(** ** More vocabulary: the token stores, frames and sessions *)

(** The concepts stored by [storeTokenInfo] and the records stored by the
    CREATE_TRENDING_TOKEN handler: the lists under their cache keys, empty
    when the key is absent. *)
Definition generated_tokens_key : string := "twitter/generated_tokens".
Definition GeneratedTokens (w : World) : list JS.value :=
  default [] (cache_objects w !! generated_tokens_key).

Definition launched_tokens_key : string := "twitter/launched_tokens".
Definition LaunchedTokens (w : World) : list JS.value :=
  default [] (cache_objects w !! launched_tokens_key).

(** The text of the announcement of line 216. *)
Definition announcementOf (tokenInfo : JS.value) : string :=
  " New Token Alert! 🔥" ++ JS.nl ++ JS.nl ++
  field tokenInfo "name" ++ " ($" ++ field tokenInfo "ticker" ++ ")" ++ JS.nl ++ JS.nl ++
  field tokenInfo "description" ++ JS.nl ++ JS.nl ++ "#crypto #newtoken ".

(** A computation leaves a component [f] of the world as it found it. *)
Definition preserves {X A : Type} (f : World -> X) (m : M A) : Prop :=
  forall w r w', m w = (r, w') -> f w' = f w.



(** The used-trends log after a run is the log before it, or that log with
    one trend appended that it did not hold. *)
Definition grows_by_fresh (w w' : World) : Prop :=
  UsedTrendsLog w' = UsedTrendsLog w \/
  exists t, (t ∉ UsedTrendsLog w) /\ UsedTrendsLog w' = (UsedTrendsLog w ++ [t])%list.

(** The entry points of the plugin, each with the environment it runs in,
    and a session: entry points run one after the other on the same world. *)
Inductive Invocation :=
  | RunStart (E : Env)
  | RunGenerator (E : Env)
  | RunHandler (E : Env) (state : State) (callback : option HandlerCallback)
  | RunPass (E : Env).

Definition run_invocation (i : Invocation) (w : World) : World :=
  match i with
  | RunStart E => snd (start E w)
  | RunGenerator E => snd (getTopTrendAndGenerateToken E w)
  | RunHandler E state callback => snd (handler E state callback w)
  | RunPass E => snd (engageWithSearchTerms E w)
  end.

Definition session (l : list Invocation) (w : World) : World :=
  fold_left (fun w i => run_invocation i w) l w.

(** *** The handler: its prompt, its responses and its calls *)

(** The prompt of lines 103-106, for the top trend [t]. *)
Definition handlerContext (E : Env) (state : State) (t : string) : string :=
  composeContext E (<["trend" := t]> state) trendingTokenTemplate.

(** The responses that the handler hands to its callback (lines 153-160 and
    166-169). *)
Definition successResponse (tokenInfo : JS.value) (t : string) : CallbackResponse :=
  mkResponse
    ("Successfully created trending token " ++ field tokenInfo "name" ++
     " ($" ++ field tokenInfo "symbol" ++ ") based on trend: " ++ t)
    true.

Definition errorResponse (e : JS.Error) : CallbackResponse :=
  mkResponse ("Error creating trending token: " ++ JS.message e) false.

(** The external calls of a launch, in the order of lines 83-150. *)
Definition launchCalls (E : Env) (state : State) (t : string) (tokenInfo : JS.value) : list Call :=
  [GetService "TWITTER_CLIENT"; GetTrends; CacheGet "twitter/used_trends";
   GenerateText (handlerContext E state t) LARGE;
   GetSetting "SOLANA_PRIVATE_KEY"; GetSetting "SOLANA_RPC_URL"; GetSetting "OPENAI_API_KEY";
   NewSolanaAgentKit;
   DeployToken (field tokenInfo "name") (field tokenInfo "uri") (field tokenInfo "symbol")
               (number_field tokenInfo "decimals");
   CacheSet "twitter/used_trends"; CacheGet "twitter/launched_tokens";
   CacheSet "twitter/launched_tokens"].

(** The calls of the callback, when there is one. *)
Definition callbackCalls (callback : option HandlerCallback) (responses : list CallbackResponse) : list Call :=
  match callback with
  | Some _ => map InvokeCallback responses
  | None => []
  end.

(** The top trend as the handler reads it ([trends[0]?.name]). *)
Definition topTrend (E : Env) : option string := option_map trend_name (head (getTrends E)).

(** *** The replies of a pass *)

Definition is_reply (c : Call) : bool :=
  match c with
  | SendTweet _ _ _ _ => true
  | _ => false
  end.

(** The calls of [sendTweet] among the calls of a run. *)
Definition replies (l : list Call) : list Call := List.filter is_reply l.

(** The calls of [sendTweet] that a computation makes satisfy [R]. *)
Definition sends {A : Type} (R : list Call -> Prop) (m : M A) : Prop :=
  forall w r w', m w = (r, w') ->
    exists suffix, trace w' = (trace w ++ suffix)%list /\ R (replies suffix).

Definition silent {A : Type} (m : M A) : Prop := sends (fun l => l = []) m.

(** The ids that the pass derives from the selected tweet (lines 341-346
    and 360). *)
Definition roomIdOf (E : Env) (t : Tweet) : string :=
  stringToUuid E (conversationId t ++ "-" ++ agentId E).
Definition userIdOf (E : Env) (t : Tweet) : string := stringToUuid E (userId t).
Definition messageIdOf (E : Env) (t : Tweet) : string :=
  stringToUuid E (id t ++ "-" ++ agentId E).

(** When a pass replies: it makes no call of [sendTweet], or one, for the
    tweet [t] that is not the agent's own and has text, with a reply that is
    not empty, in the room of the conversation of [t] and with [tweetId] as
    the id to reply to. *)
Definition reply_rule (E : Env) (t : Tweet) (tweetId : string) (l : list Call) : Prop :=
  l = [] \/
  exists reply,
    l = [SendTweet reply (roomIdOf E t) (twitterUsername E) tweetId] /\
    username t <> twitterUsername E /\
    truthy (text t) <> None /\
    reply <> "" /\
    exists context, reply = content_text (generateMessageResponse E context).

(** *** What a pass builds for the tweet it replies to *)

(** Lines 391-397. *)
Definition tweetBackgroundOf (E : Env) (t : Tweet) : string :=
  if isRetweet t then
    let originalTweet := getTweet E (id t) in
    "Retweeting @" ++ username originalTweet ++ ": " ++ show (text originalTweet)
  else "".

(** Lines 402-410. *)
Definition imageDescriptionsOf (E : Env) (t : Tweet) : list string :=
  map (fun photo => describeImage E (photo_url photo)) (photos t).

(** Lines 430-432: the template of the character when it has one that is not
    empty, the template of the plugin otherwise. *)
Definition searchTemplateOf (E : Env) : string :=
  default (twitterSearchTemplate E) (truthy (twitterSearchTemplate_override E)).

(** Lines 412-433: the context given to the model for the reply to [t]. *)
Definition contextOf (E : Env) (t : Tweet) (message_text formattedHomeTimeline : string) : string :=
  let tweetContext :=
    tweetContextOf (tweetBackgroundOf E t) t message_text (replyContextOf E (thread t))
      (imageDescriptionsOf E t) in
  let additionalKeys : State :=
    <["twitterUserName" := twitterUsername E]>
      (<["timeline" := formattedHomeTimeline]>
         (<["tweetContext" := tweetContext]> ∅)) in
  composeContext E (composeState E (messageIdOf E t) additionalKeys) (searchTemplateOf E).

(** The cache key of line 491. *)
Definition generationKey (t : Tweet) : string :=
  "twitter/tweet_generation_" ++ id t ++ ".txt".

(** The calls of lines 403-410: for each photo, the look-up of the image
    description service and the call of its [describeImage]. *)
Definition describeCalls (photos_ : list Photo) : list Call :=
  flat_map (fun photo => [GetService "IMAGE_DESCRIPTION"; DescribeImage (photo_url photo)])
    photos_.

(** The external calls of lines 348-495, in their order, when each of them
    succeeds and the model writes the reply [reply]. *)
Definition replyCalls (E : Env) (t : Tweet) (tweetId context reply : string) : list Call :=
  ([EnsureConnection (userIdOf E t) (roomIdOf E t) (username t) (name t) "twitter";
    BuildConversationThread (id t)] ++
   (if isRetweet t then [GetTweet (id t)] else []) ++
   [GetTrends] ++
   describeCalls (photos t) ++
   [ComposeState (messageIdOf E t); SaveRequestMessage (messageIdOf E t);
    GenerateMessageResponse context LARGE;
    SendTweet reply (roomIdOf E t) (twitterUsername E) tweetId;
    UpdateRecentMessageState] ++
   map CreateMemory (sendTweet E (mkContent reply (Some (messageIdOf E t)))) ++
   [UpdateRecentMessageState; Evaluate (messageIdOf E t); ProcessActions (messageIdOf E t);
    CacheSet (generationKey t); Wait])%list.

(** What a pass that replies to [t] with [reply] writes to the log. *)
Definition replyLogs (t : Tweet) (reply : string) : list (LogLevel * string) :=
  [(LogInfo, "Selected tweet to reply to: " ++ show (text t));
   (LogInfo, "Bot would respond to tweet " ++ id t ++ " with: " ++ reply)].
Definition passLogs (t : Tweet) (reply : string) : list (LogLevel * string) :=
  ([(LogInfo, "Engaging with search terms"); (LogInfo, "Fetching search tweets");
    (LogInfo, "Search tweets fetched")] ++ replyLogs t reply)%list.

(** The calls of a pass up to its selection (lines 253-319). *)
Definition selectionCalls (E : Env) (w : World) : list Call :=
  [Sleep 5000; FetchSearchTweets (pass_searchTerm E w) 20 Top; FetchHomeTimeline 50;
   CacheTimeline; GenerateText (pass_prompt E w) SMALL].

(** The errors that the call of [getTrends] of line 399 leaves unhandled,
    when it is the [N]-th external call. *)
Definition rejected (E : Env) (N : nat) : list JS.Error :=
  match fault E N with
  | Some e => [e]
  | None => []
  end.

(** *** Independence of the responded set *)

(** Two worlds that differ at most in the set of responded tweets. *)
Definition same_but_responded (w1 w2 : World) : Prop :=
  cache_strings w1 = cache_strings w2 /\
  cache_objects w1 = cache_objects w2 /\
  cache_text w1 = cache_text w2 /\
  trace w1 = trace w2 /\
  logs w1 = logs w2 /\
  draws w1 = draws w2 /\
  unhandled w1 = unhandled w2.

(** A computation that does not look at the set of responded tweets: from
    two such worlds it ends the same way, in two such worlds. *)
Definition blind {A : Type} (m : M A) : Prop :=
  forall w1 w2, same_but_responded w1 w2 ->
    fst (m w1) = fst (m w2) /\ same_but_responded (snd (m w1)) (snd (m w2)).

(** *** The schedule of the loop *)

Definition is_loop_timer (e : Z * EventLoop.Task) : bool :=
  match snd e with
  | EventLoop.RunLoop => true
  | EventLoop.ResumePass _ _ => false
  end.

(** The pending timers of the loop itself. *)
Definition loop_timers (s : EventLoop.Sched) : list (Z * EventLoop.Task) :=
  List.filter is_loop_timer (EventLoop.queue s).

(** The suspensions that the passes in flight still have before them. *)
Definition suspensions (e : Z * EventLoop.Task) : nat :=
  match snd e with
  | EventLoop.RunLoop => 0
  | EventLoop.ResumePass _ rest => S (length rest)
  end.

Definition pending (q : list (Z * EventLoop.Task)) : nat :=
  fold_right (fun e n => (suspensions e + n)%nat) 0%nat q.

(** The time at which the [k]-th run of the loop is due: the sum of the
    delays drawn by the runs before it. *)
Fixpoint start_time (random : nat -> JS.double) (k : nat) : Z :=
  match k with
  | O => 0
  | S k' => start_time random k' + EventLoop.randomMinutes random k' * 60 * 1000
  end.

(** A queue in the order of its due times, none of them before [lo]. *)
Fixpoint in_order (lo : Z) (q : list (Z * EventLoop.Task)) : Prop :=
  match q with
  | [] => True
  | (due, _) :: q' => (lo <= due)%Z /\ in_order due q'
  end.

(** The suspensions of an entry that are still to come are not negative. *)
Definition resumable (e : Z * EventLoop.Task) : Prop :=
  match snd e with
  | EventLoop.RunLoop => True
  | EventLoop.ResumePass _ rest => Forall (fun d => 0 <= d)%Z rest
  end.

(** What the journal says of a pass: it started, and the loop armed its
    timer, at the time of the run; [p] is the last pass started. *)
Definition timely (random : nat -> JS.double) (p : nat) (entry : Z * EventLoop.Event) : Prop :=
  match snd entry with
  | EventLoop.PassStarted k => (k <= p)%nat /\ fst entry = start_time random k
  | EventLoop.LoopRescheduled k m =>
      (k <= p)%nat /\ fst entry = start_time random k /\ m = EventLoop.randomMinutes random k
  | EventLoop.PassCompleted _ => True
  end.

(** The shape of the scheduler between two turns when no suspension is
    negative: the queue is in the order of the due times, none of which is
    past; [p + 1] passes were started, each at its time; the one timer of the
    loop is due at the time of the next run. *)
Definition on_schedule (random : nat -> JS.double) (s : EventLoop.Sched) : Prop :=
  in_order (EventLoop.now s) (EventLoop.queue s) /\
  Forall resumable (EventLoop.queue s) /\
  exists p,
    EventLoop.passes s = S p /\
    loop_timers s = [(start_time random (S p), EventLoop.RunLoop)] /\
    Forall (timely random p) (EventLoop.journal s).

(** The timer of the loop is armed, once. *)
Definition one_timer (s : EventLoop.Sched) : Prop := length (loop_timers s) = 1%nat.

(** ** The version script

    The first module of the action's source file writes the version of the
    package to [src/version.ts].  Its collaborators are the file system, the
    path library and [JSON.parse]; paths are absolute, a list of segments
    from the root. *)

Module VersionScript.

Definition Path : Type := list string.

(** [path.join] on a normalized absolute path: [..] steps to the parent
    (the root is its own parent), [.] and the empty segment stay. *)
Definition step_into (p : Path) (segment : string) : Path :=
  if String.eqb segment ".." then removelast p
  else if String.eqb segment "." || String.eqb segment "" then p
  else (p ++ [segment])%list.

Definition join (p : Path) (segments : list string) : Path :=
  fold_left step_into segments p.






Section Script.

(** [JSON.parse], the string that a number prints as, and [__dirname]. *)
Variable JSON_parse : string -> JS.Error + JS.value.
Variable Number_toString : Z -> string.
Variable dirname_ : Path.







End Script.

End VersionScript.

(** ** More concrete situations *)

Module Cases.

(** Only the [n]-th external call fails. *)
Definition fault_at (n : nat) (e : JS.Error) : nat -> option JS.Error :=
  fun k => if Nat.eqb k n then Some e else None.

(** The environment [E] with announcements switched on. *)
Definition announcing (E : Env) : Env :=
  {| fault := fault E;
     random := random E;
     twitterUsername := twitterUsername E;
     ANNOUNCE_NEW_TOKENS := true;
     agentId := agentId E;
     characterName := characterName E;
     topics := topics E;
     twitterSearchTemplate_override := twitterSearchTemplate_override E;
     messageCompletionFooter := messageCompletionFooter E;
     getTrends := getTrends E;
     fetchSearchTweets := fetchSearchTweets E;
     fetchHomeTimeline := fetchHomeTimeline E;
     getTweet := getTweet E;
     sendTweet := sendTweet E;
     generateText := generateText E;
     generateMessageResponse := generateMessageResponse E;
     JSON_parse := JSON_parse E;
     shuffle := shuffle E;
     describeImage := describeImage E;
     composeState := composeState E;
     composeContext := composeContext E;
     stringToUuid := stringToUuid E;
     mintAddress := mintAddress E;
     Date_now := Date_now E |}.

(** An accepted concept. *)
Definition concept_XYZ : JS.value :=
  JS.object [("name", JS.JStr "X"); ("ticker", JS.JStr "XYZ");
             ("description", JS.JStr "d"); ("imagePrompt", JS.JStr "p");
             ("sourceTrend", JS.JStr "Web3")].


(** The generator succeeds with its seven calls; the first call of
    [storeTokenInfo], the eighth, fails. *)
Definition env_store_fails : Env :=
  Scenario.env (fault_at 7 Scenario.network_error) ["crypto"] Scenario.AI_AI_Web3
    (Scenario.concept_text "xyz") (Scenario.concept "xyz") [].

(** A callback that throws when it is told of a success. *)
Definition success_averse : HandlerCallback :=
  fun response => if response_success response then Thrown Scenario.callback_error else Returned.

(** An [async] callback that fails when it is told of a success. *)
Definition success_rejecting : HandlerCallback :=
  fun response => if response_success response then Rejected Scenario.callback_error else Returned.

(** The one trend is already used. *)
Definition env_AI_only : Env :=
  Scenario.env Scenario.never ["crypto"] [Scenario.trend "AI"] "" JS.JNull [].


(** The environment [E] with other topics and another first draw of
    [Math.random]. *)
Definition drawing (x : JS.double) (topics_ : list string) (E : Env) : Env :=
  {| fault := fault E;
     random := fun k => match k with O => x | _ => random E k end;
     twitterUsername := twitterUsername E;
     ANNOUNCE_NEW_TOKENS := ANNOUNCE_NEW_TOKENS E;
     agentId := agentId E;
     characterName := characterName E;
     topics := topics_;
     twitterSearchTemplate_override := twitterSearchTemplate_override E;
     messageCompletionFooter := messageCompletionFooter E;
     getTrends := getTrends E;
     fetchSearchTweets := fetchSearchTweets E;
     fetchHomeTimeline := fetchHomeTimeline E;
     getTweet := getTweet E;
     sendTweet := sendTweet E;
     generateText := generateText E;
     generateMessageResponse := generateMessageResponse E;
     JSON_parse := JSON_parse E;
     shuffle := shuffle E;
     describeImage := describeImage E;
     composeState := composeState E;
     composeContext := composeContext E;
     stringToUuid := stringToUuid E;
     mintAddress := mintAddress E;
     Date_now := Date_now E |}.

(** The double 0.7, and the double 0.19672131147540983. *)
Definition seven_tenths : JS.double := JS.mkDouble 6305039478318694 (-53).
Definition twelve_sixtyfirsts : JS.double := JS.mkDouble 7087632200451928 (-55).

(** Every draw is 0.19672131147540983. *)
Definition same_draw (k : nat) : JS.double := twelve_sixtyfirsts.

(** Ten topics, and a first draw of 0.7. *)
Definition env_ten_topics : Env :=
  drawing seven_tenths ["t0"; "t1"; "t2"; "t3"; "t4"; "t5"; "t6"; "t7"; "t8"; "t9"]
    Scenario.env_12345.

(** A tweet in whose thread the agent has replied; the model answers its
    id. *)
Definition frank : Tweet :=
  Scenario.tweet "4242" "frank" [Scenario.tweet "4243" "ruby" []].
Definition env_4242 : Env :=
  Scenario.env Scenario.never ["crypto"] [] "4242" JS.JNull [frank].

(** A tweet with two photos; the model answers its id. *)
Definition ivan : Tweet :=
  mkTweet "888" "ivan" "ivan" (Some "post 888") None []
    [mkPhoto "https://example.org/1.png"; mkPhoto "https://example.org/2.png"] [] false
    "conversation-888" "user-ivan" "https://twitter.com/ivan/status/888" 0.
Definition env_888 : Env :=
  Scenario.env Scenario.never ["crypto"] [] "888" JS.JNull [ivan].

(** The promise of the first pass rejects ten seconds after its start; the
    later passes leave nothing unhandled. *)
Definition first_pass_rejects (k : nat) : option Z :=
  match k with
  | O => Some 10000%Z
  | _ => None
  end.

(** Two candidates with ids of three characters. *)
Definition grace : Tweet := Scenario.tweet "778" "grace" [].


End Cases.

(** * Properties *)

(** ** The model on concrete inputs *)

Module Examples.

Example trim_answer : JS.trim ("  12345 " ++ JS.nl) = "12345".
Proof. reflexivity. Qed.

Example trim_blank : JS.trim ("  " ++ JS.nl) = "".
Proof. reflexivity. Qed.

Example includes_id : JS.includes "12345 is the best" "12345" = true.
Proof. reflexivity. Qed.

Example includes_longer : JS.includes "12345" "12345 is the best" = false.
Proof. reflexivity. Qed.

Example toUpperCase_mixed : JS.toUpperCase "xYz" = "XYZ".
Proof. reflexivity. Qed.

Example test_letters_cases :
  JS.test_letters "abc" = true /\ JS.test_letters "ab1" = false /\ JS.test_letters "" = false.
Proof. split_and!; reflexivity. Qed.

Example floor_random_top :
  JS.floor_random_times (JS.mkDouble (JS.two53 - 1) (-53)) 61 = 60%Z.
Proof. reflexivity. Qed.

(** The product is the rounded one: at 0.7, ten times the draw is 7 (the
    exact product is below 7), and at 0.19672131147540983, sixty-one times
    the draw is 12. *)
Example floor_random_rounds_up :
  JS.floor_random_times Cases.seven_tenths 10 = 7%Z /\
  (JS.mantissa Cases.seven_tenths * 10 / JS.two53 = 6)%Z /\
  JS.floor_random_times Cases.twelve_sixtyfirsts 61 = 12%Z /\
  EventLoop.randomMinutes (fun _ => Cases.twelve_sixtyfirsts) 0 = 72%Z.
Proof. vm_compute. split_and!; reflexivity. Qed.

(** The products of these examples are those of the binary64
    multiplication of the library. *)
Example times_is_binary64_multiplication :
  JS.as_binary64 (JS.times Cases.seven_tenths 10) =
    SpecFloat.SFmul 53 1024 (JS.as_binary64 Cases.seven_tenths)
      (JS.as_binary64 (JS.mkDouble 10 0)) /\
  JS.as_binary64 (JS.times Cases.twelve_sixtyfirsts 61) =
    SpecFloat.SFmul 53 1024 (JS.as_binary64 Cases.twelve_sixtyfirsts)
      (JS.as_binary64 (JS.mkDouble 61 0)) /\
  JS.as_binary64 (JS.times (JS.mkDouble (JS.two53 - 1) (-53)) 61) =
    SpecFloat.SFmul 53 1024 (JS.as_binary64 (JS.mkDouble (JS.two53 - 1) (-53)))
      (JS.as_binary64 (JS.mkDouble 61 0)).
Proof. vm_compute. split_and!; reflexivity. Qed.

Example validate_xyz : validateTokenInfo (Scenario.concept "xyz") = inr true.
Proof. vm_compute. reflexivity. Qed.

Example validate_TOOLONG : validateTokenInfo (Scenario.concept "TOOLONG") = inr false.
Proof. vm_compute. reflexivity. Qed.

Example validate_short : validateTokenInfo (Scenario.concept "ab") = inr false.
Proof. vm_compute. reflexivity. Qed.

Example validate_digit : validateTokenInfo (Scenario.concept "ab1") = inr false.
Proof. vm_compute. reflexivity. Qed.

Example validate_array : validateTokenInfo (JS.JArr []) = inr false.
Proof. reflexivity. Qed.

Example guard_ignores_symbol : isTrendingTokenContent Scenario.content_TOOLONG1 = inr true.
Proof. vm_compute. reflexivity. Qed.

(** The generator on the trends AI, AI, Web3 with the log [AI]. *)
Example generator_on_Web3 :
  field
    (default JS.JNull
       (match fst (getTopTrendAndGenerateToken Scenario.env_xyz Scenario.world_AI) with
        | Ok x => x
        | Throw _ => None
        end)) "sourceTrend" = "Web3" /\
  UsedTrendsLog (snd (getTopTrendAndGenerateToken Scenario.env_xyz Scenario.world_AI))
    = ["AI"; "Web3"].
Proof. vm_compute. split; reflexivity. Qed.

(** A trend without a name is unused, and is taken for no trend at all:
    [!selectedTrend] holds of the empty string. *)
Example generator_on_empty_name :
  fst (selectTrend Scenario.env_empty_name (getTrends Scenario.env_empty_name) Scenario.world0)
    = Ok (Some "") /\
  fst (getTopTrendAndGenerateToken Scenario.env_empty_name Scenario.world0) = Ok None /\
  logs (snd (getTopTrendAndGenerateToken Scenario.env_empty_name Scenario.world0)) =
    [(LogInfo, "Fetched trends:"); (LogInfo, "No unused trends found")].
Proof. vm_compute. split_and!; reflexivity. Qed.

(** A failing first call: the generator logs the error and returns [null]. *)
Example generator_offline :
  fst (getTopTrendAndGenerateToken Scenario.env_offline Scenario.world_AI) = Ok None /\
  logs (snd (getTopTrendAndGenerateToken Scenario.env_offline Scenario.world_AI)) =
    [(LogError, "Error generating token info: network down")].
Proof. vm_compute. split; reflexivity. Qed.

(** A pass on the answer "12345 is the best". *)
(** A pass whose call of [sendTweet], the twelfth call, fails: the inner
    [catch] writes the error, name and message, to the console. *)
Example pass_send_fails :
  fst (engageWithSearchTerms
         (Scenario.env (Cases.fault_at 11 Scenario.network_error) ["crypto"] []
            "12345 is the best" JS.JNull [Scenario.bob; Scenario.alice])
         Scenario.world0) = Ok (SendFailed Scenario.alice) /\
  last (logs (snd (engageWithSearchTerms
         (Scenario.env (Cases.fault_at 11 Scenario.network_error) ["crypto"] []
            "12345 is the best" JS.JNull [Scenario.bob; Scenario.alice])
         Scenario.world0))) =
    Some (ConsoleError, "Error sending response post: Error: network down").
Proof. vm_compute. split; reflexivity. Qed.

(** Reading a property of [null]: the error of the engine. *)
Example get_prop_null :
  JS.get_prop JS.JNull "trend" =
    inl (JS.newError "TypeError" "Cannot read properties of null (reading 'trend')").
Proof. reflexivity. Qed.

(** The handler with an [async] callback that fails when it is told of the
    success: the handler returns [true], and the rejection, which nobody
    awaits, ends a process without a listener. *)
Example handler_callback_rejects :
  fst (handler Scenario.env_action ∅ (Some Cases.success_rejecting) Scenario.world0) = Ok true /\
  unhandled (snd (handler Scenario.env_action ∅ (Some Cases.success_rejecting) Scenario.world0))
    = [Scenario.callback_error] /\
  in_node false (handler Scenario.env_action ∅ (Some Cases.success_rejecting)) Scenario.world0
    = ProcessExits 1 Scenario.callback_error.
Proof. vm_compute. split_and!; reflexivity. Qed.

Example pass_on_12345 :
  fst (engageWithSearchTerms Scenario.env_12345 Scenario.world0) = Ok (Responded Scenario.alice) /\
  respondedTweets (snd (engageWithSearchTerms Scenario.env_12345 Scenario.world0)) = {["12345"]}.
Proof. vm_compute. split; reflexivity. Qed.

End Examples.

(** ** Strings and arrays *)


Module JSFacts.

Lemma array_includes_elem_of (l : list string) (x : string) :
  JS.array_includes l x = true <-> x ∈ l.
Proof.
  unfold JS.array_includes. rewrite existsb_exists. split.
  - intros (y & Hy & Heq). apply String.eqb_eq in Heq. subst y.
    by apply list_elem_of_In.
  - intros Hx. exists x. split; [by apply list_elem_of_In | apply String.eqb_refl].
Qed.

Lemma array_includes_false (l : list string) (x : string) :
  JS.array_includes l x = false <-> x ∉ l.
Proof.
  rewrite <- array_includes_elem_of. destruct (JS.array_includes l x); split; congruence.
Qed.

(** [find] returns the first element that satisfies the predicate. *)
Lemma find_Some {A : Type} (p : A -> bool) (l : list A) (x : A) :
  JS.find p l = Some x <->
  exists pre post, l = (pre ++ x :: post)%list /\ p x = true /\ forall y, y ∈ pre -> p y = false.
Proof.
  induction l as [|a l IH]; simpl.
  - split; [discriminate |]. intros (pre & post & Heq & _). by destruct pre.
  - destruct (p a) eqn:Hpa.
    + split.
      * intros [= ->]. exists [], l. split_and!; [done | done |]. intros y Hy. inversion Hy.
      * intros (pre & post & Heq & Hx & Hpre). destruct pre as [|b pre]; simpl in Heq.
        -- by inversion Heq.
        -- inversion Heq; subst. rewrite Hpre in Hpa; [discriminate | left].
    + rewrite IH. split.
      * intros (pre & post & -> & Hx & Hpre). exists (a :: pre), post.
        split_and!; [done | done |]. intros y Hy. inversion Hy; subst; auto.
      * intros (pre & post & Heq & Hx & Hpre). destruct pre as [|b pre]; simpl in Heq.
        -- inversion Heq; subst. congruence.
        -- inversion Heq; subst. exists pre, post. split_and!; [done | done |].
           intros y Hy. apply Hpre. by right.
Qed.

Lemma find_None {A : Type} (p : A -> bool) (l : list A) :
  JS.find p l = None <-> forall y, y ∈ l -> p y = false.
Proof.
  induction l as [|a l IH]; simpl.
  - split; [|done]. intros _ y Hy. inversion Hy.
  - destruct (p a) eqn:Hpa.
    + split; [discriminate |]. intros H. rewrite H in Hpa; [discriminate | left].
    + rewrite IH. split.
      * intros H y Hy. inversion Hy; subst; auto.
      * intros H y Hy. apply H. by right.
Qed.

Lemma startsWith_spec (s sub : string) :
  JS.startsWith s sub = true <-> exists after, s = sub ++ after.
Proof.
  revert s. induction sub as [|a sub IH]; intros s; simpl.
  - split; [|done]. intros _. by exists s.
  - destruct s as [|b s].
    + split; [discriminate |]. intros (after & Heq). discriminate.
    + rewrite andb_true_iff, Ascii.eqb_eq, IH. split.
      * intros (-> & after & ->). by exists after.
      * intros (after & Heq). inversion Heq; subst. split; [done | by exists after].
Qed.

Lemma includes_spec (s sub : string) :
  JS.includes s sub = true <-> substring_of sub s.
Proof.
  unfold substring_of. induction s as [|c s IH]; simpl.
  - rewrite orb_false_r, startsWith_spec. split.
    + intros (after & Heq). by exists "", after.
    + intros (before & after & Heq). destruct before; simpl in Heq; [by exists after | discriminate].
  - rewrite orb_true_iff, startsWith_spec, IH. split.
    + intros [(after & Heq) | (before & after & ->)].
      * by exists "", after.
      * by exists (String c before), after.
    + intros (before & after & Heq). destruct before as [|b before]; simpl in Heq.
      * left. by exists after.
      * inversion Heq; subst. right. by exists before, after.
Qed.

(** Every string contains the empty string. *)
Lemma includes_empty (s : string) : JS.includes s "" = true.
Proof. destruct s; reflexivity. Qed.

Lemma upper_char_is_upper (c : ascii) :
  JS.is_alpha c = true -> JS.is_upper (JS.upper_char c) = true.
Proof.
  unfold JS.is_alpha, JS.upper_char. destruct (JS.is_lower c) eqn:Hl.
  - intros _. unfold JS.is_lower, JS.is_upper, JS.code in *.
    apply andb_true_iff in Hl as [H1 H2].
    apply N.leb_le in H1, H2.
    assert (Hlt : (N_of_ascii c - 32 < 256)%N) by lia.
    rewrite N_ascii_embedding by exact Hlt.
    apply andb_true_iff. split; apply N.leb_le; lia.
  - rewrite orb_false_r. done.
Qed.

Lemma toUpperCase_every_upper (s : string) :
  JS.every JS.is_alpha s = true -> JS.every JS.is_upper (JS.toUpperCase s) = true.
Proof.
  induction s as [|c s IH]; simpl; [done |].
  rewrite !andb_true_iff. intros [Hc Hs]. split; [by apply upper_char_is_upper | by apply IH].
Qed.

Lemma toUpperCase_length (s : string) :
  String.length (JS.toUpperCase s) = String.length s.
Proof. induction s as [|c s IH]; simpl; [done | by rewrite IH]. Qed.

Lemma test_letters_every (s : string) :
  JS.test_letters s = true -> JS.every JS.is_alpha s = true.
Proof. destruct s; [discriminate | done]. Qed.

(** [Math.floor(x * 0)] is 0, whatever [x]. *)
Lemma floor_random_times_0 (x : JS.double) : JS.floor_random_times x 0 = 0%Z.
Proof.
  unfold JS.floor_random_times, JS.times. rewrite Z.mul_0_r.
  unfold JS.round. simpl. unfold JS.floor. simpl.
  destruct (0 <=? JS.exponent x)%Z; reflexivity.
Qed.

(** [Math.floor(x * n)] is an index of an array of length [n]: the rounding
    of the product never reaches [n]. *)
Lemma floor_random_times_range (x : JS.double) (n : Z) :
  JS.unit_interval x -> (1 <= n < JS.two53)%Z ->
  (0 <= JS.floor_random_times x n < n)%Z.
Proof.
  destruct x as [m e]. unfold JS.unit_interval. simpl. intros [Hm He] Hn.
  unfold JS.floor_random_times, JS.times. simpl.
  assert (H53 : (JS.two53 = 2 ^ 53)%Z) by reflexivity.
  assert (H53pos : (0 < JS.two53)%Z) by (by vm_compute).
  generalize dependent JS.two53. intros T Hm Hn H53 HT.
  assert (HN0 : (0 <= m * n)%Z) by (apply Z.mul_nonneg_nonneg; lia).
  assert (HN : (m * n + n <= T * n)%Z).
  { replace (m * n + n)%Z with ((m + 1) * n)%Z by ring.
    apply Z.mul_le_mono_nonneg_r; lia. }
  (* the scale of the draw *)
  assert (Hbelow : (m * n + n <= 2 ^ (- e) * n)%Z).
  { assert (HK : (2 ^ (- e) = T * 2 ^ (- e - 53))%Z).
    { rewrite H53, <- Z.pow_add_r by lia. f_equal. lia. }
    assert (0 < 2 ^ (- e - 53))%Z by (apply Z.pow_pos_nonneg; lia).
    assert (T * n <= 2 ^ (- e) * n)%Z; [| lia].
    apply Z.mul_le_mono_nonneg_r; [lia |]. rewrite HK.
    rewrite <- (Z.mul_1_r T) at 1. apply Z.mul_le_mono_nonneg_l; lia. }
  assert (HC : (0 < 2 ^ (- e))%Z) by (apply Z.pow_pos_nonneg; lia).
  generalize dependent (m * n)%Z. intros N HN0 HN Hbelow.
  unfold JS.round.
  destruct (Z.leb_spec (Z.log2 N + 1 - 53) 0) as [Hs | Hs].
  - (* the product is exact *)
    unfold JS.floor. simpl.
    destruct (Z.leb_spec 0 e) as [? | _]; [lia |].
    split; [apply Z.div_pos; lia |].
    apply Z.div_lt_upper_bound; lia.
  - (* the product is rounded *)
    assert (HNpos : (0 < N)%Z).
    { destruct (Z.eq_dec N 0%Z) as [H0 | ?]; [| lia].
      exfalso. rewrite H0 in Hs. simpl in Hs. lia. }
    destruct (Z.log2_spec N HNpos) as [Hlo _].
    generalize dependent (Z.log2 N). intros l Hs Hlo.
    replace l with ((l + 1 - 53 - 1) + 53)%Z in Hlo by lia.
    rewrite Z.pow_add_r, <- H53 in Hlo by lia.
    generalize dependent (l + 1 - 53)%Z. clear l. intros s Hs Hlo.
    assert (HP : (0 < 2 ^ (s - 1))%Z) by (apply Z.pow_pos_nonneg; lia).
    assert (H2s : (2 ^ s = 2 * 2 ^ (s - 1))%Z).
    { replace s with (1 + (s - 1))%Z at 1 by lia.
      rewrite Z.pow_add_r by lia. reflexivity. }
    generalize dependent (2 ^ (s - 1))%Z. intros P Hlo HP H2s.
    (* half a unit of the rounded mantissa is less than [n] *)
    assert (HPn : (P < n)%Z).
    { apply (Z.mul_lt_mono_pos_r T); lia. }
    rewrite H2s.
    assert (Hdiv : (N = 2 * P * (N / (2 * P)) + N mod (2 * P))%Z) by (apply Z.div_mod; lia).
    assert (Hr : (0 <= N mod (2 * P) < 2 * P)%Z) by (apply Z.mod_pos_bound; lia).
    assert (Hq : (0 <= N / (2 * P))%Z) by (apply Z.div_pos; lia).
    generalize dependent (N mod (2 * P))%Z. intros r Hdiv Hr.
    generalize dependent (N / (2 * P))%Z. intros q Hdiv Hq.
    set (q' := if (P <? r)%Z || ((r =? P)%Z && Z.odd q) then (q + 1)%Z else q).
    assert (Hq' : (0 <= q' /\ 2 * P * q' < 2 ^ (- e) * n)%Z).
    { unfold q'. destruct ((P <? r)%Z || ((r =? P)%Z && Z.odd q)) eqn:Hup.
      - assert (P <= r)%Z.
        { apply orb_true_iff in Hup as [Hup | Hup]; [apply Z.ltb_lt in Hup; lia |].
          apply andb_true_iff in Hup as [Hup _]. apply Z.eqb_eq in Hup. lia. }
        split; lia.
      - split; lia. }
    clearbody q'. destruct Hq' as [Hq0 Hq1].
    unfold JS.floor. simpl.
    destruct (Z.leb_spec 0 (e + s)) as [Hes | Hes].
    + assert (Hpow : (2 * P = 2 ^ (e + s) * 2 ^ (- e))%Z).
      { rewrite <- H2s, <- Z.pow_add_r by lia. f_equal. lia. }
      assert (HA : (0 < 2 ^ (e + s))%Z) by (apply Z.pow_pos_nonneg; lia).
      rewrite Hpow in Hq1.
      split; [apply Z.mul_nonneg_nonneg; lia |].
      apply (Z.mul_lt_mono_pos_r (2 ^ (- e))); lia.
    + assert (Hpow : (2 ^ (- e) = 2 ^ (- (e + s)) * (2 * P))%Z).
      { rewrite <- H2s, <- Z.pow_add_r by lia. f_equal. lia. }
      assert (HD : (0 < 2 ^ (- (e + s)))%Z) by (apply Z.pow_pos_nonneg; lia).
      rewrite Hpow in Hq1.
      split; [apply Z.div_pos; lia |].
      apply Z.div_lt_upper_bound; [lia |].
      apply (Z.mul_lt_mono_pos_l (2 * P)); lia.
Qed.

End JSFacts.

(** ** Token generation *)

Section GeneratorFacts.

Variable E : Env.

Lemma ext_run {A : Type} (c : Call) (answer : World -> A * World) (w : World) :
  ext E c answer w =
    (match fault E (length (trace w)) with
     | Some e => (Throw e, set_trace (fun t => (t ++ [c])%list) w)
     | None =>
         (Ok (fst (answer (set_trace (fun t => (t ++ [c])%list) w))),
          snd (answer (set_trace (fun t => (t ++ [c])%list) w)))
     end).
Proof. unfold ext. destruct (fault E _); [done |]. by destruct (answer _). Qed.

Lemma isTopicUsed_run (trend : string) (w : World) :
  isTopicUsed E trend w =
    (match fault E (length (trace w)) with
     | Some e => Throw e
     | None => Ok (JS.array_includes (UsedTrendsLog w) trend)
     end,
     set_trace (fun t => (t ++ [CacheGet "twitter/used_trends"])%list) w).
Proof.
  unfold isTopicUsed, cache_get_strings, bind. rewrite ext_run.
  destruct (fault E _); reflexivity.
Qed.

(** The loop reads the cache and nothing else; when it ends without an
    error, its result is the first unused trend, if there is one. *)
Lemma selectTrend_inv (trends : list TwitterTrend) (w : World) r w' :
  selectTrend E trends w = (r, w') ->
  cache_strings w' = cache_strings w /\
  forall x, r = Ok x ->
    match x with
    | Some t => first_absent (UsedTrendsLog w) trends t
    | None => forall tr, tr ∈ trends -> trend_name tr ∈ UsedTrendsLog w
    end.
Proof.
  revert w. induction trends as [|tr trends IH]; intros w; simpl.
  - intros [= <- <-]. split; [done |]. intros x [= <-] tr Htr. inversion Htr.
  - unfold bind. rewrite isTopicUsed_run.
    destruct (fault E _) as [e|].
    + intros [= <- <-]. split; [done | discriminate].
    + destruct (JS.array_includes (UsedTrendsLog w) (trend_name tr)) eqn:Hused; simpl.
      * intros Hrun. apply IH in Hrun as [Hc Hres]. split; [done |].
        apply JSFacts.array_includes_elem_of in Hused.
        intros x Hx. specialize (Hres x Hx). destruct x as [t|].
        -- destruct Hres as (pre & tr' & post & -> & Hn & Hnot & Hpre).
           exists (tr :: pre), tr', post. split_and!; [done | done | done |].
           intros y Hy. inversion Hy; subst; [done | by apply Hpre].
        -- intros y Hy. inversion Hy; subst; [done | by apply Hres].
      * intros [= <- <-]. split; [done |]. intros x [= <-].
        apply JSFacts.array_includes_false in Hused.
        exists [], tr, trends. split_and!; [done | done | done |].
        intros y Hy. inversion Hy.
Qed.

(** Without failing calls the loop ends, and finds an unused trend when
    there is one. *)
Lemma selectTrend_total (trends : list TwitterTrend) (w : World) :
  no_fault E -> exists x w', selectTrend E trends w = (Ok x, w').
Proof.
  intros Hnf. revert w. induction trends as [|tr trends IH]; intros w; simpl.
  - by eexists _, _.
  - unfold bind. rewrite isTopicUsed_run, Hnf.
    destruct (JS.array_includes _ _); simpl; [apply IH | by eexists _, _].
Qed.

Lemma selectTrend_finds (trends : list TwitterTrend) (w : World) :
  no_fault E ->
  (exists tr, tr ∈ trends /\ trend_name tr ∉ UsedTrendsLog w) ->
  exists t w', selectTrend E trends w = (Ok (Some t), w') /\
               first_absent (UsedTrendsLog w) trends t.
Proof.
  intros Hnf (tr & Htr & Hnot).
  destruct (selectTrend_total trends w Hnf) as (x & w' & Hrun).
  destruct (selectTrend_inv _ _ _ _ Hrun) as [_ Hres]. specialize (Hres x eq_refl).
  destruct x as [t|]; [by exists t, w' |].
  exfalso. apply Hnot. by apply Hres.
Qed.

Lemma call_run {A : Type} (c : Call) (a : A) (w : World) :
  call E c a w =
    (match fault E (length (trace w)) with Some e => Throw e | None => Ok a end,
     set_trace (fun t => (t ++ [c])%list) w).
Proof. unfold call. rewrite ext_run. by destruct (fault E _). Qed.

Lemma validateTokenInfo_ticker (v : JS.value) :
  validateTokenInfo v = inr true ->
  exists ticker, JS.get_prop v "ticker" = inr (Some (JS.JStr ticker)).
Proof.
  unfold validateTokenInfo, and_then.
  destruct (JS.get_prop v "name") as [|n]; [discriminate |].
  destruct (JS.get_prop v "ticker") as [|t]; [discriminate |].
  destruct (JS.get_prop v "description"); [discriminate |].
  destruct (JS.get_prop v "imagePrompt"); [discriminate |].
  destruct n as [[]|]; try discriminate.
  destruct t as [[]|]; try discriminate. intros _. by eexists.
Qed.

(** The inner [try] never throws and leaves the cache alone; it yields a
    concept only when the concept is accepted. *)
Lemma parseTokenInfo_inv (response selectedTrend : string) (w : World) r w' :
  parseTokenInfo E response selectedTrend w = (r, w') ->
  cache_strings w' = cache_strings w /\
  exists x, r = Ok x /\
    match x with
    | Some tokenInfo => accepted E response selectedTrend tokenInfo
    | None =>
        forall v v1, JSON_parse E response = inr v ->
          JS.set_prop v "sourceTrend" (JS.JStr selectedTrend) = inr v1 ->
          validateTokenInfo v1 <> inr true
    end.
Proof.
  unfold parseTokenInfo, try_catch, bind, lift, log, ret, throw.
  destruct (JSON_parse E response) as [e|v] eqn:Hparse.
  { intros [= <- <-]. split; [done |]. exists None. split; [done |]. congruence. }
  destruct (JS.set_prop v "sourceTrend" _) as [e|v1] eqn:Hset.
  { intros [= <- <-]. split; [done |]. exists None. split; [done |]. congruence. }
  destruct (validateTokenInfo v1) as [e|valid] eqn:Hvalid.
  { intros [= <- <-]. split; [done |]. exists None. split; [done |].
    intros v0 v2 ? ?. simplify_eq. congruence. }
  destruct valid; simpl.
  2:{ intros [= <- <-]. split; [done |]. exists None. split; [done |].
      intros v0 v2 ? ?. simplify_eq. congruence. }
  destruct (validateTokenInfo_ticker _ Hvalid) as (ticker & Hticker).
  rewrite Hticker. simpl.
  destruct (JS.set_prop v1 "ticker" _) as [e|tok] eqn:Hset2.
  { exfalso. destruct v1; simpl in *; try discriminate. }
  intros [= <- <-]. split; [done |]. exists (Some tok). split; [done |].
  by exists v, v1, ticker.
Qed.

Lemma cacheUsedTrend_inv (trend : string) (w : World) r w' :
  cacheUsedTrend E trend w = (r, w') ->
  (r = Ok tt /\ UsedTrendsLog w' = (UsedTrendsLog w ++ [trend])%list) \/
  ((exists e, r = Throw e) /\ cache_strings w' = cache_strings w).
Proof.
  unfold cacheUsedTrend, cache_get_strings, cache_set_strings, bind.
  rewrite ext_run. destruct (fault E _) as [e|].
  { intros [= <- <-]. right. split; [by eexists | done]. }
  simpl. rewrite ext_run. destruct (fault E _) as [e|].
  { intros [= <- <-]. right. split; [by eexists | done]. }
  simpl. intros [= <- <-]. left. split; [done |].
  unfold UsedTrendsLog, used_trends_key. simpl. by rewrite lookup_insert_eq.
Qed.

(** Every way [getTopTrendAndGenerateToken] can end. *)
Lemma getTopTrendAndGenerateToken_inv (w : World) r w' :
  getTopTrendAndGenerateToken E w = (r, w') ->
  exists x, r = Ok x /\
    match x with
    | None => cache_strings w' = cache_strings w
    | Some tokenInfo =>
        exists t,
          first_absent (UsedTrendsLog w) (getTrends E) t /\
          t <> "" /\
          accepted E (generateText E (tokenPrompt t) LARGE) t tokenInfo /\
          UsedTrendsLog w' = (UsedTrendsLog w ++ [t])%list
    end.
Proof.
  unfold getTopTrendAndGenerateToken, try_catch, getTopTrendAndGenerateToken_body.
  unfold bind at 1. rewrite call_run.
  destruct (fault E _) as [e|].
  { intros [= <- <-]. by exists None. }
  unfold bind at 1. unfold log at 1.
  unfold bind at 1.
  destruct (selectTrend E (getTrends E) _) as [rs ws] eqn:Hsel.
  apply selectTrend_inv in Hsel as [Hc1 Hsel].
  destruct rs as [sel|e].
  2:{ intros [= <- <-]. by exists None. }
  specialize (Hsel sel eq_refl).
  destruct sel as [[|c t]|]; simpl.
  1,3: intros [= <- <-]; by exists None.
  unfold bind at 1. rewrite call_run.
  destruct (fault E _) as [e|].
  { intros [= <- <-]. by exists None. }
  unfold bind at 1.
  destruct (parseTokenInfo E _ _ _) as [rp wp] eqn:Hparse.
  apply parseTokenInfo_inv in Hparse as [Hc2 (x & -> & Hx)].
  destruct x as [tok|].
  2:{ intros [= <- <-]. exists None. split; [done |]. simpl in *. congruence. }
  unfold bind at 1.
  destruct (cacheUsedTrend E _ wp) as [rc wc] eqn:Hcache.
  apply cacheUsedTrend_inv in Hcache as [[-> Hlog] | [(e & ->) Hc3]].
  - intros [= <- <-]. exists (Some tok). split; [done |].
    exists (String c t). split_and!; [done | done | done |].
    rewrite Hlog. unfold UsedTrendsLog. simpl in *. by rewrite Hc2, Hc1.
  - intros [= <- <-]. exists None. split; [done |]. simpl in *. congruence.
Qed.

End GeneratorFacts.

(** ** The action handler *)

Section HandlerFacts.

Variable E : Env.

Lemma invoke_inv (callback : option HandlerCallback) (response : CallbackResponse) (w : World) r w' :
  invoke callback response w = (r, w') ->
  cache_strings w' = cache_strings w /\
  (exists suffix, trace w' = (trace w ++ suffix)%list) /\
  (quiet callback -> r = Ok tt).
Proof.
  unfold invoke. destruct callback as [cb|].
  - unfold bind, tick, throw, ret, abandon. destruct (cb response) as [|e|e] eqn:Hcb.
    + intros [= <- <-]. split_and!; [done | by eexists | done].
    + intros [= <- <-]. split_and!; [done | by eexists |].
      intros H. specialize (H cb response eq_refl). congruence.
    + intros [= <- <-]. split_and!; [done | by eexists | done].
  - intros [= <- <-]. split_and!; [done | by exists []; rewrite app_nil_r | done].
Qed.

Ltac trace_suffix :=
  eexists; rewrite <- ?app_assoc; simpl; reflexivity.

Ltac call_step e :=
  unfold bind at 1; rewrite ?call_run, ?ext_run;
  destruct (fault E _) as [e|]; simpl.

(** Every way the [try] block of the handler can end: either the log is as
    it was and the block threw, or the token was launched. *)
Lemma handler_body_inv (state : State) (callback : option HandlerCallback) (w : World) r w' :
  handler_body E state callback w = (r, w') ->
  ((exists e, r = Throw e) /\ cache_strings w' = cache_strings w) \/
  (exists t tokenInfo, launched E state w w' t tokenInfo /\ (r = Ok true \/ exists e, r = Throw e)).
Proof.
  unfold handler_body.
  call_step e. { intros [= <- <-]. left. split; [by eexists | done]. }
  call_step e. { intros [= <- <-]. left. split; [by eexists | done]. }
  destruct (getTrends E) as [|tr rest] eqn:Htrends; simpl.
  { intros [= <- <-]. left. split; [by eexists | done]. }
  destruct (trend_name tr) as [|c t] eqn:Hname; simpl.
  { intros [= <- <-]. left. split; [by eexists | done]. }
  unfold cache_get_strings. call_step e.
  { intros [= <- <-]. left. split; [by eexists | done]. }
  match goal with |- context [JS.array_includes ?l ?x] =>
    destruct (JS.array_includes l x) eqn:Hused end.
  { intros [= <- <-]. left. split; [by eexists | done]. }
  apply JSFacts.array_includes_false in Hused.
  call_step e. { intros [= <- <-]. left. split; [by eexists | done]. }
  unfold bind at 1, lift.
  destruct (JSON_parse E _) as [e|tokenInfo] eqn:Hparse; simpl.
  { intros [= <- <-]. left. split; [by eexists | done]. }
  unfold bind at 1.
  destruct (isTrendingTokenContent tokenInfo) as [e|[]] eqn:Hguard; simpl.
  1,3: intros [= <- <-]; left; (split; [by eexists | done]).
  call_step e. { intros [= <- <-]. left. split; [by eexists | done]. }
  call_step e. { intros [= <- <-]. left. split; [by eexists | done]. }
  call_step e. { intros [= <- <-]. left. split; [by eexists | done]. }
  call_step e. { intros [= <- <-]. left. split; [by eexists | done]. }
  call_step e. { intros [= <- <-]. left. split; [by eexists | done]. }
  unfold cache_set_strings. call_step e.
  { intros [= <- <-]. left. split; [by eexists | done]. }
  assert (Hlaunched : forall w2,
    cache_strings w2 = <["twitter/used_trends" := (default [] (cache_strings w !! "twitter/used_trends") ++ [String c t])%list]> (cache_strings w) ->
    (exists suffix, trace w2 =
       ((((((((((trace w ++ [GetService "TWITTER_CLIENT"]) ++ [GetTrends]) ++ [CacheGet "twitter/used_trends"]) ++
        [GenerateText (composeContext E (<["trend" := String c t]> state) trendingTokenTemplate) LARGE]) ++
        [GetSetting "SOLANA_PRIVATE_KEY"]) ++ [GetSetting "SOLANA_RPC_URL"]) ++ [GetSetting "OPENAI_API_KEY"]) ++
        [NewSolanaAgentKit]) ++
        [DeployToken (field tokenInfo "name") (field tokenInfo "uri") (field tokenInfo "symbol")
                     (number_field tokenInfo "decimals")]) ++ suffix)%list) ->
    launched E state w w2 (String c t) tokenInfo).
  { intros w2 Hc (suffix & Htr). unfold launched. split_and!; try done.
    - by exists tr, rest.
    - rewrite Htr. set_solver.
    - unfold UsedTrendsLog, used_trends_key. by rewrite Hc, lookup_insert_eq. }
  unfold cache_get_objects. call_step e.
  { intros [= <- <-]. right. exists (String c t), tokenInfo. split; [|right; by eexists].
    apply Hlaunched; [done |]. simpl. trace_suffix. }
  unfold cache_set_objects. call_step e.
  { intros [= <- <-]. right. exists (String c t), tokenInfo. split; [|right; by eexists].
    apply Hlaunched; [done |]. simpl. trace_suffix. }
  unfold bind at 1.
  destruct (invoke callback _ _) as [ri wi] eqn:Hinv.
  apply invoke_inv in Hinv as (Hci & (suf & Hti) & _). simpl in Hci, Hti.
  destruct ri as [[]|e]; intros [= <- <-]; right; exists (String c t), tokenInfo.
  - split; [|by left]. apply Hlaunched; [done |]. rewrite Hti. simpl.
    trace_suffix.
  - split; [|right; by eexists]. apply Hlaunched; [done |]. rewrite Hti.
    trace_suffix.
Qed.

End HandlerFacts.

(** ** Traces *)

Lemma extends_ret {A : Type} (a : A) : extends (ret a).
Proof. intros w r w' [= <- <-]. exists []. by rewrite app_nil_r. Qed.

Lemma extends_throw {A : Type} (e : JS.Error) : extends (@throw A e).
Proof. intros w r w' [= <- <-]. exists []. by rewrite app_nil_r. Qed.

Lemma extends_log (level : LogLevel) (msg : string) : extends (log level msg).
Proof. intros w r w' [= <- <-]. exists []. by rewrite app_nil_r. Qed.

Lemma extends_lift {A : Type} (r : JS.Error + A) : extends (lift r).
Proof. destruct r; [apply extends_throw | apply extends_ret]. Qed.

Lemma extends_bind {A B : Type} (m : M A) (k : A -> M B) :
  extends m -> (forall a, extends (k a)) -> extends (bind m k).
Proof.
  intros Hm Hk w r w'. unfold bind. destruct (m w) as [[a|e] w1] eqn:Hrun.
  - intros Hrun2. destruct (Hm _ _ _ Hrun) as (s1 & H1).
    destruct (Hk a _ _ _ Hrun2) as (s2 & H2). exists (s1 ++ s2)%list.
    by rewrite H2, H1, app_assoc.
  - intros [= <- <-]. eauto.
Qed.

Lemma extends_try_catch {A : Type} (m : M A) (h : JS.Error -> M A) :
  extends m -> (forall e, extends (h e)) -> extends (try_catch m h).
Proof.
  intros Hm Hh w r w'. unfold try_catch. destruct (m w) as [[a|e] w1] eqn:Hrun.
  - intros [= <- <-]. eauto.
  - intros Hrun2. destruct (Hm _ _ _ Hrun) as (s1 & H1).
    destruct (Hh e _ _ _ Hrun2) as (s2 & H2). exists (s1 ++ s2)%list.
    by rewrite H2, H1, app_assoc.
Qed.

Lemma extends_ext (E : Env) {A : Type} (c : Call) (answer : World -> A * World) :
  (forall w, trace (snd (answer w)) = trace w) -> extends (ext E c answer).
Proof.
  intros Hanswer w r w'. rewrite ext_run. destruct (fault E _).
  - intros [= <- <-]. by exists [c].
  - intros [= <- <-]. exists [c]. by rewrite Hanswer.
Qed.

Lemma extends_call (E : Env) {A : Type} (c : Call) (a : A) : extends (call E c a).
Proof. by apply extends_ext. Qed.

Lemma extends_call_detached (E : Env) (c : Call) : extends (call_detached E c).
Proof.
  intros w r w'. unfold call_detached. destruct (fault E _); intros [= <- <-]; by exists [c].
Qed.

Lemma extends_tick (c : Call) : extends (tick c).
Proof. intros w r w' [= <- <-]. by exists [c]. Qed.

Lemma extends_Math_random (E : Env) : extends (Math_random E).
Proof. intros w r w' [= <- <-]. exists []. by rewrite app_nil_r. Qed.

Lemma extends_respondedTweets_add (tweetId : string) : extends (respondedTweets_add tweetId).
Proof. intros w r w' [= <- <-]. exists []. by rewrite app_nil_r. Qed.

Lemma extends_for_of {A : Type} (l : list A) (body : A -> M unit) :
  (forall x, extends (body x)) -> extends (for_of l body).
Proof.
  intros Hbody. induction l as [|x l IH]; simpl.
  - apply extends_ret.
  - apply extends_bind; [apply Hbody | intros _; apply IH].
Qed.

Lemma extends_map_M {A B : Type} (f : A -> M B) (l : list A) :
  (forall x, extends (f x)) -> extends (map_M f l).
Proof.
  intros Hf. induction l as [|x l IH]; simpl.
  - apply extends_ret.
  - apply extends_bind; [apply Hf | intros y].
    apply extends_bind; [apply IH | intros ys; apply extends_ret].
Qed.

Ltac extends_step :=
  first
    [ apply extends_ret | apply extends_throw | apply extends_log | apply extends_lift
    | apply extends_call
    | apply extends_call_detached | apply extends_tick | apply extends_Math_random
    | apply extends_respondedTweets_add
    | apply extends_ext; reflexivity
    | apply extends_for_of; intros ?
    | apply extends_map_M; intros ?
    | apply extends_bind; [| intros ?]
    | apply extends_try_catch; [| intros ?]
    | match goal with |- extends (if ?b then _ else _) => destruct b end
    | match goal with |- extends (match ?x with _ => _ end) => destruct x end ].

(** ** Frames *)

Lemma preserves_ret {X A : Type} (f : World -> X) (a : A) : preserves f (ret a).
Proof. by intros w r w' [= <- <-]. Qed.

Lemma preserves_throw {X A : Type} (f : World -> X) (e : JS.Error) : preserves f (@throw A e).
Proof. by intros w r w' [= <- <-]. Qed.

Lemma preserves_lift {X A : Type} (f : World -> X) (r : JS.Error + A) : preserves f (lift r).
Proof. destruct r; [apply preserves_throw | apply preserves_ret]. Qed.

Lemma preserves_bind {X A B : Type} (f : World -> X) (m : M A) (k : A -> M B) :
  preserves f m -> (forall a, preserves f (k a)) -> preserves f (bind m k).
Proof.
  intros Hm Hk w r w'. unfold bind. destruct (m w) as [[a|e] w1] eqn:Hrun.
  - intros Hrun2. rewrite (Hk a _ _ _ Hrun2). by eapply Hm.
  - intros [= <- <-]. by eapply Hm.
Qed.

Lemma preserves_try_catch {X A : Type} (f : World -> X) (m : M A) (h : JS.Error -> M A) :
  preserves f m -> (forall e, preserves f (h e)) -> preserves f (try_catch m h).
Proof.
  intros Hm Hh w r w'. unfold try_catch. destruct (m w) as [[a|e] w1] eqn:Hrun.
  - intros [= <- <-]. by eapply Hm.
  - intros Hrun2. rewrite (Hh e _ _ _ Hrun2). by eapply Hm.
Qed.

Lemma preserves_log {X : Type} (f : World -> X) (level : LogLevel) (msg : string) :
  (forall g w, f (set_logs g w) = f w) -> preserves f (log level msg).
Proof. intros Hf w r w' [= <- <-]. apply Hf. Qed.

Lemma preserves_tick {X : Type} (f : World -> X) (c : Call) :
  (forall g w, f (set_trace g w) = f w) -> preserves f (tick c).
Proof. intros Hf w r w' [= <- <-]. apply Hf. Qed.

Lemma preserves_ext {X A : Type} (f : World -> X) (E : Env) (c : Call)
    (answer : World -> A * World) :
  (forall g w, f (set_trace g w) = f w) ->
  (forall w, f (snd (answer w)) = f w) ->
  preserves f (ext E c answer).
Proof.
  intros Hf Hanswer w r w'. rewrite ext_run. destruct (fault E _).
  - intros [= <- <-]. apply Hf.
  - intros [= <- <-]. by rewrite Hanswer.
Qed.

Lemma preserves_call {X A : Type} (f : World -> X) (E : Env) (c : Call) (a : A) :
  (forall g w, f (set_trace g w) = f w) -> preserves f (call E c a).
Proof. intros Hf. by apply preserves_ext. Qed.

Lemma preserves_call_detached {X : Type} (f : World -> X) (E : Env) (c : Call) :
  (forall g w, f (set_trace g w) = f w) ->
  (forall g w, f (set_unhandled g w) = f w) ->
  preserves f (call_detached E c).
Proof.
  intros Hf Hu w r w'. unfold call_detached. destruct (fault E _); intros [= <- <-].
  - by rewrite Hu.
  - apply Hf.
Qed.

Lemma preserves_Math_random {X : Type} (f : World -> X) (E : Env) :
  (forall g w, f (set_draws g w) = f w) -> preserves f (Math_random E).
Proof. intros Hf w r w' [= <- <-]. apply Hf. Qed.

Lemma preserves_respondedTweets_add {X : Type} (f : World -> X) (tweetId : string) :
  (forall g w, f (set_respondedTweets g w) = f w) -> preserves f (respondedTweets_add tweetId).
Proof. intros Hf w r w' [= <- <-]. apply Hf. Qed.

Lemma preserves_for_of {X A : Type} (f : World -> X) (l : list A) (body : A -> M unit) :
  (forall x, preserves f (body x)) -> preserves f (for_of l body).
Proof.
  intros Hbody. induction l as [|x l IH]; simpl.
  - apply preserves_ret.
  - apply preserves_bind; [apply Hbody | intros _; apply IH].
Qed.

Lemma preserves_map_M {X A B : Type} (f : World -> X) (g : A -> M B) (l : list A) :
  (forall x, preserves f (g x)) -> preserves f (map_M g l).
Proof.
  intros Hg. induction l as [|x l IH]; simpl.
  - apply preserves_ret.
  - apply preserves_bind; [apply Hg | intros y].
    apply preserves_bind; [apply IH | intros ys; apply preserves_ret].
Qed.

Lemma preserves_invoke {X : Type} (f : World -> X) (callback : option HandlerCallback)
    (response : CallbackResponse) :
  (forall g w, f (set_trace g w) = f w) ->
  (forall g w, f (set_unhandled g w) = f w) ->
  preserves f (invoke callback response).
Proof.
  intros Hf Hu. unfold invoke. destruct callback as [cb|]; [|apply preserves_ret].
  apply preserves_bind; [by apply preserves_tick | intros _].
  destruct (cb response); [apply preserves_ret | apply preserves_throw |].
  intros w r w' [= <- <-]. apply Hu.
Qed.


Ltac frame_side := intros; reflexivity.

Ltac frame_step :=
  first
    [ apply preserves_ret | apply preserves_throw | apply preserves_lift
    | apply preserves_log; frame_side
    | apply preserves_tick; frame_side
    | apply preserves_call; frame_side
    | apply preserves_call_detached; frame_side
    | apply preserves_Math_random; frame_side
    | apply preserves_respondedTweets_add; frame_side
    | apply preserves_invoke; frame_side
    | apply preserves_ext; frame_side
    | apply preserves_for_of; intros ?
    | apply preserves_map_M; intros ?
    | apply preserves_bind; [| intros ?]
    | apply preserves_try_catch; [| intros ?]
    | match goal with |- preserves _ (if ?b then _ else _) => destruct b end
    | match goal with |- preserves _ (match ?x with _ => _ end) => destruct x end ].

Ltac frame :=
  unfold cache_get_strings, cache_set_strings, cache_get_objects, cache_set_objects,
         cache_set_text;
  repeat frame_step.

Section Frames.

Variable E : Env.

Lemma selectTrend_preserves {X : Type} (f : World -> X) (trends : list TwitterTrend) :
  (forall g w, f (set_trace g w) = f w) -> preserves f (selectTrend E trends).
Proof.
  intros Hf. induction trends as [|tr trends IH]; simpl; [apply preserves_ret |].
  apply preserves_bind.
  - unfold isTopicUsed, cache_get_strings. apply preserves_bind; [|intros ?; apply preserves_ret].
    by apply preserves_ext.
  - intros []; [exact IH | apply preserves_ret].
Qed.

(** The generator reads and writes the used-trends log and nothing else of
    the cache. *)
Lemma generator_preserves_objects :
  preserves cache_objects (getTopTrendAndGenerateToken E).
Proof.
  unfold getTopTrendAndGenerateToken, getTopTrendAndGenerateToken_body, parseTokenInfo,
    cacheUsedTrend.
  frame.
  all: try (apply selectTrend_preserves; frame_side).
Qed.

End Frames.

(** ** The engagement pass *)

Section PassFacts.

Variable E : Env.

Lemma extends_replyTo (t : Tweet) (tweetId formatted : string) :
  extends (replyTo E t tweetId formatted).
Proof. unfold replyTo, cache_set_text. repeat extends_step. Qed.

Lemma extends_body : extends (engageWithSearchTerms_body E).
Proof.
  unfold engageWithSearchTerms_body.
  repeat first [ apply extends_replyTo | extends_step ].
Qed.

Lemma carries_ret (t : Tweet) (x : PassExit) :
  selected_of x = Some t -> carries t (ret x).
Proof. intros Hx w x' w' [= <- <-]. done. Qed.

Lemma carries_bind {A : Type} (t : Tweet) (m : M A) (k : A -> M PassExit) :
  (forall a, carries t (k a)) -> carries t (bind m k).
Proof.
  intros Hk w x w'. unfold bind. destruct (m w) as [[a|e] w1]; [apply Hk | discriminate].
Qed.

Lemma carries_try_catch (t : Tweet) (m : M PassExit) (h : JS.Error -> M PassExit) :
  carries t m -> (forall e, carries t (h e)) -> carries t (try_catch m h).
Proof.
  intros Hm Hh w x w'. unfold try_catch. destruct (m w) as [[a|e] w1] eqn:Hrun.
  - intros [= <- <-]. by eapply Hm.
  - apply Hh.
Qed.

Lemma carries_replyTo (t : Tweet) (tweetId formatted : string) :
  carries t (replyTo E t tweetId formatted).
Proof.
  unfold replyTo.
  repeat first
    [ apply carries_ret; reflexivity
    | apply carries_bind; intros ?
    | apply carries_try_catch; [| intros ?]
    | match goal with |- carries _ (if ?b then _ else _) => destruct b end
    | match goal with |- carries _ (match ?x with _ => _ end) => destruct x end ].
Qed.

Lemma triple_bind {A B : Type} (P : World -> Prop) (R : A -> World -> Prop)
    (Q : B -> World -> Prop) (m : M A) (k : A -> M B) :
  triple E P m R -> (forall a, triple E (R a) (k a) Q) -> triple E P (bind m k) Q.
Proof.
  intros Hm Hk Hnf w HP. destruct (Hm Hnf w HP) as (a & w1 & Hrun & HR).
  destruct (Hk a Hnf w1 HR) as (b & w2 & Hrun2 & HQ).
  exists b, w2. split; [|done]. unfold bind. by rewrite Hrun.
Qed.

Lemma triple_ret {A : Type} (P : World -> Prop) (Q : A -> World -> Prop) (a : A) :
  (forall w, P w -> Q a w) -> triple E P (ret a) Q.
Proof. intros HPQ _ w HP. exists a, w. split; [done | by apply HPQ]. Qed.

Lemma triple_try_catch {A : Type} (P : World -> Prop) (Q : A -> World -> Prop)
    (m : M A) (h : JS.Error -> M A) :
  triple E P m Q -> triple E P (try_catch m h) Q.
Proof.
  intros Hm Hnf w HP. destruct (Hm Hnf w HP) as (a & w1 & Hrun & HQ).
  exists a, w1. split; [|done]. unfold try_catch. by rewrite Hrun.
Qed.

Lemma triple_ext {A : Type} (P : World -> Prop) (Q : A -> World -> Prop)
    (c : Call) (answer : World -> A * World) :
  (forall w, P w ->
     Q (fst (answer (set_trace (fun t => (t ++ [c])%list) w)))
       (snd (answer (set_trace (fun t => (t ++ [c])%list) w)))) ->
  triple E P (ext E c answer) Q.
Proof.
  intros HPQ Hnf w HP. rewrite ext_run, Hnf. eexists _, _. split; [done | by apply HPQ].
Qed.

Lemma safe_ret {A : Type} (a : A) : safe E (ret a).
Proof. by apply triple_ret. Qed.

Lemma safe_log (level : LogLevel) (msg : string) : safe E (log level msg).
Proof. intros _ w _. by eexists _, _. Qed.

Lemma safe_tick (c : Call) : safe E (tick c).
Proof. intros _ w _. by eexists _, _. Qed.

Lemma safe_Math_random : safe E (Math_random E).
Proof. intros _ w _. by eexists _, _. Qed.

Lemma safe_respondedTweets_add (tweetId : string) : safe E (respondedTweets_add tweetId).
Proof. intros _ w _. by eexists _, _. Qed.

Lemma safe_call {A : Type} (c : Call) (a : A) : safe E (call E c a).
Proof. by apply triple_ext. Qed.

Lemma safe_ext {A : Type} (c : Call) (answer : World -> A * World) : safe E (ext E c answer).
Proof. by apply triple_ext. Qed.

Lemma safe_call_detached (c : Call) : safe E (call_detached E c).
Proof. intros Hnf w _. unfold call_detached. rewrite Hnf. by eexists _, _. Qed.

Lemma safe_bind {A B : Type} (m : M A) (k : A -> M B) :
  safe E m -> (forall a, safe E (k a)) -> safe E (bind m k).
Proof. intros Hm Hk. by eapply triple_bind. Qed.

Lemma safe_for_of {A : Type} (l : list A) (body : A -> M unit) :
  (forall x, safe E (body x)) -> safe E (for_of l body).
Proof.
  intros Hbody. induction l as [|x l IH]; simpl.
  - apply safe_ret.
  - apply safe_bind; [apply Hbody | intros _; apply IH].
Qed.

Lemma safe_map_M {A B : Type} (f : A -> M B) (l : list A) :
  (forall x, safe E (f x)) -> safe E (map_M f l).
Proof.
  intros Hf. induction l as [|x l IH]; simpl.
  - apply safe_ret.
  - apply safe_bind; [apply Hf | intros y].
    apply safe_bind; [apply IH | intros ys; apply safe_ret].
Qed.

Ltac safe_step :=
  first
    [ apply safe_ret | apply safe_log | apply safe_call | apply safe_call_detached
    | apply safe_tick | apply safe_Math_random | apply safe_respondedTweets_add
    | apply safe_ext
    | apply safe_for_of; intros ?
    | apply safe_map_M; intros ?
    | apply safe_bind; [| intros ?]
    | apply triple_try_catch
    | match goal with |- safe _ (if ?b then _ else _) => destruct b end
    | match goal with |- safe _ (match ?x with _ => _ end) => destruct x end ].

(** Without failing calls, [replyTo] ends without an error. *)
Lemma safe_replyTo (t : Tweet) (tweetId formatted : string) :
  safe E (replyTo E t tweetId formatted).
Proof. unfold replyTo, cache_set_text. repeat safe_step. Qed.

Lemma safe_body : safe E (engageWithSearchTerms_body E).
Proof.
  unfold engageWithSearchTerms_body.
  repeat first [ apply safe_replyTo | safe_step ].
Qed.

(** Every way the [try] block of the pass can end without an error. *)
Lemma body_inv (w : World) x w' :
  engageWithSearchTerms_body E w = (Ok x, w') ->
  selection_outcome E w x /\ (x = NoMatchingTweet -> no_match_warning ∈ logs w').
Proof.
  unfold engageWithSearchTerms_body, selection_outcome.
  unfold bind at 1. unfold Math_random at 1.
  fold (pass_searchTerm E w).
  unfold bind at 1. unfold log at 1.
  unfold bind at 1. unfold tick at 1.
  unfold bind at 1. rewrite call_run. destruct (fault E _); [discriminate |].
  fold (pass_slicedTweets E w).
  unfold bind at 1. unfold log at 1.
  unfold bind at 1. rewrite call_run. destruct (fault E _); [discriminate |].
  unfold bind at 1. rewrite call_run. destruct (fault E _); [discriminate |].
  fold (pass_prompt E w).
  destruct (pass_slicedTweets E w) as [|t0 pool] eqn:Hpool.
  { simpl. unfold bind, log, ret. intros [= <- <-]. split; [done | discriminate]. }
  replace (length (t0 :: pool) =? 0)%nat with false by reflexivity.
  unfold bind at 1. rewrite call_run. destruct (fault E _); [discriminate |].
  fold (pass_tweetId E w).
  destruct (JS.find _ (t0 :: pool)) as [t|] eqn:Hfind.
  - intros Hrun. apply carries_replyTo in Hrun. split; [done |].
    intros ->. discriminate.
  - unfold bind, log, ret. intros [= <- <-]. split; [done |]. intros _.
    unfold no_match_warning. simpl. set_solver.
Qed.

(** The pass never throws: an error of its [try] block ends it in
    [PassError], with the error written to the console. *)
Lemma pass_inv (w : World) r w' :
  engageWithSearchTerms E w = (r, w') ->
  exists x, r = Ok x /\
    ((x = PassError /\ exists e, (ConsoleError, "Error engaging with search terms: " ++ JS.message e) ∈ logs w') \/
     (selection_outcome E w x /\ (x = NoMatchingTweet -> no_match_warning ∈ logs w'))).
Proof.
  unfold engageWithSearchTerms, bind, log, try_catch.
  destruct (engageWithSearchTerms_body E _) as [[x|e] w1] eqn:Hbody.
  - intros [= <- <-]. exists x. split; [done |]. right. by apply body_inv in Hbody.
  - unfold ret. intros [= <- <-]. exists PassError. split; [done |]. left. split; [done |].
    exists e. simpl. set_solver.
Qed.

Lemma selection_outcome_not_error (w : World) (x : PassExit) :
  selection_outcome E w x -> x <> PassError.
Proof.
  unfold selection_outcome. destruct (pass_slicedTweets E w); [by intros -> |].
  destruct (JS.find _ _); [|by intros ->]. by intros H ->.
Qed.

(** Without failing calls the pass goes through its selection step. *)
Lemma pass_no_fault (w : World) :
  no_fault E ->
  exists x w', engageWithSearchTerms E w = (Ok x, w') /\ selection_outcome E w x.
Proof.
  intros Hnf. unfold engageWithSearchTerms, bind, log, try_catch.
  destruct (safe_body Hnf (set_logs (fun l => (l ++ [(LogInfo, "Engaging with search terms")])%list) w) I)
    as (x & w' & Hrun & _).
  rewrite Hrun. exists x, w'. split; [done |]. by apply body_inv in Hrun as [? _].
Qed.

(** Whatever the collaborators do, a pass sleeps and then asks the social
    client for search results, with the search term it picked. *)
Lemma pass_fetches (w : World) :
  exists suffix,
    trace (snd (engageWithSearchTerms E w)) =
    (trace w ++ [Sleep 5000; FetchSearchTweets (pass_searchTerm E w) 20 Top] ++ suffix)%list.
Proof.
  unfold engageWithSearchTerms, engageWithSearchTerms_body.
  unfold bind at 1. unfold log at 1. unfold try_catch.
  unfold bind at 1. unfold Math_random at 1.
  unfold bind at 1. unfold log at 1.
  unfold bind at 1. unfold tick at 1.
  unfold bind at 1. rewrite call_run.
  destruct (fault E _).
  { unfold bind, log, ret. simpl. exists []. by rewrite <- app_assoc. }
  match goal with
  | |- context [match ?m ?w1 with _ => _ end] =>
      destruct (m w1) as [r w2] eqn:Hrest;
      assert (Hext : extends m) by (repeat first [ apply extends_replyTo | extends_step ])
  end.
  destruct (Hext _ _ _ Hrest) as (suffix & Htrace). simpl in Htrace.
  destruct r as [x|e]; simpl.
  - exists suffix. rewrite Htrace. by rewrite <- !app_assoc.
  - unfold bind, log, ret. simpl. exists suffix. rewrite Htrace. by rewrite <- !app_assoc.
Qed.

Lemma triple_call {A : Type} (c : Call) (a : A) :
  triple E (fun _ => True) (call E c a) (fun x _ => x = a).
Proof. by apply triple_ext. Qed.

Lemma triple_pure {A : Type} (P : Prop) (m : M A) (Q : A -> World -> Prop) :
  (P -> triple E (fun _ => True) m Q) -> triple E (fun _ => P) m Q.
Proof. intros H Hnf w HP. by apply H. Qed.

(** A computation that runs to its end and only appends to the trace keeps
    the reply that was sent. *)
Lemma triple_extends {A : Type} (tweetId : string) (m : M A) :
  safe E m -> extends m ->
  triple E (reply_sent E tweetId) m (fun _ w => reply_sent E tweetId w).
Proof.
  intros Hsafe Hext Hnf w (reply & roomId & Hin).
  destruct (Hsafe Hnf w I) as (a & w' & Hrun & _).
  destruct (Hext _ _ _ Hrun) as (suffix & Htrace).
  exists a, w'. split; [done |]. exists reply, roomId. rewrite Htrace.
  apply elem_of_app. by left.
Qed.

(** When nothing fails, the tweet is not the bot's own and has text, and the
    model writes a reply, [replyTo] hands the reply to [sendTweet] and
    records the tweet as responded. *)
Lemma replyTo_responds (t : Tweet) (tweetId formatted : string) :
  username t <> twitterUsername E ->
  truthy (text t) <> None ->
  (forall context, content_text (generateMessageResponse E context) <> "") ->
  triple E (fun _ => True) (replyTo E t tweetId formatted)
         (fun x w => x = Responded t /\ id t ∈ respondedTweets w /\ reply_sent E tweetId w).
Proof.
  intros Hown Htext Hreply. unfold replyTo.
  eapply triple_bind; [apply safe_log | intros ?].
  apply String.eqb_neq in Hown. rewrite Hown.
  eapply triple_bind; [apply safe_call | intros ?].
  eapply triple_bind; [apply safe_call | intros ?].
  destruct (truthy (text t)) as [message_text|]; [|done].
  eapply (triple_bind _ (fun _ _ => True)).
  { destruct (isRetweet t); repeat safe_step. }
  intros tweetBackground.
  eapply triple_bind; [apply safe_call_detached | intros ?].
  eapply triple_bind; [apply safe_map_M; intros ?; repeat safe_step | intros imageDescriptions].
  eapply triple_bind; [apply safe_call | intros state].
  eapply triple_bind; [apply safe_call | intros ?].
  eapply triple_bind; [apply triple_call | intros responseContent].
  cbv beta. apply triple_pure. intros ->.
  cbn [content_text truthy].
  match goal with |- context [generateMessageResponse E ?ctx] =>
    specialize (Hreply ctx); destruct (content_text (generateMessageResponse E ctx)) as [|c rest];
    [done |] end.
  eapply triple_bind; [apply safe_log | intros ?].
  apply triple_try_catch.
  eapply (triple_bind _ (fun _ w => reply_sent E tweetId w)).
  { apply triple_ext. intros w _. eexists _, _. simpl. apply elem_of_app. right. left. }
  intros responseMessages.
  eapply triple_bind;
    [apply triple_extends; [apply safe_call | apply extends_call] | intros ?].
  eapply triple_bind;
    [apply triple_extends;
       [apply safe_for_of; intros ?; apply safe_call
       | apply extends_for_of; intros ?; apply extends_call] | intros ?].
  eapply triple_bind;
    [apply triple_extends; [apply safe_call | apply extends_call] | intros ?].
  eapply triple_bind;
    [apply triple_extends; [apply safe_call | apply extends_call] | intros ?].
  eapply triple_bind;
    [apply triple_extends; [apply safe_call | apply extends_call] | intros ?].
  eapply (triple_bind _ (fun _ w => id t ∈ respondedTweets w /\ reply_sent E tweetId w)).
  { intros _ w Hsent. eexists _, _. split; [reflexivity |]. split; [|exact Hsent].
    simpl. apply elem_of_union. left. by apply elem_of_singleton. }
  intros ?.
  eapply (triple_bind _ (fun _ w => id t ∈ respondedTweets w /\ reply_sent E tweetId w)).
  { apply triple_ext. intros w [Hin (reply & roomId & Hsent)]. split; [exact Hin |].
    exists reply, roomId. simpl. apply elem_of_app. by left. }
  intros ?.
  eapply (triple_bind _ (fun _ w => id t ∈ respondedTweets w /\ reply_sent E tweetId w)).
  { apply triple_ext. intros w [Hin (reply & roomId & Hsent)]. split; [exact Hin |].
    exists reply, roomId. simpl. apply elem_of_app. by left. }
  intros ?. apply triple_ret. intros w [Hin Hsent]. by split_and!.
Qed.

(** The same, for the whole pass. *)
Lemma pass_responds (w : World) (t : Tweet) :
  no_fault E ->
  JS.find (matchesTweetId (pass_tweetId E w)) (pass_slicedTweets E w) = Some t ->
  username t <> twitterUsername E ->
  truthy (text t) <> None ->
  (forall context, content_text (generateMessageResponse E context) <> "") ->
  exists w', engageWithSearchTerms E w = (Ok (Responded t), w') /\
             id t ∈ respondedTweets w' /\
             reply_sent E (pass_tweetId E w) w'.
Proof.
  intros Hnf Hfind Hown Htext Hreply.
  unfold engageWithSearchTerms, engageWithSearchTerms_body.
  unfold bind at 1. unfold log at 1. unfold try_catch.
  unfold bind at 1. unfold Math_random at 1.
  unfold bind at 1. unfold log at 1.
  unfold bind at 1. unfold tick at 1.
  unfold bind at 1. rewrite call_run, Hnf.
  unfold bind at 1. unfold log at 1.
  unfold bind at 1. rewrite call_run, Hnf.
  unfold bind at 1. rewrite call_run, Hnf.
  change (draws (set_logs _ w)) with (draws w).
  fold (pass_searchTerm E w). fold (pass_slicedTweets E w). fold (pass_prompt E w).
  destruct (pass_slicedTweets E w) as [|t0 pool] eqn:Hpool; [discriminate |].
  replace (length (t0 :: pool) =? 0)%nat with false by reflexivity.
  unfold bind at 1. rewrite call_run, Hnf.
  fold (pass_tweetId E w). rewrite Hfind.
  match goal with |- context [replyTo E t ?i ?f ?w1] =>
    destruct (replyTo_responds t i f Hown Htext Hreply Hnf w1 I)
      as (x & w' & Hrun & -> & Hin & Hsent)
  end.
  rewrite Hrun. by exists w'.
Qed.

End PassFacts.

(** ** The timer loop *)

Module EventLoopFacts.
Import EventLoop.

Section LoopFacts.

Variable random : nat -> JS.double.
Variable latency : nat -> list Z.

(** The loop arms its timer right after it has started the pass: nothing of
    the pass is waited for. *)
Lemma loop_reschedules_at_once (s : Sched) :
  let k := passes s in
  let s' := engageWithSearchTermsLoop random latency s in
  now s' = now s /\
  (now s + randomMinutes random k * 60 * 1000, RunLoop)%Z ∈ queue s' /\
  (latency k <> [] ->
     k ∈ running s' /\
     journal s' =
       (journal s ++ [(now s, PassStarted k); (now s, LoopRescheduled k (randomMinutes random k))])%list).
Proof.
  intros k s'. subst s'. unfold engageWithSearchTermsLoop, engageWithSearchTerms_call.
  fold k. destruct (latency k) as [|d rest]; simpl.
  - split; [done |]. split; [|done].
    generalize (queue s). intros q. induction q as [|[d' t'] q IH]; simpl; [set_solver |].
    destruct (d' <=? _)%Z; set_solver.
  - split; [done |]. split.
    + generalize (enqueue (now s + d) (ResumePass k rest) (queue s)).
      intros q. induction q as [|[d' t'] q IH]; simpl; [set_solver |].
      destruct (d' <=? _)%Z; set_solver.
    + intros _. split; [set_solver |]. by rewrite <- app_assoc.
Qed.

Hypothesis random_range : forall k, JS.unit_interval (random k).

Lemma randomMinutes_range (k : nat) : (60 <= randomMinutes random k <= 120)%Z.
Proof.
  unfold randomMinutes.
  assert (0 <= JS.floor_random_times (random k) (120 - 60 + 1) < 120 - 60 + 1)%Z.
  { apply JSFacts.floor_random_times_range; [apply random_range |]. by vm_compute. }
  lia.
Qed.

Hypothesis latency_nonneg : forall k, Forall (fun d => 0 <= d)%Z (latency k).
Hypothesis pass_within_the_hour : forall k, (duration (latency k) < hour)%Z.

Lemma remove_single (k : nat) : remove k [k] = [].
Proof. unfold remove. simpl. by rewrite Nat.eqb_refl. Qed.

Lemma loop_calm (n : Z) (p : nat) (j : list (Z * Event)) :
  calm (engageWithSearchTermsLoop random latency (mkSched n [] p [] j)).
Proof.
  unfold engageWithSearchTermsLoop, engageWithSearchTerms_call. cbn -[remove].
  pose proof (randomMinutes_range p) as Hm.
  pose proof (latency_nonneg p) as Hpos.
  pose proof (pass_within_the_hour p) as Hdur. unfold hour in Hdur.
  exists (n + randomMinutes random p * 60 * 1000)%Z.
  destruct (latency p) as [|d rest]; cbn -[remove].
  - left. rewrite remove_single. split_and!; [done | done | lia].
  - right. simpl in Hdur. inversion Hpos as [|? ? Hd Hrest]; subst.
    assert (Hsum : (0 <= duration rest)%Z).
    { clear -Hrest. induction Hrest; simpl; lia. }
    destruct (n + d <=? n + randomMinutes random p * 60 * 1000)%Z eqn:Hle.
    + exists (n + d)%Z, p, rest. split_and!; [done | done | lia | done | lia].
    + apply Z.leb_gt in Hle. lia.
Qed.

Lemma step_calm (s s' : Sched) : calm s -> step random latency s = Some s' -> calm s'.
Proof.
  intros (T & [(Hq & Hr & Hnow) | (d & k & rest & Hq & Hr & Hnow & Hpos & Hlt)]).
  - unfold step. rewrite Hq, Hr. intros [= <-]. simpl. apply loop_calm.
  - unfold step. rewrite Hq, Hr. intros [= <-]. cbn -[remove].
    assert (Hsum : (0 <= duration rest)%Z).
    { clear -Hpos. induction Hpos; simpl; lia. }
    exists T. destruct rest as [|d1 rest]; cbn -[remove].
    + left. rewrite remove_single. simpl in Hlt. split_and!; [done | done | lia].
    + right. simpl in Hlt. inversion Hpos as [|? ? Hd1 Hrest]; subst.
      assert (Hsum' : (0 <= duration rest)%Z).
      { clear -Hrest. induction Hrest; simpl; lia. }
      destruct (T <=? Z.max (now s) d + d1)%Z eqn:Hle.
      * apply Z.leb_le in Hle. simpl in Hsum. lia.
      * exists (Z.max (now s) d + d1)%Z, k, rest. split_and!; [done | done | lia | done | lia].
Qed.

Lemma run_calm (n : nat) (s : Sched) : calm s -> calm (run random latency n s).
Proof.
  revert s. induction n as [|n IH]; intros s Hs; simpl; [done |].
  destruct (step random latency s) as [s'|] eqn:Hstep; [|done].
  apply IH. by eapply step_calm.
Qed.

Lemma calm_running (s : Sched) : calm s -> (length (running s) <= 1)%nat.
Proof.
  intros (T & [(_ & -> & _) | (d & k & rest & _ & -> & _)]); simpl; lia.
Qed.

End LoopFacts.

End EventLoopFacts.

(** ** Accepted concepts *)

Section ConceptFacts.

Variable E : Env.

(** [validateTokenInfo] accepts exactly the objects whose four properties
    are strings and whose name and ticker satisfy the validity invariant. *)
Lemma validateTokenInfo_true (v : JS.value) :
  validateTokenInfo v = inr true <->
  exists fields name_ ticker description imagePrompt,
    v = JS.JObj fields /\
    fields !! "name" = Some (JS.JStr name_) /\
    fields !! "ticker" = Some (JS.JStr ticker) /\
    fields !! "description" = Some (JS.JStr description) /\
    fields !! "imagePrompt" = Some (JS.JStr imagePrompt) /\
    valid_concept name_ ticker.
Proof.
  unfold validateTokenInfo, and_then, valid_concept. split.
  - destruct v as [| | | | |fields]; cbn [JS.get_prop]; try discriminate.
    destruct (fields !! "name") as [[| | |name_| |]|] eqn:Hn; try discriminate.
    destruct (fields !! "ticker") as [[| | |ticker| |]|] eqn:Ht; try discriminate.
    destruct (fields !! "description") as [[| | |description| |]|] eqn:Hd; cbn [JS.is_string];
      try (rewrite ?andb_false_r; discriminate).
    destruct (fields !! "imagePrompt") as [[| | |imagePrompt| |]|] eqn:Hi; cbn [JS.is_string];
      try (rewrite ?andb_false_r; discriminate).
    intros H0.
    assert (H := f_equal (fun x : JS.Error + bool => match x with inr b => b | inl _ => false end) H0).
    cbv beta iota in H. clear H0.
    rewrite !andb_true_r, !andb_true_iff in H.
    destruct H as (((Hlen & H3) & H5) & Hl).
    apply Nat.leb_le in Hlen, H3, H5. apply JSFacts.test_letters_every in Hl.
    by exists fields, name_, ticker, description, imagePrompt.
  - intros (fields & name_ & ticker & description & imagePrompt & -> & Hn & Ht & Hd & Hi &
            Hl & [H3 H5] & Hlen).
    cbn [JS.get_prop]. rewrite Hn, Ht, Hd, Hi. cbn [JS.is_string]. f_equal.
    rewrite !andb_true_r, !andb_true_iff. split_and!; try by apply Nat.leb_le.
    destruct ticker; [simpl in H3; lia | done].
Qed.

(** An accepted concept records its trend, satisfies the validity
    invariant, and carries its ticker in upper case. *)
Lemma accepted_concept (response t : string) (tokenInfo : JS.value) :
  accepted E response t tokenInfo ->
  exists parsed_ticker,
    field tokenInfo "sourceTrend" = t /\
    field tokenInfo "ticker" = JS.toUpperCase parsed_ticker /\
    JS.every JS.is_upper (field tokenInfo "ticker") = true /\
    valid_concept (field tokenInfo "name") (field tokenInfo "ticker").
Proof.
  intros (v & v1 & ticker & Hparse & Hset & Hvalid & Hticker & Hset2).
  apply validateTokenInfo_true in Hvalid
    as (fields & name_ & ticker' & d & p & -> & Hn & Ht & Hd & Hi & Hl & Hlen & Hname).
  cbn [JS.get_prop] in Hticker. rewrite Ht in Hticker.
  assert (ticker' = ticker) as -> by congruence.
  cbn [JS.set_prop] in Hset2.
  assert (tokenInfo = JS.JObj (<["ticker" := JS.JStr (JS.toUpperCase ticker)]> fields)) as ->
    by congruence.
  destruct v as [| | | | |fields0]; cbn [JS.set_prop] in Hset; try discriminate.
  assert (fields = <["sourceTrend" := JS.JStr t]> fields0) as -> by congruence.
  exists ticker. unfold field. cbn [JS.get_prop].
  rewrite lookup_insert_eq.
  rewrite (lookup_insert_ne _ "ticker" "sourceTrend") by discriminate.
  rewrite lookup_insert_eq.
  rewrite (lookup_insert_ne _ "ticker" "name") by discriminate. rewrite Hn.
  split_and!; [done | done | by apply JSFacts.toUpperCase_every_upper |].
  unfold valid_concept. rewrite JSFacts.toUpperCase_length. split; [|by split].
  clear -Hl. induction ticker as [|c s IH]; simpl in *; [done |].
  apply andb_true_iff in Hl as [Hc Hs]. rewrite IH by done. rewrite andb_true_r.
  apply JSFacts.upper_char_is_upper in Hc. unfold JS.is_alpha. by rewrite Hc.
Qed.

Lemma first_absent_unique (used : list string) (trends : list TwitterTrend) (t t' : string) :
  first_absent used trends t -> first_absent used trends t' -> t = t'.
Proof.
  intros (pre & tr & post & Heq & <- & Hnot & Hpre) (pre' & tr' & post' & Heq' & <- & Hnot' & Hpre').
  subst trends. revert pre' Heq' Hpre'.
  induction pre as [|a pre IH]; intros [|a' pre'] Heq' Hpre'; simpl in Heq'.
  - by inversion Heq'.
  - inversion Heq'; subst. exfalso. apply Hnot. apply Hpre'. left.
  - inversion Heq'; subst. exfalso. apply Hnot'. apply Hpre. left.
  - inversion Heq'; subst. eapply IH; [|done|].
    + intros x Hx. apply Hpre. by right.
    + intros x Hx. apply Hpre'. by right.
Qed.

(** When nothing fails and the concept made for the first unused trend is
    accepted, the generator returns it and appends the trend to the log. *)
Lemma getTopTrendAndGenerateToken_accepts (w : World) (t : string) (tokenInfo : JS.value) :
  no_fault E ->
  first_absent (UsedTrendsLog w) (getTrends E) t ->
  t <> "" ->
  accepted E (generateText E (tokenPrompt t) LARGE) t tokenInfo ->
  exists w', getTopTrendAndGenerateToken E w = (Ok (Some tokenInfo), w') /\
             UsedTrendsLog w' = (UsedTrendsLog w ++ [t])%list.
Proof.
  intros Hnf Hfirst Hne (v & v1 & ticker & Hparse & Hset & Hvalid & Hticker & Hset2).
  unfold getTopTrendAndGenerateToken, try_catch, getTopTrendAndGenerateToken_body.
  unfold bind at 1. rewrite call_run, Hnf.
  unfold bind at 1. unfold log at 1.
  unfold bind at 1.
  destruct (selectTrend_total E (getTrends E)
              (set_logs (fun l => (l ++ [(LogInfo, "Fetched trends:")])%list)
                 (set_trace (fun t0 => (t0 ++ [GetTrends])%list) w)) Hnf) as (x & ws & Hsel).
  rewrite Hsel. pose proof (selectTrend_inv E _ _ _ _ Hsel) as [Hc Hx].
  specialize (Hx x eq_refl). destruct x as [t'|].
  2:{ exfalso. destruct Hfirst as (pre & tr & post & Heq & <- & Hnot & _).
      apply Hnot. apply Hx. rewrite Heq. set_solver. }
  assert (t' = t) as -> by (by eapply first_absent_unique).
  destruct t as [|c t]; [done |]. cbn [truthy].
  unfold bind at 1. rewrite call_run, Hnf.
  unfold bind at 1. unfold parseTokenInfo, try_catch.
  unfold bind at 1. rewrite Hparse. cbn [lift ret].
  unfold bind at 1. rewrite Hset. cbn [lift ret].
  unfold bind at 1. rewrite Hvalid. cbn [lift ret negb].
  unfold bind at 1. rewrite Hticker. cbn [lift ret].
  unfold bind at 1. cbn [toUpperCase_prop lift ret].
  unfold bind at 1. rewrite Hset2. cbn [lift ret].
  unfold bind at 1. unfold cacheUsedTrend, cache_get_strings, cache_set_strings.
  unfold bind at 1. rewrite ext_run, Hnf. cbn [fst snd].
  rewrite ext_run, Hnf. cbn [fst snd]. unfold ret.
  eexists. split; [reflexivity |].
  unfold UsedTrendsLog, used_trends_key. simpl. rewrite lookup_insert_eq.
  simpl in Hc. by rewrite Hc.
Qed.

(** When nothing fails, the model is asked for a concept for the first
    unused trend, provided that its name is not empty. *)
Lemma getTopTrendAndGenerateToken_prompts (w : World) (t : string) :
  no_fault E ->
  first_absent (UsedTrendsLog w) (getTrends E) t ->
  t <> "" ->
  GenerateText (tokenPrompt t) LARGE ∈ trace (snd (getTopTrendAndGenerateToken E w)).
Proof.
  intros Hnf Hfirst Hne.
  unfold getTopTrendAndGenerateToken, try_catch, getTopTrendAndGenerateToken_body.
  unfold bind at 1. rewrite call_run, Hnf.
  unfold bind at 1. unfold log at 1.
  unfold bind at 1.
  destruct (selectTrend_total E (getTrends E)
              (set_logs (fun l => (l ++ [(LogInfo, "Fetched trends:")])%list)
                 (set_trace (fun t0 => (t0 ++ [GetTrends])%list) w)) Hnf) as (x & ws & Hsel).
  rewrite Hsel. pose proof (selectTrend_inv E _ _ _ _ Hsel) as [_ Hx].
  specialize (Hx x eq_refl). destruct x as [t'|].
  2:{ exfalso. destruct Hfirst as (pre & tr & post & Heq & <- & Hnot & _).
      apply Hnot. apply Hx. rewrite Heq. apply elem_of_app. right. left. }
  assert (t' = t) as -> by (by eapply first_absent_unique).
  destruct t as [|c t]; [done |]. cbn [truthy].
  unfold bind at 1. rewrite call_run, Hnf.
  match goal with
  | |- context [match ?m ?w1 with _ => _ end] =>
      destruct (m w1) as [r w2] eqn:Hrest;
      assert (Hext : extends m)
        by (unfold parseTokenInfo, cacheUsedTrend, cache_get_strings, cache_set_strings;
            repeat extends_step)
  end.
  destruct (Hext _ _ _ Hrest) as (suffix & Htrace). simpl in Htrace.
  assert (Hin : GenerateText (tokenPrompt (String c t)) LARGE ∈ trace w2).
  { rewrite Htrace. apply elem_of_app. left. apply elem_of_app. right. left. }
  destruct r; simpl; [done |]. unfold bind, log, ret. simpl. exact Hin.
Qed.

(** Every way the handler can end: either the log is as it was and the
    handler did not succeed, or the token was launched. *)
Lemma handler_inv (state : State) (callback : option HandlerCallback) (w : World) r w' :
  handler E state callback w = (r, w') ->
  (r <> Ok true /\ cache_strings w' = cache_strings w) \/
  (exists t tokenInfo, launched E state w w' t tokenInfo).
Proof.
  unfold handler. unfold bind at 1. unfold log at 1. unfold try_catch.
  destruct (handler_body E state callback _) as [rb wb] eqn:Hbody.
  apply handler_body_inv in Hbody
    as [[(e & ->) Hc] | (t & tok & Hl & [-> | (e & ->)])].
  - unfold bind at 1. unfold log at 1. unfold bind at 1.
    destruct (invoke callback _ _) as [ri wi] eqn:Hinv.
    apply invoke_inv in Hinv as (Hci & _ & _). simpl in Hci, Hc.
    destruct ri; intros [= <- <-]; left; (split; [done | congruence]).
  - intros [= <- <-]. right. by exists t, tok.
  - unfold bind at 1. unfold log at 1. unfold bind at 1.
    destruct (invoke callback _ _) as [ri wi] eqn:Hinv.
    apply invoke_inv in Hinv as (Hci & (suffix & Hti) & _). simpl in Hci, Hti.
    assert (Hl' : launched E state w wi t tok).
    { destruct Hl as (H1 & H2 & H3 & H4 & H5 & H6 & H7). split_and!; try done.
      - rewrite Hti. apply elem_of_app. by left.
      - unfold UsedTrendsLog in *. by rewrite Hci. }
    destruct ri; intros [= <- <-]; right; by exists t, tok.
Qed.


End ConceptFacts.

(** ** Selection of the tweet *)

Section SelectionFacts.

Variable E : Env.

Lemma matchesTweetId_spec (tweetId : string) (c : Tweet) :
  matchesTweetId tweetId c = true <-> matches tweetId c.
Proof.
  unfold matchesTweetId, matches.
  by rewrite orb_true_iff, !JSFacts.includes_spec.
Qed.

(** When the pool is not empty and nothing fails, the prompt given to the
    model is the one built from the filtered pool. *)
Lemma pass_prompts (w : World) :
  no_fault E ->
  pass_slicedTweets E w <> [] ->
  GenerateText (pass_prompt E w) SMALL ∈ trace (snd (engageWithSearchTerms E w)).
Proof.
  intros Hnf Hpool.
  unfold engageWithSearchTerms, engageWithSearchTerms_body.
  unfold bind at 1. unfold log at 1. unfold try_catch.
  unfold bind at 1. unfold Math_random at 1.
  unfold bind at 1. unfold log at 1.
  unfold bind at 1. unfold tick at 1.
  unfold bind at 1. rewrite call_run, Hnf.
  unfold bind at 1. unfold log at 1.
  unfold bind at 1. rewrite call_run, Hnf.
  unfold bind at 1. rewrite call_run, Hnf.
  change (draws (set_logs _ w)) with (draws w).
  fold (pass_searchTerm E w). fold (pass_slicedTweets E w). fold (pass_prompt E w).
  destruct (pass_slicedTweets E w) as [|t0 pool] eqn:Hsliced; [done |].
  replace (length (t0 :: pool) =? 0)%nat with false by reflexivity.
  unfold bind at 1. rewrite call_run, Hnf.
  fold (pass_tweetId E w).
  destruct (JS.find _ (t0 :: pool)) as [t|].
  - match goal with |- context [replyTo E t ?i ?f ?w1] =>
      destruct (replyTo E t i f w1) as [r w2] eqn:Hreply;
      destruct (extends_replyTo E t i f _ _ _ Hreply) as (suffix & Htrace)
    end.
    simpl in Htrace.
    assert (Hin : GenerateText (pass_prompt E w) SMALL ∈ trace w2).
    { rewrite Htrace. apply elem_of_app. left. apply elem_of_app. right. left. }
    destruct r; simpl; [done |]. unfold bind, log, ret. simpl. exact Hin.
  - unfold bind, log, ret. simpl. apply elem_of_app. right. left.
Qed.

End SelectionFacts.

(** ** Rejections left unhandled *)








Section Abandoned.

Variable E : Env.







End Abandoned.

(** * The claims of the specification *)

(** C1 (amended).  [getTopTrendAndGenerateToken] scans the trend list in
    order and selects the first trend whose name is absent from the
    used-trends log, never one that is present: without failing calls its
    loop finds that trend whenever there is one, whatever the loop selects
    is that trend, the model is asked for a concept for it when its name is
    not empty, and the concept the function returns was made for it; for
    trends named AI, AI, Web3 and the log [AI] the selected trend is Web3.
    The CREATE_TRENDING_TOKEN handler looks at the first trend of the list
    only: when it succeeds that trend was absent from the log and is
    appended to it, and when that trend is present in the log the handler
    does not succeed and leaves the log as it is. *)
Theorem C1_first_unused_trend (E : Env) (w : World) :
  (forall trends,
     no_fault E ->
     (exists tr, tr ∈ trends /\ (trend_name tr ∉ UsedTrendsLog w)) ->
     exists t w', selectTrend E trends w = (Ok (Some t), w') /\
                  first_absent (UsedTrendsLog w) trends t) /\
  (forall trends t w',
     selectTrend E trends w = (Ok (Some t), w') ->
     first_absent (UsedTrendsLog w) trends t) /\
  (forall t,
     no_fault E ->
     first_absent (UsedTrendsLog w) (getTrends E) t ->
     t <> "" ->
     GenerateText (tokenPrompt t) LARGE ∈ trace (snd (getTopTrendAndGenerateToken E w))) /\
  (forall tokenInfo w',
     getTopTrendAndGenerateToken E w = (Ok (Some tokenInfo), w') ->
     first_absent (UsedTrendsLog w) (getTrends E) (field tokenInfo "sourceTrend")) /\
  (forall trends,
     no_fault E ->
     UsedTrendsLog w = ["AI"] ->
     map trend_name trends = ["AI"; "AI"; "Web3"] ->
     exists w', selectTrend E trends w = (Ok (Some "Web3"), w')) /\
  (forall state callback r w',
     handler E state callback w = (r, w') ->
     (r = Ok true ->
      exists tr rest, getTrends E = tr :: rest /\
                      (trend_name tr ∉ UsedTrendsLog w) /\
                      UsedTrendsLog w' = (UsedTrendsLog w ++ [trend_name tr])%list) /\
     (forall tr rest,
        getTrends E = tr :: rest -> trend_name tr ∈ UsedTrendsLog w ->
        r <> Ok true /\ UsedTrendsLog w' = UsedTrendsLog w)).
Proof.
  split_and!.
  - intros trends Hnf Hex. by apply selectTrend_finds.
  - intros trends t w' Hrun. apply selectTrend_inv in Hrun as [_ Hres]. by apply (Hres (Some t)).
  - intros t Hnf Hfirst Hne. by apply getTopTrendAndGenerateToken_prompts.
  - intros tokenInfo w' Hrun.
    apply getTopTrendAndGenerateToken_inv in Hrun as (x & [= <-] & t & Hfirst & _ & Hacc & _).
    apply accepted_concept in Hacc as (_ & -> & _). done.
  - intros trends Hnf Hlog Hnames.
    destruct trends as [|a [|b [|c [|]]]]; try discriminate.
    injection Hnames as Ha Hb Hc.
    assert (Hweb3 : "Web3" ∉ ["AI"]).
    { intros Hin. apply list_elem_of_singleton in Hin. discriminate. }
    destruct (selectTrend_finds E [a; b; c] w Hnf) as (t & w' & Hrun & Hfirst).
    { exists c. rewrite Hlog, Hc. split; [|done]. right. right. left. }
    exists w'. rewrite Hrun. do 3 f_equal.
    eapply first_absent_unique; [exact Hfirst |].
    exists [a; b], c, []. rewrite Hlog. split_and!; [done | done | done |].
    intros x Hx. apply elem_of_cons in Hx as [-> | Hx]; [rewrite Ha; left |].
    apply list_elem_of_singleton in Hx as ->. rewrite Hb. left.
  - intros state callback r w' Hrun. apply handler_inv in Hrun as [[Hr Hc] | (t & tok & Hl)].
    + split; [done |]. intros tr rest _ _. split; [done |]. unfold UsedTrendsLog. by rewrite Hc.
    + destruct Hl as ((tr & rest & Htrends & <-) & _ & Hnot & _ & _ & _ & Hlog). split.
      * intros _. by exists tr, rest.
      * intros tr' rest' Htrends' Hin. rewrite Htrends in Htrends'. by simplify_eq.
Qed.

(** The scenario of C1: trends AI, AI, Web3 and the log [AI]. *)
Lemma C1_first_unused_trend_witness :
  exists w', selectTrend Scenario.env_xyz Scenario.AI_AI_Web3 Scenario.world_AI
             = (Ok (Some "Web3"), w').
Proof.
  apply (C1_first_unused_trend Scenario.env_xyz Scenario.world_AI).
  - intros n. reflexivity.
  - reflexivity.
  - reflexivity.
Defined.

(** C1 as stated fails for the CREATE_TRENDING_TOKEN handler: with the
    trends AI, AI, Web3 and the log [AI], the trend Web3 is unused, yet the
    handler selects nothing; it stops at the first trend with the error
    "Top trend already used", before any call to the model. *)
Lemma C1_handler_top_trend_only :
  map trend_name (getTrends Scenario.env_xyz) = ["AI"; "AI"; "Web3"] /\
  UsedTrendsLog Scenario.world_AI = ["AI"] /\
  fst (handler Scenario.env_xyz ∅ None Scenario.world_AI) = Ok false /\
  logs (snd (handler Scenario.env_xyz ∅ None Scenario.world_AI)) =
    [(LogInfo, "Starting CREATE_TRENDING_TOKEN handler...");
     (LogError, "Error in CREATE_TRENDING_TOKEN: Top trend already used")] /\
  trace (snd (handler Scenario.env_xyz ∅ None Scenario.world_AI)) =
    [GetService "TWITTER_CLIENT"; GetTrends; CacheGet "twitter/used_trends"].
Proof. vm_compute. split_and!; reflexivity. Qed.

(** C2.  The CREATE_TRENDING_TOKEN handler does not enforce the validity
    invariant.  For the trend AI and a parsed answer whose symbol is
    TOOLONG1 (eight characters, one of them a digit), the type guard
    [isTrendingTokenContent] accepts the answer, the token is deployed with
    that symbol, the trend is recorded as used and the handler returns
    [true]: the candidate that violates the invariant is not rejected. *)
Theorem C2_handler_deploys_unvalidated_symbol :
  JS.test_letters "TOOLONG1" = false /\
  String.length "TOOLONG1" = 8%nat /\
  isTrendingTokenContent Scenario.content_TOOLONG1 = inr true /\
  fst (handler Scenario.env_action ∅ None Scenario.world0) = Ok true /\
  trace (snd (handler Scenario.env_action ∅ None Scenario.world0)) =
    [GetService "TWITTER_CLIENT"; GetTrends; CacheGet "twitter/used_trends";
     GenerateText trendingTokenTemplate LARGE;
     GetSetting "SOLANA_PRIVATE_KEY"; GetSetting "SOLANA_RPC_URL"; GetSetting "OPENAI_API_KEY";
     NewSolanaAgentKit;
     DeployToken "X" "https://example.org/x.png" "TOOLONG1" 9;
     CacheSet "twitter/used_trends"; CacheGet "twitter/launched_tokens";
     CacheSet "twitter/launched_tokens"] /\
  UsedTrendsLog (snd (handler Scenario.env_action ∅ None Scenario.world0)) = ["AI"].
Proof. vm_compute. split_and!; reflexivity. Qed.

(** C3.  A concept with the ticker TOOLONG fails [validateTokenInfo]; when
    the generated concept fails validation, [getTopTrendAndGenerateToken]
    returns [null] and the used-trends log is unchanged.  A trend is
    appended to the log only after a concept has been accepted: a run of the
    function that changes the log returns a concept that passed validation,
    and a run of the CREATE_TRENDING_TOKEN handler that changes the log has
    passed its guard and deployed the token. *)
Theorem C3_rejected_concept_leaves_log (E : Env) (w : World) :
  (forall fields, fields !! "ticker" = Some (JS.JStr "TOOLONG") ->
     validateTokenInfo (JS.JObj fields) = inr false) /\
  ((forall t v v1,
      JSON_parse E (generateText E (tokenPrompt t) LARGE) = inr v ->
      JS.set_prop v "sourceTrend" (JS.JStr t) = inr v1 ->
      validateTokenInfo v1 <> inr true) ->
   exists w', getTopTrendAndGenerateToken E w = (Ok None, w') /\
              UsedTrendsLog w' = UsedTrendsLog w) /\
  (forall r w',
     getTopTrendAndGenerateToken E w = (r, w') ->
     UsedTrendsLog w' <> UsedTrendsLog w ->
     exists tokenInfo t,
       r = Ok (Some tokenInfo) /\
       accepted E (generateText E (tokenPrompt t) LARGE) t tokenInfo /\
       UsedTrendsLog w' = (UsedTrendsLog w ++ [t])%list) /\
  (forall state callback r w',
     handler E state callback w = (r, w') ->
     UsedTrendsLog w' <> UsedTrendsLog w ->
     exists t tokenInfo, launched E state w w' t tokenInfo).
Proof.
  split_and!.
  - intros fields Hticker. unfold validateTokenInfo, and_then. cbn [JS.get_prop].
    rewrite Hticker. destruct (fields !! "name") as [[| | |n| |]|]; try reflexivity.
    f_equal. by rewrite andb_false_r.
  - intros Hfails.
    destruct (getTopTrendAndGenerateToken E w) as [r w'] eqn:Hrun.
    apply getTopTrendAndGenerateToken_inv in Hrun as (x & -> & Hx).
    destruct x as [tokenInfo|].
    + exfalso. destruct Hx as (t & _ & _ & (v & v1 & ticker & Hp & Hs & Hv & _) & _).
      by eapply Hfails.
    + exists w'. split; [done |]. unfold UsedTrendsLog. by rewrite Hx.
  - intros r w' Hrun Hchanged.
    apply getTopTrendAndGenerateToken_inv in Hrun as (x & -> & Hx).
    destruct x as [tokenInfo|].
    + destruct Hx as (t & _ & _ & Hacc & Hlog). by exists tokenInfo, t.
    + exfalso. apply Hchanged. unfold UsedTrendsLog. by rewrite Hx.
  - intros state callback r w' Hrun Hchanged.
    apply handler_inv in Hrun as [[_ Hc] | Hl]; [|done].
    exfalso. apply Hchanged. unfold UsedTrendsLog. by rewrite Hc.
Qed.

(** The model answers a concept with the ticker TOOLONG. *)
Lemma C3_rejected_concept_leaves_log_witness :
  exists w', getTopTrendAndGenerateToken Scenario.env_TOOLONG Scenario.world_AI = (Ok None, w') /\
             UsedTrendsLog w' = ["AI"].
Proof.
  apply (C3_rejected_concept_leaves_log Scenario.env_TOOLONG Scenario.world_AI).
  intros t v v1 Hparse Hset.
  vm_compute in Hparse. injection Hparse as <-.
  vm_compute in Hset. injection Hset as <-.
  vm_compute. discriminate.
Defined.

(** C4 (amended).  The engager resolves the trimmed answer of the model
    against the pool by containment in either direction, and takes the first
    candidate of the pool, in pool order, that matches (the answer occurs in
    its id, or its id occurs in the answer).  So when exactly one candidate
    of the pool matches, that candidate is selected, and the pass works on
    it unless an external call fails, which ends the pass in its error
    handler; when no candidate matches, nothing is selected, and the pass
    logs a warning and returns.  A pass never throws, and without failing
    calls its error handler is not reached.  The answer "12345 is the best"
    matches a candidate whose id is 12345. *)
Theorem C4_unique_match_selected (E : Env) (w : World) :
  (forall pool tweetId c,
     JS.find (matchesTweetId tweetId) pool = Some c <->
     exists pre post,
       pool = (pre ++ c :: post)%list /\ matches tweetId c /\
       forall y, y ∈ pre -> ~ matches tweetId y) /\
  (forall pool tweetId c,
     c ∈ pool ->
     matches tweetId c ->
     (forall c', c' ∈ pool -> matches tweetId c' -> c' = c) ->
     JS.find (matchesTweetId tweetId) pool = Some c) /\
  (forall pool tweetId,
     (forall c, c ∈ pool -> ~ matches tweetId c) ->
     JS.find (matchesTweetId tweetId) pool = None) /\
  (forall r w',
     engageWithSearchTerms E w = (r, w') ->
     exists x, r = Ok x /\
       (forall c,
          JS.find (matchesTweetId (pass_tweetId E w)) (pass_slicedTweets E w) = Some c ->
          x = PassError \/ selected_of x = Some c) /\
       (pass_slicedTweets E w <> [] ->
        JS.find (matchesTweetId (pass_tweetId E w)) (pass_slicedTweets E w) = None ->
        x = PassError \/ (x = NoMatchingTweet /\ no_match_warning ∈ logs w')) /\
       (no_fault E -> x <> PassError)) /\
  (forall c, id c = "12345" -> matches (JS.trim "12345 is the best") c).
Proof.
  assert (Hfirst : forall pool tweetId c,
     JS.find (matchesTweetId tweetId) pool = Some c <->
     exists pre post,
       pool = (pre ++ c :: post)%list /\ matches tweetId c /\
       forall y, y ∈ pre -> ~ matches tweetId y).
  { intros pool tweetId c. rewrite JSFacts.find_Some. split.
    - intros (pre & post & Heq & Hc & Hpre). exists pre, post. split_and!; [done | |].
      + by apply matchesTweetId_spec.
      + intros y Hy Hm. apply matchesTweetId_spec in Hm. rewrite (Hpre y Hy) in Hm. discriminate.
    - intros (pre & post & Heq & Hc & Hpre). exists pre, post. split_and!; [done | |].
      + by apply matchesTweetId_spec.
      + intros y Hy. destruct (matchesTweetId tweetId y) eqn:Hm; [|done].
        exfalso. apply (Hpre y Hy). by apply matchesTweetId_spec. }
  assert (Hnone : forall pool tweetId,
     (forall c, c ∈ pool -> ~ matches tweetId c) ->
     JS.find (matchesTweetId tweetId) pool = None).
  { intros pool tweetId Hno. apply JSFacts.find_None. intros y Hy.
    destruct (matchesTweetId tweetId y) eqn:Hm; [|done].
    exfalso. apply (Hno y Hy). by apply matchesTweetId_spec. }
  split_and!; [exact Hfirst | | exact Hnone | |].
  - intros pool tweetId c Hin Hmatch Huniq.
    destruct (JS.find (matchesTweetId tweetId) pool) as [c'|] eqn:Hfind.
    + apply Hfirst in Hfind as (pre & post & Heq & Hc' & _). f_equal. apply Huniq; [|done].
      rewrite Heq. apply elem_of_app. right. left.
    + exfalso. rewrite JSFacts.find_None in Hfind. apply matchesTweetId_spec in Hmatch.
      rewrite (Hfind c Hin) in Hmatch. discriminate.
  - intros r w' Hrun. pose proof Hrun as Hrun'.
    apply pass_inv in Hrun as (x & -> & Hx). exists x. split; [done |]. split_and!.
    + intros c Hfind. destruct Hx as [[-> _] | [Hsel _]]; [by left | right].
      unfold selection_outcome in Hsel. rewrite Hfind in Hsel.
      destruct (pass_slicedTweets E w); [discriminate | done].
    + intros Hne Hfind. destruct Hx as [[-> _] | [Hsel Hwarn]]; [by left | right].
      unfold selection_outcome in Hsel. rewrite Hfind in Hsel.
      destruct (pass_slicedTweets E w); [done |]. split; [done | by apply Hwarn].
    + intros Hnf. destruct (pass_no_fault E w Hnf) as (x' & w'' & Hrun'' & Hsel).
      rewrite Hrun'' in Hrun'. injection Hrun' as -> _.
      by eapply selection_outcome_not_error.
  - intros c Hid. right. rewrite Hid. by exists "", " is the best".
Qed.

(** The answer "12345 is the best" against the ids 777 and 12345. *)
Lemma C4_unique_match_selected_witness :
  JS.find (matchesTweetId "12345 is the best") [Scenario.bob; Scenario.alice]
    = Some Scenario.alice.
Proof.
  apply (C4_unique_match_selected Scenario.env_12345 Scenario.world0).
  - right. left.
  - right. by exists "", " is the best".
  - intros c' Hin Hmatch.
    inversion Hin as [|? ? ? Hin']; subst.
    + apply matchesTweetId_spec in Hmatch. vm_compute in Hmatch. discriminate.
    + inversion Hin' as [|? ? ? Hin'']; subst; [reflexivity | inversion Hin''].
Defined.

(** C4 as stated fails.  The answer 123 is a substring of the id of exactly
    one candidate, the one with id 1234; the ids 12 and 23 of two other
    candidates are substrings of the answer.  The engager selects the
    candidate with id 12, the first of the pool that matches in either
    direction, and replies to it. *)
Lemma C4_first_match_wins :
  pass_slicedTweets Scenario.env_123 Scenario.world0
    = [Scenario.carol; Scenario.dave; Scenario.erin] /\
  pass_tweetId Scenario.env_123 Scenario.world0 = "123" /\
  List.filter (fun c => JS.includes (id c) "123")
    [Scenario.carol; Scenario.dave; Scenario.erin] = [Scenario.erin] /\
  List.filter (fun c => JS.includes "123" (id c))
    [Scenario.carol; Scenario.dave; Scenario.erin] = [Scenario.carol; Scenario.dave] /\
  JS.find (matchesTweetId "123") [Scenario.carol; Scenario.dave; Scenario.erin]
    = Some Scenario.carol /\
  fst (engageWithSearchTerms Scenario.env_123 Scenario.world0) = Ok (Responded Scenario.carol).
Proof. vm_compute. split_and!; reflexivity. Qed.

(** C5 (amended).  The loop does not wait for the pass: the call that runs
    the loop starts a pass and, in the same turn, arms the timer of its next
    run, 60 to 120 minutes ahead, while the pass (if it suspends at all) is
    still in flight.  Passes therefore do not overlap as long as every pass
    takes less than an hour: at most one pass is then in flight at any
    time. *)
Theorem C5_reschedule_does_not_wait (random : nat -> JS.double) (latency : nat -> list Z) :
  (forall s,
     let k := EventLoop.passes s in
     let s' := EventLoop.engageWithSearchTermsLoop random latency s in
     EventLoop.now s' = EventLoop.now s /\
     ((EventLoop.now s + EventLoop.randomMinutes random k * 60 * 1000)%Z, EventLoop.RunLoop)
       ∈ EventLoop.queue s' /\
     (latency k <> [] ->
      k ∈ EventLoop.running s' /\
      EventLoop.journal s' =
        (EventLoop.journal s ++
         [(EventLoop.now s, EventLoop.PassStarted k);
          (EventLoop.now s, EventLoop.LoopRescheduled k (EventLoop.randomMinutes random k))])%list)) /\
  ((forall k, JS.unit_interval (random k)) ->
   (forall k, (60 <= EventLoop.randomMinutes random k <= 120)%Z) /\
   ((forall k, Forall (fun d => 0 <= d)%Z (latency k)) ->
    (forall k, (duration (latency k) < hour)%Z) ->
    forall n,
      (length (EventLoop.running
                 (EventLoop.run random latency n (EventLoop.boot random latency))) <= 1)%nat)).
Proof.
  split.
  - intros s. apply EventLoopFacts.loop_reschedules_at_once.
  - intros Hrandom. split; [by apply EventLoopFacts.randomMinutes_range |].
    intros Hpos Hshort n.
    apply EventLoopFacts.calm_running, EventLoopFacts.run_calm; try done.
    by apply EventLoopFacts.loop_calm.
Qed.

(** Passes of twenty-five seconds and delays of sixty minutes. *)
Lemma C5_reschedule_does_not_wait_witness :
  (length (EventLoop.running
             (EventLoop.run Scenario.zero_random Scenario.quick_latency 7
                (EventLoop.boot Scenario.zero_random Scenario.quick_latency))) <= 1)%nat.
Proof.
  apply (C5_reschedule_does_not_wait Scenario.zero_random Scenario.quick_latency).
  - intros k. repeat split; vm_compute; first [reflexivity | discriminate].
  - intros k. repeat constructor; vm_compute; discriminate.
  - intros k. vm_compute. reflexivity.
Defined.

(** C5 as stated fails: the reschedule is issued before the pass has
    completed, and with a pass that takes two hours and a delay of sixty
    minutes, the second pass starts while the first is still in flight. *)
Lemma C5_passes_overlap :
  EventLoop.journal (EventLoop.boot Scenario.zero_random Scenario.slow_latency) =
    [(0%Z, EventLoop.PassStarted 0); (0%Z, EventLoop.LoopRescheduled 0 60)] /\
  EventLoop.running (EventLoop.boot Scenario.zero_random Scenario.slow_latency) = [0%nat] /\
  EventLoop.running
    (EventLoop.run Scenario.zero_random Scenario.slow_latency 2
       (EventLoop.boot Scenario.zero_random Scenario.slow_latency)) = [0%nat; 1%nat] /\
  EventLoop.journal
    (EventLoop.run Scenario.zero_random Scenario.slow_latency 2
       (EventLoop.boot Scenario.zero_random Scenario.slow_latency)) =
    [(0%Z, EventLoop.PassStarted 0); (0%Z, EventLoop.LoopRescheduled 0 60);
     (3600000%Z, EventLoop.PassStarted 1); (3600000%Z, EventLoop.LoopRescheduled 1 60)].
Proof. vm_compute. split_and!; reflexivity. Qed.

(** C6.  The filter applied to the combined pool of the shuffled search
    results and the home timeline removes exactly the tweets whose reply
    thread contains a tweet by the agent's username, and no others: the
    filtered pool is the combined pool without those tweets, in the same
    order; a tweet is in it exactly when it is in the combined pool and no
    tweet of its thread is by the agent.  This filtered pool is the one put
    in the prompt that a pass sends to the model. *)
Theorem C6_thread_exclusion_filter (E : Env) (slicedTweets homeTimeline : list Tweet) :
  promptPool E slicedTweets homeTimeline =
    without_agent_threads (twitterUsername E) (slicedTweets ++ homeTimeline)%list /\
  (forall t,
     t ∈ promptPool E slicedTweets homeTimeline <->
     t ∈ (slicedTweets ++ homeTimeline)%list /\
     ~ exists reply, reply ∈ thread t /\ username reply = twitterUsername E) /\
  sublist (promptPool E slicedTweets homeTimeline) (slicedTweets ++ homeTimeline)%list /\
  (forall w,
     pass_prompt E w =
       selectionPrompt E (pass_searchTerm E w) (pass_slicedTweets E w) (fetchHomeTimeline E) /\
     (no_fault E -> pass_slicedTweets E w <> [] ->
      GenerateText (pass_prompt E w) SMALL ∈ trace (snd (engageWithSearchTerms E w)))).
Proof.
  assert (Hbot : forall t,
    JS.find (fun r => String.eqb (username r) (twitterUsername E)) (thread t) = None <->
    ~ exists reply, reply ∈ thread t /\ username reply = twitterUsername E).
  { intros t. rewrite JSFacts.find_None. split.
    - intros Hnone (reply & Hin & Heq). apply Hnone in Hin.
      apply String.eqb_neq in Hin. done.
    - intros Hno reply Hin. apply String.eqb_neq. intros Heq. apply Hno. by exists reply. }
  split_and!.
  - unfold promptPool, without_agent_threads.
    generalize (slicedTweets ++ homeTimeline)%list. intros l.
    induction l as [|t l IH]; [reflexivity |].
    rewrite filter_cons. simpl. rewrite IH. unfold notInBotThread.
    specialize (Hbot t). rewrite <- Exists_exists in Hbot.
    destruct (JS.find _ (thread t)) as [b|].
    + rewrite decide_False; [done |]. intros Hno. apply Hbot in Hno. discriminate.
    + rewrite decide_True; [done |]. by apply Hbot.
  - intros t. unfold promptPool. rewrite !list_elem_of_In, filter_In.
    unfold notInBotThread. specialize (Hbot t).
    destruct (JS.find _ (thread t)) as [b|].
    + split; [intros [_ ?]; discriminate |]. intros [_ Hno]. exfalso.
      assert (Some b = None -> False) by discriminate. tauto.
    + split; intros [Hin _]; (split; [done | tauto]).
  - unfold promptPool. generalize (slicedTweets ++ homeTimeline)%list. intros l.
    induction l as [|t l IH]; simpl; [constructor |].
    destruct (notInBotThread E t); by constructor.
  - intros w. split; [reflexivity |]. apply pass_prompts.
Qed.




(** C8.  Validation accepts every concept whose four properties are
    strings, whose name has at most 32 characters and whose ticker consists
    of 3 to 5 letters of either case.  The ticker of every concept that
    [getTopTrendAndGenerateToken] returns is in upper case (and the concept
    satisfies the validity invariant).  For the parsed answer with name X,
    ticker xyz, description d and imagePrompt p, when no call fails and [t]
    is the first unused trend, the function returns that concept with the
    ticker XYZ and the source trend [t]. *)
Theorem C8_ticker_uppercased (E : Env) (w : World) :
  (forall fields name_ ticker description imagePrompt,
     fields !! "name" = Some (JS.JStr name_) ->
     fields !! "ticker" = Some (JS.JStr ticker) ->
     fields !! "description" = Some (JS.JStr description) ->
     fields !! "imagePrompt" = Some (JS.JStr imagePrompt) ->
     valid_concept name_ ticker ->
     validateTokenInfo (JS.JObj fields) = inr true) /\
  (forall tokenInfo w',
     getTopTrendAndGenerateToken E w = (Ok (Some tokenInfo), w') ->
     exists parsed_ticker,
       field tokenInfo "ticker" = JS.toUpperCase parsed_ticker /\
       JS.every JS.is_upper (field tokenInfo "ticker") = true /\
       valid_concept (field tokenInfo "name") (field tokenInfo "ticker")) /\
  (forall t,
     no_fault E ->
     first_absent (UsedTrendsLog w) (getTrends E) t ->
     t <> "" ->
     JSON_parse E (generateText E (tokenPrompt t) LARGE) = inr (Scenario.concept "xyz") ->
     exists w',
       getTopTrendAndGenerateToken E w =
         (Ok (Some (JS.object
                      [("name", JS.JStr "X"); ("ticker", JS.JStr "XYZ");
                       ("description", JS.JStr "d"); ("imagePrompt", JS.JStr "p");
                       ("sourceTrend", JS.JStr t)])), w')).
Proof.
  split_and!.
  - intros fields name_ ticker description imagePrompt Hn Ht Hd Hi Hvalid.
    apply validateTokenInfo_true. by exists fields, name_, ticker, description, imagePrompt.
  - intros tokenInfo w' Hrun.
    apply getTopTrendAndGenerateToken_inv in Hrun as (x & [= <-] & t & _ & _ & Hacc & _).
    apply accepted_concept in Hacc as (ticker & _ & Hup & Hupper & Hvalid). by exists ticker.
  - intros t Hnf Hfirst Hne Hparse.
    destruct (getTopTrendAndGenerateToken_accepts E w t
                (JS.object
                   [("name", JS.JStr "X"); ("ticker", JS.JStr "XYZ");
                    ("description", JS.JStr "d"); ("imagePrompt", JS.JStr "p");
                    ("sourceTrend", JS.JStr t)]) Hnf Hfirst Hne) as (w' & Hrun & _).
    + exists (Scenario.concept "xyz"),
             (JS.JObj (<["sourceTrend" := JS.JStr t]>
                         (list_to_map [("name", JS.JStr "X"); ("ticker", JS.JStr "xyz");
                                       ("description", JS.JStr "d"); ("imagePrompt", JS.JStr "p")]))),
             "xyz".
      split_and!; [done | reflexivity | vm_compute; reflexivity | vm_compute; reflexivity
                  | vm_compute; reflexivity].
    + by exists w'.
Qed.

(** The scenario of C8, with Web3 as the first unused trend. *)
Lemma C8_ticker_uppercased_witness :
  exists w',
    getTopTrendAndGenerateToken Scenario.env_xyz Scenario.world_AI =
      (Ok (Some (JS.object
                   [("name", JS.JStr "X"); ("ticker", JS.JStr "XYZ");
                    ("description", JS.JStr "d"); ("imagePrompt", JS.JStr "p");
                    ("sourceTrend", JS.JStr "Web3")])), w').
Proof.
  apply (C8_ticker_uppercased Scenario.env_xyz Scenario.world_AI).
  - intros n. reflexivity.
  - exists [Scenario.trend "AI"; Scenario.trend "AI"], (Scenario.trend "Web3"), [].
    split; [reflexivity |]. split; [reflexivity |]. split.
    + vm_compute. intros H. inversion H as [|? ? ? H']; subst. inversion H'.
    + intros x Hx. vm_compute.
      inversion Hx as [|? ? ? Hx']; subst; [left |].
      inversion Hx' as [|? ? ? Hx'']; subst; [left |]. inversion Hx''.
  - discriminate.
  - reflexivity.
Defined.

(** C9 (amended).  An empty topic list is not guarded against: the search
    term of the pass is then undefined, and the pass goes on, sleeps and
    asks the social client for the search results of the undefined term,
    whatever the collaborators do. *)
Theorem C9_no_guard_on_empty_topics (E : Env) (w : World) :
  topics E = [] ->
  pass_searchTerm E w = None /\
  exists suffix,
    trace (snd (engageWithSearchTerms E w)) =
    (trace w ++ [Sleep 5000; FetchSearchTweets None 20 Top] ++ suffix)%list.
Proof.
  intros Htopics.
  assert (Hterm : pass_searchTerm E w = None).
  { unfold pass_searchTerm. rewrite Htopics. simpl.
    by rewrite JSFacts.floor_random_times_0. }
  split; [done |]. rewrite <- Hterm. apply pass_fetches.
Qed.

(** A character without topics. *)
Lemma C9_no_guard_on_empty_topics_witness :
  pass_searchTerm Scenario.env_no_topics Scenario.world0 = None /\
  exists suffix,
    trace (snd (engageWithSearchTerms Scenario.env_no_topics Scenario.world0)) =
    ([] ++ [Sleep 5000; FetchSearchTweets None 20 Top] ++ suffix)%list.
Proof.
  apply (C9_no_guard_on_empty_topics Scenario.env_no_topics Scenario.world0).
  reflexivity.
Defined.

(** C9 as stated fails: with an empty topic list, the second step of the
    pass is the request for the search results of the undefined term. *)
Lemma C9_fetches_undefined_topic :
  topics Scenario.env_no_topics = [] /\
  nth_error (trace (snd (engageWithSearchTerms Scenario.env_no_topics Scenario.world0))) 1
    = Some (FetchSearchTweets None 20 Top).
Proof. vm_compute. split; reflexivity. Qed.

(** C10.  When the answer of the model trims to the empty string and the
    pool is not empty, the containment match resolves to the first tweet of
    the pool, since every id contains the empty string: the pass does not
    end with "no match", every exit it takes short of an error is about that
    tweet, and when no call fails, the tweet is not the agent's own and has
    text, and the model writes a reply, the pass hands its reply to
    [sendTweet] (with the trimmed answer, the empty string, as the id to
    reply to) and records the tweet as responded. *)
Theorem C10_empty_answer_selects_first (E : Env) (w : World) (t : Tweet) (rest : list Tweet) :
  pass_tweetId E w = "" ->
  pass_slicedTweets E w = t :: rest ->
  JS.find (matchesTweetId (pass_tweetId E w)) (pass_slicedTweets E w) = Some t /\
  (forall r w',
     engageWithSearchTerms E w = (r, w') ->
     exists x, r = Ok x /\ x <> NoMatchingTweet /\ (x = PassError \/ selected_of x = Some t)) /\
  (no_fault E ->
   username t <> twitterUsername E ->
   truthy (text t) <> None ->
   (forall context, content_text (generateMessageResponse E context) <> "") ->
   exists w', engageWithSearchTerms E w = (Ok (Responded t), w') /\
              id t ∈ respondedTweets w' /\
              reply_sent E "" w').
Proof.
  intros Hempty Hpool.
  assert (Hfind : JS.find (matchesTweetId (pass_tweetId E w)) (pass_slicedTweets E w) = Some t).
  { rewrite Hempty, Hpool. simpl. unfold matchesTweetId.
    by rewrite JSFacts.includes_empty. }
  split_and!; [done | |].
  - intros r w' Hrun. apply pass_inv in Hrun as (x & -> & Hx). exists x. split; [done |].
    destruct Hx as [[-> _] | [Hsel _]]; [split; [done | by left] |].
    unfold selection_outcome in Hsel. rewrite Hfind, Hpool in Hsel.
    split; [by intros -> | by right].
  - intros Hnf Hown Htext Hreply. rewrite <- Hempty. by apply pass_responds.
Qed.

(** The model answers white space; the first tweet of the pool is replied to. *)
Lemma C10_empty_answer_selects_first_witness :
  exists w',
    engageWithSearchTerms Scenario.env_blank Scenario.world0 = (Ok (Responded Scenario.bob), w') /\
    id Scenario.bob ∈ respondedTweets w' /\
    reply_sent Scenario.env_blank "" w'.
Proof.
  apply (C10_empty_answer_selects_first Scenario.env_blank Scenario.world0
           Scenario.bob [Scenario.alice]).
  - reflexivity.
  - reflexivity.
  - intros n. reflexivity.
  - discriminate.
  - discriminate.
  - intros context. discriminate.
Defined.

(** * Further properties of the code *)

(** ** Storing and announcing a concept *)

Section StoreFacts.

Variable E : Env.

(** Every way [storeTokenInfo] can end. *)
Lemma storeTokenInfo_inv (tokenInfo : JS.value) (w : World) r w' :
  storeTokenInfo E tokenInfo w = (r, w') ->
  let n := length (trace w) in
  match fault E n, fault E (S n) with
  | Some e, _ =>
      r = Throw e /\ cache_objects w' = cache_objects w /\
      trace w' = (trace w ++ [CacheGet generated_tokens_key])%list /\ logs w' = logs w
  | None, Some e =>
      r = Throw e /\ cache_objects w' = cache_objects w /\
      trace w' = (trace w ++ [CacheGet generated_tokens_key; CacheSet generated_tokens_key])%list /\
      logs w' = logs w
  | None, None =>
      r = Ok tt /\
      cache_objects w' =
        <[generated_tokens_key := (GeneratedTokens w ++ [tokenInfo])%list]> (cache_objects w) /\
      if ANNOUNCE_NEW_TOKENS E then
        trace w' = (trace w ++ [CacheGet generated_tokens_key; CacheSet generated_tokens_key;
                                TwitterSendTweet (announcementOf tokenInfo)])%list /\
        match fault E (S (S n)) with
        | Some e => logs w' = (logs w ++ [(LogError, ("Error announcing new token: " ++ JS.message e)%string)])%list
        | None => logs w' = (logs w ++ [(LogInfo, "Token announcement tweeted:")])%list
        end
      else
        trace w' = (trace w ++ [CacheGet generated_tokens_key; CacheSet generated_tokens_key])%list /\
        logs w' = logs w
  end.
Proof.
  unfold storeTokenInfo, cache_get_objects, cache_set_objects.
  unfold bind at 1. rewrite ext_run. simpl.
  destruct (fault E (length (trace w))) as [e|].
  { intros [= <- <-]. by split_and!. }
  cbn [fst snd]. unfold bind at 1. rewrite ext_run. cbn [fst snd trace set_trace].
  rewrite length_app. simpl. rewrite Nat.add_1_r.
  destruct (fault E (S (length (trace w)))) as [e|].
  { intros [= <- <-]. split_and!; try done. simpl. by rewrite <- app_assoc. }
  fold (announcementOf tokenInfo).
  destruct (ANNOUNCE_NEW_TOKENS E).
  - unfold try_catch. unfold bind at 1. rewrite call_run. cbn [trace set_trace set_cache_objects].
    rewrite !length_app. simpl. rewrite Nat.add_1_r. rewrite Nat.add_1_r.
    destruct (fault E (S (S (length (trace w))))) as [e|].
    + unfold log. intros [= <- <-]. split_and!; try done. simpl. by rewrite <- !app_assoc.
    + unfold log. intros [= <- <-]. split_and!; try done. simpl. by rewrite <- !app_assoc.
  - intros [= <- <-]. split_and!; try done. simpl. by rewrite <- !app_assoc.
Qed.

Lemma storeTokenInfo_preserves_strings (tokenInfo : JS.value) :
  preserves cache_strings (storeTokenInfo E tokenInfo).
Proof. unfold storeTokenInfo. frame. Qed.

End StoreFacts.



(** X2.  For a concept whose name, ticker and description are strings (as
    they are in every concept that the generator returns),
    [storeTokenInfo] announces the concept only when ANNOUNCE_NEW_TOKENS is
    set, only after it has stored the concept, and with the text of line
    216, in which the three strings stand.  When it returns normally, its
    calls are the read and the write of the cache, followed by the one tweet
    of the announcement when announcements are on.  When it throws, the
    error is that of one of its two cache calls, and the stored list is as
    it was. *)
Theorem X2_storeTokenInfo_announces (E : Env) (w : World) (tokenInfo : JS.value)
    (name_ ticker description : string) :
  JS.get_prop tokenInfo "name" = inr (Some (JS.JStr name_)) ->
  JS.get_prop tokenInfo "ticker" = inr (Some (JS.JStr ticker)) ->
  JS.get_prop tokenInfo "description" = inr (Some (JS.JStr description)) ->
  let announcement :=
    " New Token Alert! 🔥" ++ JS.nl ++ JS.nl ++ name_ ++ " ($" ++ ticker ++ ")" ++
    JS.nl ++ JS.nl ++ description ++ JS.nl ++ JS.nl ++ "#crypto #newtoken " in
  let r := fst (storeTokenInfo E tokenInfo w) in
  let w' := snd (storeTokenInfo E tokenInfo w) in
  exists suffix,
    trace w' = (trace w ++ suffix)%list /\
    (forall text_, TwitterSendTweet text_ ∈ suffix ->
       ANNOUNCE_NEW_TOKENS E = true /\ text_ = announcement /\
       GeneratedTokens w' = (GeneratedTokens w ++ [tokenInfo])%list) /\
    (r = Ok tt ->
     suffix =
       if ANNOUNCE_NEW_TOKENS E
       then [CacheGet generated_tokens_key; CacheSet generated_tokens_key;
             TwitterSendTweet announcement]
       else [CacheGet generated_tokens_key; CacheSet generated_tokens_key]) /\
    (forall e, r = Throw e ->
       GeneratedTokens w' = GeneratedTokens w /\
       (fault E (length (trace w)) = Some e \/ fault E (S (length (trace w))) = Some e)).
Proof.
  intros Hname Hticker Hdescription announcement r w'. subst r w'.
  assert (Htext : announcementOf tokenInfo = announcement).
  { unfold announcementOf, field. by rewrite Hname, Hticker, Hdescription. }
  rewrite <- Htext. clear Htext announcement.
  destruct (storeTokenInfo E tokenInfo w) as [r w'] eqn:Hrun.
  apply storeTokenInfo_inv in Hrun. cbv zeta in Hrun. cbn [fst snd].
  destruct (fault E (length (trace w))) as [e0|].
  { destruct Hrun as (-> & Hc & Ht & _). eexists. split; [exact Ht |]. split_and!.
    - intros text_ Hin. apply list_elem_of_singleton in Hin. discriminate.
    - discriminate.
    - intros e [= <-]. split; [|by left]. unfold GeneratedTokens. by rewrite Hc. }
  destruct (fault E (S (length (trace w)))) as [e1|].
  { destruct Hrun as (-> & Hc & Ht & _). eexists. split; [exact Ht |]. split_and!.
    - intros text_ Hin. apply elem_of_cons in Hin as [Hin|Hin]; [discriminate |].
      apply list_elem_of_singleton in Hin. discriminate.
    - discriminate.
    - intros e [= <-]. split; [|by right]. unfold GeneratedTokens. by rewrite Hc. }
  destruct Hrun as (-> & Hc & Hrest).
  assert (Hgen : GeneratedTokens w' = (GeneratedTokens w ++ [tokenInfo])%list).
  { unfold GeneratedTokens at 1. by rewrite Hc, lookup_insert_eq. }
  destruct (ANNOUNCE_NEW_TOKENS E).
  - destruct Hrest as [Ht _]. eexists. split; [exact Ht |]. split_and!; [| done | discriminate].
    intros text_ Hin.
    apply elem_of_cons in Hin as [Hin|Hin]; [discriminate |].
    apply elem_of_cons in Hin as [Hin|Hin]; [discriminate |].
    apply list_elem_of_singleton in Hin. by injection Hin as ->.
  - destruct Hrest as [Ht _]. eexists. split; [exact Ht |]. split_and!; [| done | discriminate].
    intros text_ Hin.
    apply elem_of_cons in Hin as [Hin|Hin]; [discriminate |].
    apply list_elem_of_singleton in Hin. discriminate.
Qed.

(** The announcement of the concept with name X, ticker XYZ and description
    d, when announcements are on and no call fails. *)
Lemma X2_storeTokenInfo_announces_witness :
  trace (snd (storeTokenInfo (Cases.announcing Scenario.env_xyz) Cases.concept_XYZ Scenario.world0)) =
    [CacheGet generated_tokens_key; CacheSet generated_tokens_key;
     TwitterSendTweet
       (" New Token Alert! 🔥" ++ JS.nl ++ JS.nl ++ "X ($XYZ)" ++ JS.nl ++ JS.nl ++ "d" ++
        JS.nl ++ JS.nl ++ "#crypto #newtoken ")].
Proof.
  destruct (X2_storeTokenInfo_announces (Cases.announcing Scenario.env_xyz) Scenario.world0
              Cases.concept_XYZ "X" "XYZ" "d") as (suffix & Ht & _ & Hok & _).
  - reflexivity.
  - reflexivity.
  - reflexivity.
  - rewrite Ht, Hok by reflexivity. reflexivity.
Defined.

(** ** Starting the plugin *)

(** X3.  [start] does not catch a failure of [storeTokenInfo].  When the
    generator has returned a concept and one of the two cache calls of
    [storeTokenInfo] fails, [start] throws the error of that call, before
    its last statement, which would start the engagement loop.  The trend of
    the concept is then in the used-trends log, and the concept is not in
    the list of generated tokens. *)
Theorem X3_start_does_not_catch_store_failure (E : Env) (w w1 : World)
    (tokenInfo : JS.value) (e : JS.Error) :
  getTopTrendAndGenerateToken E w = (Ok (Some tokenInfo), w1) ->
  fault E (length (trace w1)) = Some e \/
  (fault E (length (trace w1)) = None /\ fault E (S (length (trace w1))) = Some e) ->
  exists w',
    start E w = (Throw e, w') /\
    UsedTrendsLog w' = (UsedTrendsLog w ++ [field tokenInfo "sourceTrend"])%list /\
    GeneratedTokens w' = GeneratedTokens w.
Proof.
  intros Hgen Hfault. unfold start. unfold bind at 1. rewrite Hgen.
  unfold bind at 1. unfold log at 1.
  match goal with |- context [storeTokenInfo E tokenInfo ?w2] =>
    destruct (storeTokenInfo E tokenInfo w2) as [r w'] eqn:Hrun end.
  pose proof (storeTokenInfo_preserves_strings E tokenInfo _ _ _ Hrun) as Hs.
  apply storeTokenInfo_inv in Hrun. cbv zeta in Hrun. simpl in Hrun, Hs.
  pose proof (generator_preserves_objects E _ _ _ Hgen) as Ho.
  apply getTopTrendAndGenerateToken_inv in Hgen as (x & [= <-] & t & _ & _ & Hacc & Hlog).
  apply accepted_concept in Hacc as (_ & -> & _).
  assert (Hres : r = Throw e /\ cache_objects w' = cache_objects w1).
  { destruct Hfault as [H0 | [H0 H1]].
    - rewrite H0 in Hrun. by destruct Hrun as (-> & Hc & _).
    - rewrite H0, H1 in Hrun. by destruct Hrun as (-> & Hc & _). }
  destruct Hres as [-> Hc]. exists w'. split_and!; [done | |].
  - rewrite <- Hlog. unfold UsedTrendsLog. by rewrite Hs.
  - unfold GeneratedTokens. by rewrite Hc, Ho.
Qed.

(** The generator succeeds and the cache read of [storeTokenInfo] fails. *)
Lemma X3_start_does_not_catch_store_failure_witness :
  exists w',
    start Cases.env_store_fails Scenario.world_AI = (Throw Scenario.network_error, w') /\
    UsedTrendsLog w' = (UsedTrendsLog Scenario.world_AI ++ [field Cases.concept_XYZ "sourceTrend"])%list /\
    GeneratedTokens w' = GeneratedTokens Scenario.world_AI.
Proof.
  eapply (X3_start_does_not_catch_store_failure Cases.env_store_fails Scenario.world_AI
            (snd (getTopTrendAndGenerateToken Cases.env_store_fails Scenario.world_AI))
            Cases.concept_XYZ Scenario.network_error).
  - vm_compute. reflexivity.
  - left. vm_compute. reflexivity.
Defined.

(** X4.  When [start] returns normally, the used-trends log and the list of
    generated tokens are in step: both are as they were, or the log has
    gained the first unused trend and the list has gained a concept made
    for that trend, which satisfies the validity invariant. *)
Theorem X4_start_keeps_stores_in_step (E : Env) (w w' : World) :
  start E w = (Ok tt, w') ->
  (UsedTrendsLog w' = UsedTrendsLog w /\ GeneratedTokens w' = GeneratedTokens w) \/
  (exists tokenInfo,
     first_absent (UsedTrendsLog w) (getTrends E) (field tokenInfo "sourceTrend") /\
     UsedTrendsLog w' = (UsedTrendsLog w ++ [field tokenInfo "sourceTrend"])%list /\
     GeneratedTokens w' = (GeneratedTokens w ++ [tokenInfo])%list /\
     valid_concept (field tokenInfo "name") (field tokenInfo "ticker")).
Proof.
  unfold start. unfold bind at 1.
  destruct (getTopTrendAndGenerateToken E w) as [rg w1] eqn:Hgen.
  pose proof (generator_preserves_objects E _ _ _ Hgen) as Ho.
  apply getTopTrendAndGenerateToken_inv in Hgen as (x & -> & Hx).
  destruct x as [tokenInfo|].
  - destruct Hx as (t & Hfirst & _ & Hacc & Hlog).
    apply accepted_concept in Hacc as (ticker & Hsrc & _ & _ & Hvalid).
    unfold bind at 1. unfold log at 1.
    match goal with |- context [storeTokenInfo E tokenInfo ?w2] =>
      destruct (storeTokenInfo E tokenInfo w2) as [r w2'] eqn:Hrun end.
    pose proof (storeTokenInfo_preserves_strings E tokenInfo _ _ _ Hrun) as Hs.
    apply storeTokenInfo_inv in Hrun. cbv zeta in Hrun. simpl in Hrun, Hs.
    intros [= -> ->]. right. exists tokenInfo. rewrite Hsrc.
    destruct (fault E (length (trace w1))); [by destruct Hrun |].
    destruct (fault E (S (length (trace w1)))); [by destruct Hrun |].
    destruct Hrun as (_ & Hc & _). split_and!; [done | | | done].
    + rewrite <- Hlog. unfold UsedTrendsLog. by rewrite Hs.
    + unfold GeneratedTokens at 1. rewrite Hc, lookup_insert_eq.
      unfold GeneratedTokens. simpl. by rewrite Ho.
  - intros [= <-]. left. unfold UsedTrendsLog, GeneratedTokens. by rewrite Hx, Ho.
Qed.

(** A start in the scenario of the trends AI, AI, Web3. *)
Lemma X4_start_keeps_stores_in_step_witness :
  (UsedTrendsLog (snd (start Scenario.env_xyz Scenario.world_AI)) = UsedTrendsLog Scenario.world_AI /\
   GeneratedTokens (snd (start Scenario.env_xyz Scenario.world_AI)) =
     GeneratedTokens Scenario.world_AI) \/
  (exists tokenInfo,
     first_absent (UsedTrendsLog Scenario.world_AI) (getTrends Scenario.env_xyz)
       (field tokenInfo "sourceTrend") /\
     UsedTrendsLog (snd (start Scenario.env_xyz Scenario.world_AI)) =
       (UsedTrendsLog Scenario.world_AI ++ [field tokenInfo "sourceTrend"])%list /\
     GeneratedTokens (snd (start Scenario.env_xyz Scenario.world_AI)) =
       (GeneratedTokens Scenario.world_AI ++ [tokenInfo])%list /\
     valid_concept (field tokenInfo "name") (field tokenInfo "ticker")).
Proof.
  apply (X4_start_keeps_stores_in_step Scenario.env_xyz Scenario.world_AI
           (snd (start Scenario.env_xyz Scenario.world_AI))).
  vm_compute. reflexivity.
Defined.

(** ** The used-trends log in a session *)

Lemma generator_grows_by_fresh (E : Env) (w : World) :
  grows_by_fresh w (snd (getTopTrendAndGenerateToken E w)).
Proof.
  destruct (getTopTrendAndGenerateToken E w) as [r w'] eqn:Hrun.
  apply getTopTrendAndGenerateToken_inv in Hrun as (x & -> & Hx). simpl.
  destruct x as [tokenInfo|].
  - destruct Hx as (t & (_ & _ & _ & _ & _ & Hnot & _) & _ & _ & Hlog). right. by exists t.
  - left. unfold UsedTrendsLog. by rewrite Hx.
Qed.

Lemma handler_grows_by_fresh (E : Env) (state : State) (callback : option HandlerCallback)
    (w : World) :
  grows_by_fresh w (snd (handler E state callback w)).
Proof.
  destruct (handler E state callback w) as [r w'] eqn:Hrun.
  apply handler_inv in Hrun as [[_ Hc] | (t & tok & _ & _ & Hnot & _ & _ & _ & Hlog)]; simpl.
  - left. unfold UsedTrendsLog. by rewrite Hc.
  - right. by exists t.
Qed.

Lemma pass_preserves_strings (E : Env) : preserves cache_strings (engageWithSearchTerms E).
Proof. unfold engageWithSearchTerms, engageWithSearchTerms_body, replyTo. frame. Qed.

Lemma pass_preserves_objects (E : Env) : preserves cache_objects (engageWithSearchTerms E).
Proof. unfold engageWithSearchTerms, engageWithSearchTerms_body, replyTo. frame. Qed.

Lemma start_grows_by_fresh (E : Env) (w : World) : grows_by_fresh w (snd (start E w)).
Proof.
  unfold start. unfold bind at 1.
  pose proof (generator_grows_by_fresh E w) as Hg.
  destruct (getTopTrendAndGenerateToken E w) as [[[tokenInfo|]|e] w1]; simpl in *; try done.
  unfold bind at 1. unfold log at 1.
  match goal with |- context [storeTokenInfo E tokenInfo ?w2] =>
    destruct (storeTokenInfo E tokenInfo w2) as [r w2'] eqn:Hrun end.
  apply storeTokenInfo_preserves_strings in Hrun. simpl in *.
  unfold grows_by_fresh, UsedTrendsLog in *. by rewrite Hrun.
Qed.

Lemma invocation_grows_by_fresh (i : Invocation) (w : World) :
  grows_by_fresh w (run_invocation i w).
Proof.
  destruct i as [E|E|E state callback|E]; simpl.
  - apply start_grows_by_fresh.
  - apply generator_grows_by_fresh.
  - apply handler_grows_by_fresh.
  - left. destruct (engageWithSearchTerms E w) as [r w'] eqn:Hrun.
    apply pass_preserves_strings in Hrun. unfold UsedTrendsLog. simpl. by rewrite Hrun.
Qed.

(** X5.  In a session, that is any sequence of runs of [start], of the
    generator, of the handler and of the pass, each in an environment of its
    own, on one world, the used-trends log only grows, by at most one trend
    for each run, and no run appends a trend that the log holds: what is
    appended is without duplicates and disjoint from the log at the start.
    A log without duplicates stays without duplicates. *)
Theorem X5_used_trends_log_never_repeats (l : list Invocation) (w : World) :
  exists added,
    UsedTrendsLog (session l w) = (UsedTrendsLog w ++ added)%list /\
    NoDup added /\
    (forall t, t ∈ added -> t ∉ UsedTrendsLog w) /\
    (length added <= length l)%nat /\
    (NoDup (UsedTrendsLog w) -> NoDup (UsedTrendsLog (session l w))).
Proof.
  assert (Hmain : exists added,
    UsedTrendsLog (session l w) = (UsedTrendsLog w ++ added)%list /\
    NoDup added /\
    (forall t, t ∈ added -> t ∉ UsedTrendsLog w) /\
    (length added <= length l)%nat).
  { revert w. induction l as [|i l IH]; intros w.
    - exists []. simpl. rewrite app_nil_r. split_and!; [done | constructor | | done].
      intros t Ht. inversion Ht.
    - simpl. destruct (IH (run_invocation i w)) as (added & Hlog & Hnd & Hfresh & Hlen).
      destruct (invocation_grows_by_fresh i w) as [Hsame | (t & Hnot & Hgrow)].
      + exists added. rewrite Hlog, Hsame. split_and!; [done | done | | lia].
        intros t Ht. rewrite <- Hsame. by apply Hfresh.
      + exists (t :: added). rewrite Hlog, Hgrow, <- app_assoc. simpl.
        split_and!; [done | | | lia].
        * constructor; [|done]. intros Hin. apply Hfresh in Hin. apply Hin.
          rewrite Hgrow. apply elem_of_app. right. left.
        * intros x Hx. apply elem_of_cons in Hx as [-> | Hx]; [done |].
          apply Hfresh in Hx. intros Hin. apply Hx. rewrite Hgrow. apply elem_of_app. by left. }
  destruct Hmain as (added & Hlog & Hnd & Hfresh & Hlen).
  exists added. split_and!; try done.
  intros Hw. rewrite Hlog. apply NoDup_app. split_and!; [done | | done].
  intros x Hx Hin. by apply (Hfresh x Hin).
Qed.

(** ** The handler, step by step *)

Section LaunchFacts.

Variable E : Env.

(** The type guard accepts objects only. *)
Lemma isTrendingTokenContent_object (content : JS.value) :
  isTrendingTokenContent content = inr true -> exists fields, content = JS.JObj fields.
Proof.
  destruct content as [| | | | |fields]; try (vm_compute; discriminate). by exists fields.
Qed.

(** Without failing calls, with an unused top trend and an answer that
    passes the type guard, the [try] block of the handler reaches its
    callback with the token deployed and both stores written. *)
Lemma handler_body_launches (state : State) (callback : option HandlerCallback) (w : World)
    (t : string) (tokenInfo : JS.value) :
  no_fault E ->
  truthy (topTrend E) = Some t ->
  t ∉ UsedTrendsLog w ->
  JSON_parse E (generateText E (handlerContext E state t) LARGE) = inr tokenInfo ->
  isTrendingTokenContent tokenInfo = inr true ->
  exists w1,
    handler_body E state callback w =
      (invoke callback (successResponse tokenInfo t) ;; ret true) w1 /\
    cache_strings w1 = <[used_trends_key := (UsedTrendsLog w ++ [t])%list]> (cache_strings w) /\
    cache_objects w1 =
      <[launched_tokens_key :=
          (LaunchedTokens w ++ [launchedRecord tokenInfo (mintAddress E) (Date_now E)])%list]>
        (cache_objects w) /\
    trace w1 = (trace w ++ launchCalls E state t tokenInfo)%list /\
    logs w1 = logs w /\ cache_text w1 = cache_text w /\
    unhandled w1 = unhandled w /\ respondedTweets w1 = respondedTweets w.
Proof.
  intros Hnf Htop Hnot Hparse Hguard.
  apply JSFacts.array_includes_false in Hnot.
  unfold handler_body.
  unfold bind at 1. rewrite call_run, Hnf.
  unfold bind at 1. rewrite call_run, Hnf.
  fold (topTrend E). rewrite Htop.
  unfold cache_get_strings.
  unfold bind at 1. rewrite ext_run, Hnf. cbn [fst snd].
  change (cache_strings (set_trace _ (set_trace _ (set_trace _ w))) !! "twitter/used_trends")
    with (cache_strings w !! used_trends_key).
  fold (UsedTrendsLog w). rewrite Hnot.
  fold (handlerContext E state t).
  unfold bind at 1. rewrite call_run, Hnf.
  unfold bind at 1. rewrite Hparse. cbn [lift ret].
  unfold bind at 1. rewrite Hguard. cbn [lift ret negb].
  unfold bind at 1. rewrite call_run, Hnf.
  unfold bind at 1. rewrite call_run, Hnf.
  unfold bind at 1. rewrite call_run, Hnf.
  unfold bind at 1. rewrite call_run, Hnf.
  unfold bind at 1. rewrite call_run, Hnf.
  unfold cache_set_strings.
  unfold bind at 1. rewrite ext_run, Hnf. cbn [fst snd].
  unfold cache_get_objects.
  unfold bind at 1. rewrite ext_run, Hnf. cbn [fst snd].
  unfold cache_set_objects.
  unfold bind at 1. rewrite ext_run, Hnf. cbn [fst snd].
  eexists. split; [reflexivity |].
  split_and!; try reflexivity.
  simpl. unfold launchCalls. by rewrite <- !app_assoc.
Qed.

End LaunchFacts.

(** X6.  When no call fails, the callback does not throw, the top trend is
    named and unused, and the answer of the model parses to a value that
    passes the type guard, the handler returns [true]; its calls are those
    of [launchCalls], in that order, followed by the call of the callback,
    when there is one, with the message of success; the trend is the last
    entry of the used-trends log and the record of the launch the last entry
    of the list under "twitter/launched_tokens".  The record carries the
    mint address and the time of the launch, and every other property of the
    answer. *)
Theorem X6_handler_launches (E : Env) (state : State) (callback : option HandlerCallback)
    (w : World) (t : string) (tokenInfo : JS.value) :
  no_fault E ->
  quiet callback ->
  truthy (topTrend E) = Some t ->
  t ∉ UsedTrendsLog w ->
  JSON_parse E (generateText E (handlerContext E state t) LARGE) = inr tokenInfo ->
  isTrendingTokenContent tokenInfo = inr true ->
  exists w',
    handler E state callback w = (Ok true, w') /\
    trace w' =
      (trace w ++ launchCalls E state t tokenInfo ++
       callbackCalls callback [successResponse tokenInfo t])%list /\
    UsedTrendsLog w' = (UsedTrendsLog w ++ [t])%list /\
    LaunchedTokens w' =
      (LaunchedTokens w ++ [launchedRecord tokenInfo (mintAddress E) (Date_now E)])%list /\
    field (launchedRecord tokenInfo (mintAddress E) (Date_now E)) "mintAddress" = mintAddress E /\
    number_field (launchedRecord tokenInfo (mintAddress E) (Date_now E)) "timestamp" = Date_now E /\
    (forall key, key <> "mintAddress" -> key <> "timestamp" ->
       JS.get_prop (launchedRecord tokenInfo (mintAddress E) (Date_now E)) key =
       JS.get_prop tokenInfo key).
Proof.
  intros Hnf Hq Htop Hnot Hparse Hguard.
  destruct (handler_body_launches E state callback
              (logged LogInfo "Starting CREATE_TRENDING_TOKEN handler..." w) t tokenInfo
              Hnf Htop Hnot Hparse Hguard)
    as (w1 & Hbody & Hs & Ho & Ht & _).
  unfold handler. unfold bind at 1. unfold log at 1. unfold try_catch.
  fold (logged LogInfo "Starting CREATE_TRENDING_TOKEN handler..." w). rewrite Hbody.
  destruct (isTrendingTokenContent_object _ Hguard) as (fields & ->).
  assert (Hrecord :
    field (launchedRecord (JS.JObj fields) (mintAddress E) (Date_now E)) "mintAddress" = mintAddress E /\
    number_field (launchedRecord (JS.JObj fields) (mintAddress E) (Date_now E)) "timestamp" = Date_now E /\
    (forall key, key <> "mintAddress" -> key <> "timestamp" ->
       JS.get_prop (launchedRecord (JS.JObj fields) (mintAddress E) (Date_now E)) key =
       JS.get_prop (JS.JObj fields) key)).
  { unfold field, number_field. cbn [launchedRecord JS.get_prop]. split_and!.
    - rewrite (lookup_insert_ne _ "timestamp" "mintAddress") by discriminate.
      by rewrite lookup_insert_eq.
    - by rewrite lookup_insert_eq.
    - intros key H1 H2. by rewrite !lookup_insert_ne. }
  destruct Hrecord as (Hr1 & Hr2 & Hr3).
  assert (Hstores : forall w',
    cache_strings w' = cache_strings w1 -> cache_objects w' = cache_objects w1 ->
    UsedTrendsLog w' = (UsedTrendsLog w ++ [t])%list /\
    LaunchedTokens w' =
      (LaunchedTokens w ++ [launchedRecord (JS.JObj fields) (mintAddress E) (Date_now E)])%list).
  { intros w' Hs' Ho'. unfold UsedTrendsLog at 1, LaunchedTokens at 1.
    rewrite Hs', Ho', Hs, Ho, !lookup_insert_eq. done. }
  unfold invoke. destruct callback as [cb|].
  - unfold bind at 1. unfold bind at 1. unfold tick at 1.
    rewrite (Hq cb _ eq_refl). unfold ret. eexists. split; [reflexivity |].
    destruct (Hstores (set_trace (fun t0 => (t0 ++ [InvokeCallback (successResponse (JS.JObj fields) t)])%list) w1)
                eq_refl eq_refl) as [Hl1 Hl2].
    split_and!; try done.
    all: simpl; rewrite Ht; simpl; by rewrite <- app_assoc.
  - unfold bind, ret. eexists. split; [reflexivity |].
    destruct (Hstores w1 eq_refl eq_refl) as [Hl1 Hl2].
    split_and!; try done.
    all: rewrite Ht; simpl; by rewrite app_nil_r.
Qed.

(** The handler on the single trend AI, without a callback. *)
Lemma X6_handler_launches_witness :
  exists w',
    handler Scenario.env_action ∅ None Scenario.world0 = (Ok true, w') /\
    UsedTrendsLog w' = ["AI"] /\
    LaunchedTokens w' =
      [launchedRecord Scenario.content_TOOLONG1 (mintAddress Scenario.env_action)
         (Date_now Scenario.env_action)].
Proof.
  destruct (X6_handler_launches Scenario.env_action ∅ None Scenario.world0 "AI"
              Scenario.content_TOOLONG1) as (w' & Hrun & _ & Hlog & Hlaunched & _).
  - intros n. reflexivity.
  - intros cb response Hcb. discriminate.
  - reflexivity.
  - vm_compute. intros H. inversion H.
  - reflexivity.
  - reflexivity.
  - exists w'. by split_and!.
Defined.

(** X7.  When the trend list is empty, or the name of its first trend is
    empty (whatever the trends after it), the handler asks neither the cache
    nor the model: after the two calls that fetch the trends it logs "No
    trending topics found", reports that message through the callback, and
    returns [false] (or throws what the callback throws); the cache is as it
    was. *)
Theorem X7_handler_without_top_trend (E : Env) (state : State)
    (callback : option HandlerCallback) (w : World) :
  fault E (length (trace w)) = None ->
  fault E (S (length (trace w))) = None ->
  getTrends E = [] \/ (exists tr rest, getTrends E = tr :: rest /\ trend_name tr = "") ->
  let response := errorResponse (JS.mkError "No trending topics found") in
  let r := fst (handler E state callback w) in
  let w' := snd (handler E state callback w) in
  r = match callback with
      | None => Ok false
      | Some cb => match cb response with Thrown e => Throw e | _ => Ok false end
      end /\
  trace w' =
    (trace w ++ [GetService "TWITTER_CLIENT"; GetTrends] ++ callbackCalls callback [response])%list /\
  logs w' =
    (logs w ++ [(LogInfo, "Starting CREATE_TRENDING_TOKEN handler...");
                (LogError, "Error in CREATE_TRENDING_TOKEN: No trending topics found")])%list /\
  cache_strings w' = cache_strings w /\ cache_objects w' = cache_objects w.
Proof.
  intros H0 H1 Htrends response r w'. subst r w'.
  assert (Htop : truthy (topTrend E) = None).
  { unfold topTrend. destruct Htrends as [-> | (tr & rest & -> & Hname)]; [done |].
    simpl. by rewrite Hname. }
  assert (Hrun : exists w',
    handler E state callback w =
      (match callback with
       | None => Ok false
       | Some cb => match cb response with Thrown e => Throw e | _ => Ok false end
       end, w') /\
    trace w' =
      (trace w ++ [GetService "TWITTER_CLIENT"; GetTrends] ++ callbackCalls callback [response])%list /\
    logs w' =
      (logs w ++ [(LogInfo, "Starting CREATE_TRENDING_TOKEN handler...");
                  (LogError, "Error in CREATE_TRENDING_TOKEN: No trending topics found")])%list /\
    cache_strings w' = cache_strings w /\ cache_objects w' = cache_objects w).
  { unfold handler. unfold bind at 1. unfold log at 1. unfold try_catch.
    unfold handler_body.
    unfold bind at 1. rewrite call_run. cbn [trace set_logs]. rewrite H0.
    unfold bind at 1. rewrite call_run. cbn [trace set_trace].
    rewrite length_app. simpl. rewrite Nat.add_1_r, H1.
    fold (topTrend E). rewrite Htop. unfold throw.
    unfold bind at 1. unfold log at 1.
    fold (errorResponse (JS.mkError "No trending topics found")). fold response.
    unfold invoke. destruct callback as [cb|].
    - unfold bind at 1. unfold bind at 1. unfold tick at 1.
      destruct (cb response) as [|e|e]; cbn [fst snd].
      + unfold ret. eexists. split; [reflexivity |]. simpl.
        split_and!; try done; by rewrite <- ?app_assoc.
      + unfold throw. eexists. split; [reflexivity |]. simpl.
        split_and!; try done; by rewrite <- ?app_assoc.
      + unfold abandon, bind, ret. eexists. split; [reflexivity |]. simpl.
        split_and!; try done; by rewrite <- ?app_assoc.
    - unfold bind, ret. eexists. split; [reflexivity |]. simpl.
      split_and!; try done; by rewrite <- ?app_assoc. }
  destruct Hrun as (w' & -> & Hrest). cbn [fst snd]. by split.
Qed.

(** The handler when there is no trend. *)
Lemma X7_handler_without_top_trend_witness :
  fst (handler Scenario.env_no_trends ∅ None Scenario.world0) = Ok false /\
  trace (snd (handler Scenario.env_no_trends ∅ None Scenario.world0)) =
    [GetService "TWITTER_CLIENT"; GetTrends].
Proof.
  destruct (X7_handler_without_top_trend Scenario.env_no_trends ∅ None Scenario.world0)
    as (Hr & Ht & _).
  - reflexivity.
  - reflexivity.
  - by left.
  - by split.
Defined.

(** X8.  A callback that throws when it is told of the success is called a
    second time, with the message of its own error, and the handler returns
    [false], although the token is deployed, the trend is in the used-trends
    log and the launch is recorded. *)
Theorem X8_handler_callback_called_twice (E : Env) (state : State) (cb : HandlerCallback)
    (w : World) (t : string) (tokenInfo : JS.value) (e : JS.Error) :
  no_fault E ->
  truthy (topTrend E) = Some t ->
  t ∉ UsedTrendsLog w ->
  JSON_parse E (generateText E (handlerContext E state t) LARGE) = inr tokenInfo ->
  isTrendingTokenContent tokenInfo = inr true ->
  cb (successResponse tokenInfo t) = Thrown e ->
  cb (errorResponse e) = Returned ->
  exists w',
    handler E state (Some cb) w = (Ok false, w') /\
    trace w' =
      (trace w ++ launchCalls E state t tokenInfo ++
       [InvokeCallback (successResponse tokenInfo t); InvokeCallback (errorResponse e)])%list /\
    UsedTrendsLog w' = (UsedTrendsLog w ++ [t])%list /\
    LaunchedTokens w' =
      (LaunchedTokens w ++ [launchedRecord tokenInfo (mintAddress E) (Date_now E)])%list.
Proof.
  intros Hnf Htop Hnot Hparse Hguard Hthrow Hquiet.
  destruct (handler_body_launches E state (Some cb)
              (logged LogInfo "Starting CREATE_TRENDING_TOKEN handler..." w) t tokenInfo
              Hnf Htop Hnot Hparse Hguard)
    as (w1 & Hbody & Hs & Ho & Ht & _).
  unfold handler. unfold bind at 1. unfold log at 1. unfold try_catch.
  fold (logged LogInfo "Starting CREATE_TRENDING_TOKEN handler..." w). rewrite Hbody.
  unfold invoke at 1. unfold bind at 1. unfold bind at 1. unfold tick at 1.
  rewrite Hthrow. unfold throw.
  unfold bind at 1. unfold log at 1.
  fold (errorResponse e).
  unfold invoke. unfold bind at 1. unfold bind at 1. unfold tick at 1.
  rewrite Hquiet. unfold ret. eexists. split; [reflexivity |].
  split_and!.
  - simpl. rewrite Ht. simpl. by rewrite <- !app_assoc.
  - unfold UsedTrendsLog at 1. simpl. by rewrite Hs, lookup_insert_eq.
  - unfold LaunchedTokens at 1. simpl. by rewrite Ho, lookup_insert_eq.
Qed.

(** The handler with a callback that throws when it is told of a success. *)
Lemma X8_handler_callback_called_twice_witness :
  exists w',
    handler Scenario.env_action ∅ (Some Cases.success_averse) Scenario.world0 = (Ok false, w') /\
    UsedTrendsLog w' = ["AI"].
Proof.
  destruct (X8_handler_callback_called_twice Scenario.env_action ∅ Cases.success_averse
              Scenario.world0 "AI" Scenario.content_TOOLONG1 Scenario.callback_error)
    as (w' & Hrun & _ & Hlog & _).
  - intros n. reflexivity.
  - reflexivity.
  - vm_compute. intros H. inversion H.
  - reflexivity.
  - reflexivity.
  - reflexivity.
  - reflexivity.
  - exists w'. by split.
Defined.

(** X9.  The type guard [isTrendingTokenContent] accepts exactly the
    objects whose properties trend, name, symbol, description and uri hold
    strings and whose property decimals holds a number, whatever else the
    object holds; it throws on [null] and on no other value. *)
Theorem X9_isTrendingTokenContent_spec (content : JS.value) :
  (isTrendingTokenContent content = inr true <->
   exists fields trend_ name_ symbol description uri decimals,
     content = JS.JObj fields /\
     fields !! "trend" = Some (JS.JStr trend_) /\
     fields !! "name" = Some (JS.JStr name_) /\
     fields !! "symbol" = Some (JS.JStr symbol) /\
     fields !! "description" = Some (JS.JStr description) /\
     fields !! "uri" = Some (JS.JStr uri) /\
     fields !! "decimals" = Some (JS.JNum decimals)) /\
  ((exists e, isTrendingTokenContent content = inl e) <-> content = JS.JNull).
Proof.
  split.
  - split.
    + intros H. destruct (isTrendingTokenContent_object _ H) as (fields & ->).
      unfold isTrendingTokenContent, and_then in H. cbn [JS.get_prop] in H.
      assert (Hb := f_equal (fun x : JS.Error + bool => match x with inr b => b | inl _ => false end) H).
      cbv beta iota in Hb. clear H.
      rewrite !andb_true_iff in Hb. destruct Hb as (((((H1 & H2) & H3) & H4) & H5) & H6).
      destruct (fields !! "trend") as [[| | |s1| |]|] eqn:E0; try (simpl in *; discriminate).
      destruct (fields !! "name") as [[| | |s2| |]|] eqn:E1; try (simpl in *; discriminate).
      destruct (fields !! "symbol") as [[| | |s3| |]|] eqn:E2; try (simpl in *; discriminate).
      destruct (fields !! "description") as [[| | |s4| |]|] eqn:E3; try (simpl in *; discriminate).
      destruct (fields !! "uri") as [[| | |s5| |]|] eqn:E4; try (simpl in *; discriminate).
      destruct (fields !! "decimals") as [[| |n| | |]|] eqn:E5; try (simpl in *; discriminate).
      by exists fields, s1, s2, s3, s4, s5, n.
    + intros (fields & s1 & s2 & s3 & s4 & s5 & n & -> & H1 & H2 & H3 & H4 & H5 & H6).
      unfold isTrendingTokenContent, and_then. cbn [JS.get_prop].
      by rewrite H1, H2, H3, H4, H5, H6.
  - split.
    + intros (e & H). destruct content; try (vm_compute in H; discriminate); done.
    + intros ->. by eexists.
Qed.

(** ** What the handler has not done when it gives up *)

Section HandlerAborts.

Variable E : Env.
Hypothesis Hnf : no_fault E.

(** The handler, once its [try] block has thrown [e] in the world [w1],
    when the callback does not throw. *)
Lemma handler_reports (state : State) (callback : option HandlerCallback) (w w1 : World)
    (e : JS.Error) :
  quiet callback ->
  handler_body E state callback (logged LogInfo "Starting CREATE_TRENDING_TOKEN handler..." w)
    = (Throw e, w1) ->
  exists w',
    handler E state callback w = (Ok false, w') /\
    trace w' = (trace w1 ++ callbackCalls callback [errorResponse e])%list /\
    cache_strings w' = cache_strings w1 /\ cache_objects w' = cache_objects w1.
Proof.
  intros Hq Hbody.
  unfold handler. unfold bind at 1. unfold log at 1. unfold try_catch.
  fold (logged LogInfo "Starting CREATE_TRENDING_TOKEN handler..." w). rewrite Hbody.
  unfold bind at 1. unfold log at 1. fold (errorResponse e).
  unfold invoke. destruct callback as [cb|].
  - unfold bind at 1. unfold bind at 1. unfold tick at 1.
    rewrite (Hq cb _ eq_refl). unfold ret. eexists. split; [reflexivity |]. by split_and!.
  - unfold bind, ret. eexists. split; [reflexivity |]. simpl. by rewrite app_nil_r.
Qed.

End HandlerAborts.

(** X10.  When no call fails and the callback does not throw, a handler
    whose top trend is already used returns [false] after its read of the
    log, without asking the model; a handler whose answer does not parse, or
    fails the type guard, returns [false] after its call to the model.  In
    both cases no setting is read, nothing is deployed and the cache is as
    it was, and the callback is told the error once. *)
Theorem X10_handler_aborts_before_deploying (E : Env) (state : State)
    (callback : option HandlerCallback) (w : World) (t : string) :
  no_fault E ->
  quiet callback ->
  truthy (topTrend E) = Some t ->
  (t ∈ UsedTrendsLog w ->
   exists w',
     handler E state callback w = (Ok false, w') /\
     trace w' =
       (trace w ++ [GetService "TWITTER_CLIENT"; GetTrends; CacheGet used_trends_key] ++
        callbackCalls callback [errorResponse (JS.mkError "Top trend already used")])%list /\
     cache_strings w' = cache_strings w /\ cache_objects w' = cache_objects w) /\
  (t ∉ UsedTrendsLog w ->
   forall e,
     JSON_parse E (generateText E (handlerContext E state t) LARGE) = inl e \/
     (exists tokenInfo,
        JSON_parse E (generateText E (handlerContext E state t) LARGE) = inr tokenInfo /\
        (isTrendingTokenContent tokenInfo = inl e \/
         (isTrendingTokenContent tokenInfo = inr false /\
          e = JS.mkError "Invalid token content generated"))) ->
   exists w',
     handler E state callback w = (Ok false, w') /\
     trace w' =
       (trace w ++ [GetService "TWITTER_CLIENT"; GetTrends; CacheGet used_trends_key;
                    GenerateText (handlerContext E state t) LARGE] ++
        callbackCalls callback [errorResponse e])%list /\
     cache_strings w' = cache_strings w /\ cache_objects w' = cache_objects w).
Proof.
  intros Hnf Hq Htop. split.
  - intros Hused. apply JSFacts.array_includes_elem_of in Hused.
    destruct (handler_reports E state callback w
                (set_trace (fun tr => (tr ++ [GetService "TWITTER_CLIENT"; GetTrends;
                                              CacheGet used_trends_key])%list)
                   (logged LogInfo "Starting CREATE_TRENDING_TOKEN handler..." w))
                (JS.mkError "Top trend already used") Hq) as (w' & Hrun & Ht & Hs & Ho).
    + unfold handler_body.
      unfold bind at 1. rewrite call_run, Hnf.
      unfold bind at 1. rewrite call_run, Hnf.
      fold (topTrend E). rewrite Htop.
      unfold cache_get_strings.
      unfold bind at 1. rewrite ext_run, Hnf. cbn [fst snd].
      change (cache_strings (set_trace _ (set_trace _ (set_trace _ (logged _ _ w)))) !! "twitter/used_trends")
        with (cache_strings w !! used_trends_key).
      fold (UsedTrendsLog w). rewrite Hused. unfold throw. f_equal.
      unfold set_trace, logged, set_logs. simpl. by rewrite <- !app_assoc.
    + exists w'. split; [done |]. split_and!; [| done | done].
      rewrite Ht. simpl. by rewrite <- !app_assoc.
  - intros Hnot e Hcause. apply JSFacts.array_includes_false in Hnot.
    destruct (handler_reports E state callback w
                (set_trace (fun tr => (tr ++ [GetService "TWITTER_CLIENT"; GetTrends;
                                              CacheGet used_trends_key;
                                              GenerateText (handlerContext E state t) LARGE])%list)
                   (logged LogInfo "Starting CREATE_TRENDING_TOKEN handler..." w))
                e Hq) as (w' & Hrun & Ht & Hs & Ho).
    + unfold handler_body.
      unfold bind at 1. rewrite call_run, Hnf.
      unfold bind at 1. rewrite call_run, Hnf.
      fold (topTrend E). rewrite Htop.
      unfold cache_get_strings.
      unfold bind at 1. rewrite ext_run, Hnf. cbn [fst snd].
      change (cache_strings (set_trace _ (set_trace _ (set_trace _ (logged _ _ w)))) !! "twitter/used_trends")
        with (cache_strings w !! used_trends_key).
      fold (UsedTrendsLog w). rewrite Hnot.
      fold (handlerContext E state t).
      unfold bind at 1. rewrite call_run, Hnf.
      assert (Hw : forall x : outcome bool,
        (x, set_trace (fun t0 => (t0 ++ [GenerateText (handlerContext E state t) LARGE])%list)
              (set_trace (fun t0 => (t0 ++ [CacheGet "twitter/used_trends"])%list)
                 (set_trace (fun t0 => (t0 ++ [GetTrends])%list)
                    (set_trace (fun t0 => (t0 ++ [GetService "TWITTER_CLIENT"])%list)
                       (logged LogInfo "Starting CREATE_TRENDING_TOKEN handler..." w))))) =
        (x, set_trace (fun tr => (tr ++ [GetService "TWITTER_CLIENT"; GetTrends;
                                         CacheGet used_trends_key;
                                         GenerateText (handlerContext E state t) LARGE])%list)
              (logged LogInfo "Starting CREATE_TRENDING_TOKEN handler..." w))).
      { intros x. f_equal. unfold set_trace, logged, set_logs. simpl. by rewrite <- !app_assoc. }
      destruct Hcause as [Hparse | (tokenInfo & Hparse & [Hguard | [Hguard ->]])].
      * unfold bind at 1. rewrite Hparse. cbn [lift throw]. apply Hw.
      * unfold bind at 1. rewrite Hparse. cbn [lift ret].
        unfold bind at 1. rewrite Hguard. cbn [lift throw]. apply Hw.
      * unfold bind at 1. rewrite Hparse. cbn [lift ret].
        unfold bind at 1. rewrite Hguard. cbn [lift ret negb]. unfold throw. apply Hw.
    + exists w'. split; [done |]. split_and!; [| done | done].
      rewrite Ht. simpl. by rewrite <- !app_assoc.
Qed.

(** The top trend AI is in the log. *)
Lemma X10_handler_aborts_before_deploying_witness :
  exists w',
    handler Scenario.env_xyz ∅ None Scenario.world_AI = (Ok false, w') /\
    trace w' = [GetService "TWITTER_CLIENT"; GetTrends; CacheGet used_trends_key].
Proof.
  destruct (X10_handler_aborts_before_deploying Scenario.env_xyz ∅ None Scenario.world_AI "AI")
    as [Hused _].
  - intros n. reflexivity.
  - intros cb response Hcb. discriminate.
  - reflexivity.
  - destruct Hused as (w' & Hrun & Ht & _); [vm_compute; left |].
    exists w'. by split.
Defined.

(** ** A deployment is not undone *)

(** Two extensions of the trace are one. *)
Lemma set_trace_app (l1 l2 : list Call) (w : World) :
  set_trace (fun t => (t ++ l2)%list) (set_trace (fun t => (t ++ l1)%list) w) =
  set_trace (fun t => (t ++ (l1 ++ l2))%list) w.
Proof. unfold set_trace. cbn [trace cache_strings cache_objects cache_text logs draws
         unhandled respondedTweets]. by rewrite <- app_assoc. Qed.

Ltac idx :=
  cbn [trace set_trace logged set_logs]; rewrite ?length_app; cbn [length];
  match goal with N := _ |- _ => unfold N end; lia.

(** X27.  A deployment is not undone.  When every call succeeds but the
    write of the used-trends log that follows [deployToken] (the tenth call
    of the handler), the callback does not throw, the top trend is named and
    unused and the answer of the model passes the type guard, the handler
    returns [false] and reports the error once, yet the token has been
    deployed; neither the used-trends log nor the list of launched tokens
    has changed, so that the trend is still unused for the next run. *)
Theorem X27_deployment_is_not_rolled_back (E : Env) (state : State)
    (callback : option HandlerCallback) (w : World) (t : string) (tokenInfo : JS.value)
    (e : JS.Error) :
  let N := (length (trace w) + 9)%nat in
  (forall n, n <> N -> fault E n = None) ->
  fault E N = Some e ->
  quiet callback ->
  truthy (topTrend E) = Some t ->
  t ∉ UsedTrendsLog w ->
  JSON_parse E (generateText E (handlerContext E state t) LARGE) = inr tokenInfo ->
  isTrendingTokenContent tokenInfo = inr true ->
  exists w',
    handler E state callback w = (Ok false, w') /\
    trace w' =
      (trace w ++ firstn 10 (launchCalls E state t tokenInfo) ++
       callbackCalls callback [errorResponse e])%list /\
    nth_error (trace w') (length (trace w) + 8) =
      Some (DeployToken (field tokenInfo "name") (field tokenInfo "uri")
                        (field tokenInfo "symbol") (number_field tokenInfo "decimals")) /\
    nth_error (trace w') N = Some (CacheSet used_trends_key) /\
    UsedTrendsLog w' = UsedTrendsLog w /\
    LaunchedTokens w' = LaunchedTokens w.
Proof.
  intros N Hothers HN Hq Htop Hnot Hparse Hguard.
  apply JSFacts.array_includes_false in Hnot.
  assert (Hok : forall n, (n < N)%nat -> fault E n = None) by (intros n Hn; apply Hothers; lia).
  destruct (handler_reports E state callback w
              (set_trace (fun tr => (tr ++ firstn 10 (launchCalls E state t tokenInfo))%list)
                 (logged LogInfo "Starting CREATE_TRENDING_TOKEN handler..." w))
              e Hq) as (w' & Hrun & Ht & Hs & Ho).
  - unfold handler_body.
    unfold bind at 1. rewrite call_run, Hok by idx.
    unfold bind at 1. rewrite call_run, Hok by idx.
    fold (topTrend E). rewrite Htop.
    unfold cache_get_strings.
    unfold bind at 1. rewrite ext_run, Hok by idx.
    cbn [fst snd].
    change (cache_strings (set_trace _ (set_trace _ (set_trace _ (logged _ _ w)))) !! "twitter/used_trends")
      with (cache_strings w !! used_trends_key).
    fold (UsedTrendsLog w). rewrite Hnot.
    fold (handlerContext E state t).
    unfold bind at 1. rewrite call_run, Hok by idx.
    unfold bind at 1. rewrite Hparse. cbn [lift ret].
    unfold bind at 1. rewrite Hguard. cbn [lift ret negb].
    unfold bind at 1. rewrite call_run, Hok by idx.
    unfold bind at 1. rewrite call_run, Hok by idx.
    unfold bind at 1. rewrite call_run, Hok by idx.
    unfold bind at 1. rewrite call_run, Hok by idx.
    unfold bind at 1. rewrite call_run, Hok by idx.
    unfold cache_set_strings.
    unfold bind at 1. rewrite ext_run.
    match goal with |- context [fault E ?n] => replace n with N by (symmetry; idx) end.
    rewrite HN. unfold launchCalls.
    generalize (handlerContext E state t). intros context.
    generalize (DeployToken (field tokenInfo "name") (field tokenInfo "uri")
                  (field tokenInfo "symbol") (number_field tokenInfo "decimals")).
    intros deploy. apply f_equal.
    rewrite !set_trace_app. reflexivity.
  - exists w'. split; [done |].
    assert (Htrace : trace w' =
      (trace w ++ firstn 10 (launchCalls E state t tokenInfo) ++
       callbackCalls callback [errorResponse e])%list).
    { rewrite Ht. simpl. by rewrite <- !app_assoc. }
    split_and!; [done | | | |].
    + rewrite Htrace. rewrite nth_error_app2 by lia.
      replace (length (trace w) + 8 - length (trace w))%nat with 8%nat by lia. reflexivity.
    + rewrite Htrace. rewrite nth_error_app2 by (unfold N; lia).
      replace (N - length (trace w))%nat with 9%nat by (unfold N; lia). reflexivity.
    + unfold UsedTrendsLog. by rewrite Hs.
    + unfold LaunchedTokens. by rewrite Ho.
Qed.

(** The handler on the single trend AI, when the tenth call fails. *)
Lemma X27_deployment_is_not_rolled_back_witness :
  exists w',
    handler (Scenario.env (Cases.fault_at 9 Scenario.network_error) ["crypto"]
               [Scenario.trend "AI"] "the answer of the model" Scenario.content_TOOLONG1 [])
      ∅ None Scenario.world0 = (Ok false, w') /\
    nth_error (trace w') 8 = Some (DeployToken "X" "https://example.org/x.png" "TOOLONG1" 9) /\
    UsedTrendsLog w' = [].
Proof.
  destruct (X27_deployment_is_not_rolled_back
              (Scenario.env (Cases.fault_at 9 Scenario.network_error) ["crypto"]
                 [Scenario.trend "AI"] "the answer of the model" Scenario.content_TOOLONG1 [])
              ∅ None Scenario.world0 "AI" Scenario.content_TOOLONG1 Scenario.network_error)
    as (w' & Hrun & _ & Hdeploy & _ & Hlog & _).
  - intros n Hn. simpl in Hn. unfold Scenario.env, Cases.fault_at. simpl.
    apply Nat.eqb_neq in Hn. by rewrite Hn.
  - reflexivity.
  - intros cb response Hcb. discriminate.
  - reflexivity.
  - vm_compute. intros H. inversion H.
  - reflexivity.
  - reflexivity.
  - exists w'. by split_and!.
Defined.


(** ** The replies of a pass *)

Lemma replies_app (l1 l2 : list Call) : replies (l1 ++ l2) = (replies l1 ++ replies l2)%list.
Proof. apply List.filter_app. Qed.

Lemma sends_weaken {A : Type} (R R' : list Call -> Prop) (m : M A) :
  sends R m -> (forall l, R l -> R' l) -> sends R' m.
Proof.
  intros Hm HR w r w' Hrun. destruct (Hm _ _ _ Hrun) as (suffix & Ht & Hs).
  exists suffix. split; [done | by apply HR].
Qed.

Lemma silent_sends {A : Type} (R : list Call -> Prop) (m : M A) :
  silent m -> R [] -> sends R m.
Proof. intros Hm HR. eapply sends_weaken; [exact Hm |]. intros l Hl. by rewrite Hl. Qed.

Lemma silent_ret {A : Type} (a : A) : silent (ret a).
Proof. intros w r w' [= <- <-]. exists []. by rewrite app_nil_r. Qed.

Lemma silent_throw {A : Type} (e : JS.Error) : silent (@throw A e).
Proof. intros w r w' [= <- <-]. exists []. by rewrite app_nil_r. Qed.

Lemma silent_lift {A : Type} (r : JS.Error + A) : silent (lift r).
Proof. destruct r; [apply silent_throw | apply silent_ret]. Qed.

Lemma silent_log (level : LogLevel) (msg : string) : silent (log level msg).
Proof. intros w r w' [= <- <-]. exists []. by rewrite app_nil_r. Qed.

Lemma silent_Math_random (E : Env) : silent (Math_random E).
Proof. intros w r w' [= <- <-]. exists []. by rewrite app_nil_r. Qed.

Lemma silent_respondedTweets_add (tweetId : string) : silent (respondedTweets_add tweetId).
Proof. intros w r w' [= <- <-]. exists []. by rewrite app_nil_r. Qed.

Lemma silent_tick (c : Call) : is_reply c = false -> silent (tick c).
Proof. intros Hc w r w' [= <- <-]. exists [c]. split; [done |]. unfold replies. simpl. by rewrite Hc. Qed.

Lemma silent_ext (E : Env) {A : Type} (c : Call) (answer : World -> A * World) :
  is_reply c = false -> (forall w, trace (snd (answer w)) = trace w) -> silent (ext E c answer).
Proof.
  intros Hc Hanswer w r w'. rewrite ext_run.
  destruct (fault E _); intros [= <- <-]; exists [c];
    (split; [by rewrite ?Hanswer | unfold replies; simpl; by rewrite Hc]).
Qed.

Lemma silent_call (E : Env) {A : Type} (c : Call) (a : A) :
  is_reply c = false -> silent (call E c a).
Proof. intros Hc. by apply silent_ext. Qed.

Lemma silent_call_detached (E : Env) (c : Call) :
  is_reply c = false -> silent (call_detached E c).
Proof.
  intros Hc w r w'. unfold call_detached.
  destruct (fault E _); intros [= <- <-]; exists [c];
    (split; [done | unfold replies; simpl; by rewrite Hc]).
Qed.

(** A call of [sendTweet] is a reply, whether it fails or not. *)
Lemma sends_call (E : Env) {A : Type} (c : Call) (a : A) :
  is_reply c = true -> sends (fun l => l = [c]) (call E c a).
Proof.
  intros Hc w r w'. rewrite call_run. intros [= <- <-]. exists [c].
  split; [done |]. unfold replies. simpl. by rewrite Hc.
Qed.

Lemma sends_bind_l {A B : Type} (R : list Call -> Prop) (m : M A) (k : A -> M B) :
  silent m -> R [] -> (forall a, sends R (k a)) -> sends R (bind m k).
Proof.
  intros Hm HR Hk w r w'. unfold bind. destruct (m w) as [[a|e] w1] eqn:Hrun.
  - intros Hrun2. destruct (Hm _ _ _ Hrun) as (s1 & H1 & Hs1).
    destruct (Hk a _ _ _ Hrun2) as (s2 & H2 & Hs2). exists (s1 ++ s2)%list.
    split; [by rewrite H2, H1, app_assoc |]. by rewrite replies_app, Hs1.
  - intros [= <- <-]. destruct (Hm _ _ _ Hrun) as (s1 & H1 & Hs1).
    exists s1. split; [done |]. by rewrite Hs1.
Qed.

Lemma sends_bind_r {A B : Type} (R : list Call -> Prop) (m : M A) (k : A -> M B) :
  sends R m -> (forall a, silent (k a)) -> sends R (bind m k).
Proof.
  intros Hm Hk w r w'. unfold bind. destruct (m w) as [[a|e] w1] eqn:Hrun.
  - intros Hrun2. destruct (Hm _ _ _ Hrun) as (s1 & H1 & Hs1).
    destruct (Hk a _ _ _ Hrun2) as (s2 & H2 & Hs2). exists (s1 ++ s2)%list.
    split; [by rewrite H2, H1, app_assoc |]. by rewrite replies_app, Hs2, app_nil_r.
  - intros [= <- <-]. by apply (Hm _ _ _ Hrun).
Qed.

Lemma sends_try_catch {A : Type} (R : list Call -> Prop) (m : M A) (h : JS.Error -> M A) :
  sends R m -> (forall e, silent (h e)) -> sends R (try_catch m h).
Proof.
  intros Hm Hh w r w'. unfold try_catch. destruct (m w) as [[a|e] w1] eqn:Hrun.
  - intros [= <- <-]. by apply (Hm _ _ _ Hrun).
  - intros Hrun2. destruct (Hm _ _ _ Hrun) as (s1 & H1 & Hs1).
    destruct (Hh e _ _ _ Hrun2) as (s2 & H2 & Hs2). exists (s1 ++ s2)%list.
    split; [by rewrite H2, H1, app_assoc |]. by rewrite replies_app, Hs2, app_nil_r.
Qed.

Lemma silent_bind {A B : Type} (m : M A) (k : A -> M B) :
  silent m -> (forall a, silent (k a)) -> silent (bind m k).
Proof. intros Hm Hk. by apply sends_bind_l. Qed.

Lemma silent_try_catch {A : Type} (m : M A) (h : JS.Error -> M A) :
  silent m -> (forall e, silent (h e)) -> silent (try_catch m h).
Proof. intros Hm Hh. by apply sends_try_catch. Qed.

Lemma silent_for_of {A : Type} (l : list A) (body : A -> M unit) :
  (forall x, silent (body x)) -> silent (for_of l body).
Proof.
  intros Hbody. induction l as [|x l IH]; simpl.
  - apply silent_ret.
  - apply silent_bind; [apply Hbody | intros _; apply IH].
Qed.

Lemma silent_map_M {A B : Type} (f : A -> M B) (l : list A) :
  (forall x, silent (f x)) -> silent (map_M f l).
Proof.
  intros Hf. induction l as [|x l IH]; simpl.
  - apply silent_ret.
  - apply silent_bind; [apply Hf | intros y].
    apply silent_bind; [apply IH | intros ys; apply silent_ret].
Qed.

Ltac silent_step :=
  first
    [ apply silent_ret | apply silent_throw | apply silent_lift | apply silent_log
    | apply silent_Math_random | apply silent_respondedTweets_add
    | apply silent_tick; reflexivity
    | apply silent_call; reflexivity
    | apply silent_call_detached; reflexivity
    | apply silent_ext; [reflexivity | reflexivity]
    | apply silent_for_of; intros ?
    | apply silent_map_M; intros ?
    | apply silent_bind; [| intros ?]
    | apply silent_try_catch; [| intros ?]
    | match goal with |- silent (if ?b then _ else _) => destruct b end
    | match goal with |- silent (match ?x with _ => _ end) => destruct x end ].

Section ReplyFacts.

Variable E : Env.

(** What [replyTo] hands to [sendTweet]. *)
Lemma sends_replyTo (t : Tweet) (tweetId formatted : string) :
  sends (reply_rule E t tweetId) (replyTo E t tweetId formatted).
Proof.
  assert (Hnil : reply_rule E t tweetId []) by (by left).
  unfold replyTo.
  apply sends_bind_l; [apply silent_log | done | intros _].
  destruct (String.eqb (username t) (twitterUsername E)) eqn:Hown.
  { apply silent_sends; [|done]. repeat silent_step. }
  apply String.eqb_neq in Hown.
  apply sends_bind_l; [by apply silent_call | done | intros _].
  apply sends_bind_l; [by apply silent_call | done | intros _].
  destruct (truthy (text t)) as [message_text|] eqn:Htext.
  2:{ apply silent_sends; [|done]. repeat silent_step. }
  apply sends_bind_l; [repeat silent_step | done | intros tweetBackground].
  apply sends_bind_l; [by apply silent_call_detached | done | intros _].
  apply sends_bind_l; [repeat silent_step | done | intros imageDescriptions].
  apply sends_bind_l; [by apply silent_call | done | intros state].
  apply sends_bind_l; [by apply silent_call | done | intros _].
  match goal with |- context [GenerateMessageResponse ?c LARGE] => set (context := c) end.
  intros w r w'. unfold bind at 1. rewrite call_run.
  destruct (fault E _) as [e|].
  { intros [= <- <-]. exists [GenerateMessageResponse context LARGE]. split; [done | by left]. }
  cbn [content_text truthy].
  destruct (content_text (generateMessageResponse E context)) as [|c0 reply0] eqn:Hreply.
  { unfold bind, log, ret. intros [= <- <-]. simpl.
    exists [GenerateMessageResponse context LARGE]. split; [done | by left]. }
  intros Hrun.
  assert (Hrest : sends (reply_rule E t tweetId)
    (log LogInfo ("Bot would respond to tweet " ++ id t ++ " with: " ++ String c0 reply0) ;;
     try_catch
       (let! responseMessages :=
          call E (SendTweet (String c0 reply0)
                    (stringToUuid E (conversationId t ++ "-" ++ agentId E))
                    (twitterUsername E) tweetId)
               (sendTweet E (mkContent (String c0 reply0)
                               (Some (stringToUuid E (id t ++ "-" ++ agentId E))))) in
        call E UpdateRecentMessageState tt ;;
        for_of responseMessages (fun responseMessage => call E (CreateMemory responseMessage) tt) ;;
        call E UpdateRecentMessageState tt ;;
        call E (Evaluate (stringToUuid E (id t ++ "-" ++ agentId E))) tt ;;
        call E (ProcessActions (stringToUuid E (id t ++ "-" ++ agentId E))) tt ;;
        respondedTweets_add (id t) ;;
        cache_set_text E ("twitter/tweet_generation_" ++ id t ++ ".txt")
          (responseInfoOf context t message_text (String c0 reply0)) ;;
        call E Wait tt ;;
        ret (Responded t))
       (fun error =>
          log ConsoleError ("Error sending response post: " ++ JS.Error_toString error) ;;
          ret (SendFailed t)))).
  { apply sends_bind_l; [apply silent_log | done | intros _].
    apply sends_try_catch; [| intros e; repeat silent_step].
    eapply sends_weaken.
    - apply sends_bind_r; [by apply sends_call | intros responseMessages].
      unfold cache_set_text. repeat silent_step.
    - intros l Hl. cbv beta in Hl. subst l. right. exists (String c0 reply0). unfold roomIdOf.
      split_and!; [done | done | by rewrite Htext | done |]. exists context. by rewrite Hreply. }
  destruct (Hrest _ _ _ Hrun) as (suffix & Ht & Hs).
  exists (GenerateMessageResponse context LARGE :: suffix). split.
  - rewrite Ht. simpl. by rewrite <- app_assoc.
  - exact Hs.
Qed.

End ReplyFacts.

Section PassReplies.

Variable E : Env.

(** The replies of the [try] block of a pass that starts in [w]. *)
Lemma body_sends (w : World) r w' :
  engageWithSearchTerms_body E w = (r, w') ->
  exists suffix,
    trace w' = (trace w ++ suffix)%list /\
    (replies suffix = [] \/
     exists t,
       JS.find (matchesTweetId (pass_tweetId E w)) (pass_slicedTweets E w) = Some t /\
       reply_rule E t (pass_tweetId E w) (replies suffix)).
Proof.
  unfold engageWithSearchTerms_body.
  unfold bind at 1. unfold Math_random at 1.
  fold (pass_searchTerm E w).
  unfold bind at 1. unfold log at 1.
  unfold bind at 1. unfold tick at 1.
  unfold bind at 1. rewrite call_run. destruct (fault E _).
  { intros [= <- <-]. eexists. split; [simpl; by rewrite <- app_assoc | by left]. }
  fold (pass_slicedTweets E w).
  unfold bind at 1. unfold log at 1.
  unfold bind at 1. rewrite call_run. destruct (fault E _).
  { intros [= <- <-]. eexists. split; [simpl; by rewrite <- !app_assoc | by left]. }
  unfold bind at 1. rewrite call_run. destruct (fault E _).
  { intros [= <- <-]. eexists. split; [simpl; by rewrite <- !app_assoc | by left]. }
  fold (pass_prompt E w).
  destruct (pass_slicedTweets E w) as [|t0 pool] eqn:Hpool.
  { simpl. unfold bind, log, ret. intros [= <- <-].
    eexists. split; [simpl; by rewrite <- !app_assoc | by left]. }
  replace (length (t0 :: pool) =? 0)%nat with false by reflexivity.
  unfold bind at 1. rewrite call_run. destruct (fault E _).
  { intros [= <- <-]. eexists. split; [simpl; by rewrite <- !app_assoc | by left]. }
  fold (pass_tweetId E w).
  destruct (JS.find _ (t0 :: pool)) as [t|] eqn:Hfind.
  - intros Hrun. apply sends_replyTo in Hrun as (suffix & Ht & Hs). simpl in Ht.
    exists ([Sleep 5000; FetchSearchTweets (pass_searchTerm E w) 20 Top; FetchHomeTimeline 50;
             CacheTimeline; GenerateText (pass_prompt E w) SMALL] ++ suffix)%list.
    split; [rewrite Ht; by rewrite <- !app_assoc |].
    rewrite replies_app. right. by exists t.
  - unfold bind, log, ret. intros [= <- <-].
    eexists. split; [simpl; by rewrite <- !app_assoc | by left].
Qed.

End PassReplies.

(** X11.  When the topic list is not empty (and, as every array, shorter
    than [2 ^ 32]) and the draw of [Math.random] is a double of the interval
    from 0 (included) to 1 (excluded), the search term of a pass is one of
    the topics, the one at the index [Math.floor] of the product of the
    draw and the length, as doubles multiply; it is the term that the pass
    asks the search for. *)
Theorem X11_search_term_is_a_topic (E : Env) (w : World) :
  topics E <> [] ->
  (Z.of_nat (length (topics E)) < 2 ^ 32)%Z ->
  JS.unit_interval (random E (draws w)) ->
  exists s,
    pass_searchTerm E w = Some s /\
    nth_error (topics E)
      (Z.to_nat (JS.floor (JS.times (random E (draws w)) (Z.of_nat (length (topics E))))))
      = Some s /\
    s ∈ topics E /\
    exists suffix,
      trace (snd (engageWithSearchTerms E w)) =
      (trace w ++ [Sleep 5000; FetchSearchTweets (Some s) 20 Top] ++ suffix)%list.
Proof.
  intros Htopics Hshort Hdraw.
  assert (Hlen : (1 <= Z.of_nat (length (topics E)) < JS.two53)%Z).
  { split; [destruct (topics E); [done | simpl; lia] |].
    eapply Z.lt_trans; [exact Hshort | by vm_compute]. }
  pose proof (JSFacts.floor_random_times_range _ _ Hdraw Hlen) as Hidx.
  unfold pass_searchTerm at 1, JS.index.
  destruct (JS.floor_random_times _ _ <? 0)%Z eqn:Hneg; [apply Z.ltb_lt in Hneg; lia |].
  destruct (nth_error (topics E) _) as [s|] eqn:Hnth.
  - exists s. split; [done |]. split; [done |]. split.
    + apply list_elem_of_In. by eapply nth_error_In.
    + assert (Hterm : pass_searchTerm E w = Some s).
      { unfold pass_searchTerm, JS.index. by rewrite Hneg. }
      rewrite <- Hterm. apply pass_fetches.
  - apply nth_error_None in Hnth. lia.
Qed.

(** Ten topics and the draw 0.7: the product of the doubles is 7, and the
    pass searches for the eighth topic. *)
Lemma X11_search_term_is_a_topic_witness :
  pass_searchTerm Cases.env_ten_topics Scenario.world0 = Some "t7".
Proof.
  destruct (X11_search_term_is_a_topic Cases.env_ten_topics Scenario.world0)
    as (s & Hs & Hnth & _).
  - discriminate.
  - reflexivity.
  - repeat split; vm_compute; first [reflexivity | discriminate].
  - rewrite Hs. vm_compute in Hnth. symmetry. exact Hnth.
Defined.

(** X12.  The pool of a pass holds at most 20 tweets, all of them taken
    from the shuffled search results.  Whatever tweet a pass works on is a
    tweet of that pool whose id matches the answer of the model; a tweet of
    the home timeline that is not in the pool is never worked on, although
    the prompt offers it to the model. *)
Theorem X12_selection_within_search_results (E : Env) (w : World) :
  (length (pass_slicedTweets E w) <= 20)%nat /\
  (forall t, t ∈ pass_slicedTweets E w ->
     t ∈ shuffle E (fetchSearchTweets E (pass_searchTerm E w))) /\
  (forall x t,
     fst (engageWithSearchTerms E w) = Ok x ->
     selected_of x = Some t ->
     t ∈ pass_slicedTweets E w /\ matches (pass_tweetId E w) t) /\
  (forall x t,
     fst (engageWithSearchTerms E w) = Ok x ->
     t ∈ fetchHomeTimeline E ->
     t ∉ pass_slicedTweets E w ->
     selected_of x <> Some t).
Proof.
  assert (Hsel : forall x t,
     fst (engageWithSearchTerms E w) = Ok x ->
     selected_of x = Some t ->
     t ∈ pass_slicedTweets E w /\ matches (pass_tweetId E w) t).
  { intros x t Hrun Hx.
    destruct (engageWithSearchTerms E w) as [r w'] eqn:Hpass. simpl in Hrun. subst r.
    apply pass_inv in Hpass as (x' & [= <-] & [[-> _] | [Hout _]]); [discriminate |].
    unfold selection_outcome in Hout.
    destruct (pass_slicedTweets E w) as [|t0 pool] eqn:Hpool; [by subst x |].
    destruct (JS.find _ (t0 :: pool)) as [t'|] eqn:Hfind; [|by subst x].
    assert (t' = t) as -> by congruence.
    apply JSFacts.find_Some in Hfind as (pre & post & Heq & Hm & _).
    split; [rewrite Heq; apply elem_of_app; right; left | by apply matchesTweetId_spec]. }
  split_and!.
  - unfold pass_slicedTweets, JS.slice0. apply firstn_le_length.
  - intros t Ht. unfold pass_slicedTweets, JS.slice0 in Ht.
    apply elem_of_take in Ht as (i & Hi & _). by eapply list_elem_of_lookup_2.
  - exact Hsel.
  - intros x t Hrun _ Hnot Hx. apply Hnot. by apply (Hsel x t).
Qed.

(** X13.  The code of a pass calls [sendTweet] at most once, whatever the
    collaborators answer.  (The closure that it hands to [processActions]
    is the runtime's to invoke; what the runtime does with it is no call of
    the pass.)  When it does, the pool holds a first tweet [t] that
    matches the answer of the model, [t] is not the agent's own and has
    text, the reply is the text that the model wrote and is not empty, the
    room is that of the conversation of [t], and the id to reply to is the
    trimmed answer of the model. *)
Theorem X13_pass_itself_replies_at_most_once (E : Env) (w : World) :
  exists suffix,
    trace (snd (engageWithSearchTerms E w)) = (trace w ++ suffix)%list /\
    (replies suffix = [] \/
     exists t,
       JS.find (matchesTweetId (pass_tweetId E w)) (pass_slicedTweets E w) = Some t /\
       reply_rule E t (pass_tweetId E w) (replies suffix)).
Proof.
  unfold engageWithSearchTerms. unfold bind at 1. unfold log at 1. unfold try_catch.
  destruct (engageWithSearchTerms_body E _) as [[x|e] w1] eqn:Hbody;
    apply body_sends in Hbody as (suffix & Ht & Hs); exists suffix.
  - split; [exact Ht | exact Hs].
  - unfold bind, log, ret. simpl. split; [exact Ht | exact Hs].
Qed.

(** ** The reply, step by step *)

Section PipelineFacts.

Variable E : Env.

(** Every call succeeds, but possibly the [N]-th. *)
Variable N : nat.
Hypothesis others_succeed : forall n, n <> N -> fault E n = None.

Lemma for_of_call_run {A : Type} (c : A -> Call) (l : list A) (w : World) :
  (N < length (trace w))%nat ->
  for_of l (fun x => call E (c x) tt) w =
    (Ok tt, set_trace (fun t => (t ++ map c l)%list) w).
Proof.
  revert w. induction l as [|x l IH]; intros w Hlt; simpl.
  - unfold ret. f_equal. destruct w. unfold set_trace. simpl. by rewrite app_nil_r.
  - unfold bind. rewrite call_run, others_succeed by lia. rewrite IH.
    + f_equal. unfold set_trace. simpl. by rewrite <- app_assoc.
    + simpl. rewrite length_app. simpl. lia.
Qed.

Lemma map_M_call_run {A B : Type} (c : A -> Call) (f : A -> B) (l : list A) (w : World) :
  (N < length (trace w))%nat ->
  map_M (fun x => call E (c x) (f x)) l w =
    (Ok (map f l), set_trace (fun t => (t ++ map c l)%list) w).
Proof.
  revert w. induction l as [|x l IH]; intros w Hlt; simpl.
  - unfold ret. f_equal. destruct w. unfold set_trace. simpl. by rewrite app_nil_r.
  - unfold bind at 1. rewrite call_run, others_succeed by lia. unfold bind at 1. rewrite IH.
    + unfold ret. f_equal. unfold set_trace. simpl. by rewrite <- app_assoc.
    + simpl. rewrite length_app. simpl. lia.
Qed.

Lemma describe_run (l : list Photo) (w : World) :
  (N < length (trace w))%nat ->
  map_M (fun photo =>
           call E (GetService "IMAGE_DESCRIPTION") tt ;;
           call E (DescribeImage (photo_url photo)) (describeImage E (photo_url photo))) l w =
    (Ok (map (fun photo => describeImage E (photo_url photo)) l),
     set_trace (fun t => (t ++ describeCalls l)%list) w).
Proof.
  revert w. induction l as [|x l IH]; intros w Hlt; simpl.
  - unfold ret. f_equal. destruct w. unfold set_trace. simpl. by rewrite app_nil_r.
  - unfold bind at 1. unfold bind at 1. rewrite call_run, others_succeed by lia.
    rewrite call_run, others_succeed by (simpl; rewrite length_app; simpl; lia).
    unfold bind at 1. rewrite IH.
    + unfold ret. f_equal. unfold set_trace. simpl. by rewrite <- !app_assoc.
    + simpl. rewrite !length_app. simpl. lia.
Qed.

Ltac index :=
  cbn [trace set_trace set_logs set_unhandled set_respondedTweets set_cache_text set_draws];
  rewrite ?length_app, ?length_map; cbn [length];
  first [ lia
        | match goal with H : N = _ |- _ => rewrite H end;
          match goal with |- context [isRetweet ?t] => destruct (isRetweet t) end;
          cbn [length]; lia ].

Ltac ok_call := unfold bind at 1; rewrite call_run; rewrite others_succeed by index.

(** The reply to a tweet that is not the agent's own and has text, when the
    model writes a reply and [N] is the index of the call of line 399. *)
Lemma replyTo_run (t : Tweet) (tweetId formatted message_text : string) (w : World) :
  N = (length (trace w) + 2 + (if isRetweet t then 1 else 0))%nat ->
  username t <> twitterUsername E ->
  truthy (text t) = Some message_text ->
  content_text (generateMessageResponse E (contextOf E t message_text formatted)) <> "" ->
  exists w',
    replyTo E t tweetId formatted w = (Ok (Responded t), w') /\
    trace w' =
      (trace w ++
       replyCalls E t tweetId (contextOf E t message_text formatted)
         (content_text (generateMessageResponse E (contextOf E t message_text formatted))))%list /\
    cache_text w' =
      <[generationKey t :=
          responseInfoOf (contextOf E t message_text formatted) t message_text
            (content_text (generateMessageResponse E (contextOf E t message_text formatted)))]>
        (cache_text w) /\
    respondedTweets w' = {[ id t ]} ∪ respondedTweets w /\
    unhandled w' = (unhandled w ++ rejected E N)%list /\
    cache_strings w' = cache_strings w /\ cache_objects w' = cache_objects w /\
    logs w' =
      (logs w ++
       replyLogs t
         (content_text (generateMessageResponse E (contextOf E t message_text formatted))))%list.
Proof.
  intros HN Hown Htext Hreply. apply String.eqb_neq in Hown.
  unfold replyTo.
  unfold bind at 1. unfold log at 1. rewrite Hown.
  ok_call. ok_call.
  rewrite Htext.
  unfold bind at 1.
  assert (Hbg : forall w0, (isRetweet t = true -> length (trace w0) <> N) ->
    (if isRetweet t
     then let! originalTweet := call E (GetTweet (id t)) (getTweet E (id t)) in
          ret ("Retweeting @" ++ username originalTweet ++ ": " ++ show (text originalTweet))
     else ret "") w0 =
    (Ok (tweetBackgroundOf E t),
     set_trace (fun tr => (tr ++ (if isRetweet t then [GetTweet (id t)] else []))%list) w0)).
  { intros w0 Hw0. unfold tweetBackgroundOf. destruct (isRetweet t).
    - unfold bind. rewrite call_run, others_succeed by (by apply Hw0). reflexivity.
    - unfold ret. f_equal. destruct w0. unfold set_trace. simpl. by rewrite app_nil_r. }
  rewrite Hbg by (intros Hrt; rewrite HN, Hrt; index).
  unfold bind at 1. unfold call_detached at 1.
  replace (length (trace (set_trace _ (set_trace _ (set_trace _ (set_logs _ w)))))) with N
    by index.
  fold (imageDescriptionsOf E t). fold (messageIdOf E t). fold (roomIdOf E t). fold (userIdOf E t).
  fold (searchTemplateOf E).
  assert (Hrest : forall w1,
    (N < length (trace w1))%nat ->
    exists w',
      (let! imageDescriptions :=
         map_M (fun photo =>
                  call E (GetService "IMAGE_DESCRIPTION") tt ;;
                  call E (DescribeImage (photo_url photo)) (describeImage E (photo_url photo)))
               (photos t) in
       let tweetContext :=
         tweetContextOf (tweetBackgroundOf E t) t message_text (replyContextOf E (thread t))
           imageDescriptions in
       let additionalKeys : State :=
         <["twitterUserName" := twitterUsername E]>
           (<["timeline" := formatted]> (<["tweetContext" := tweetContext]> ∅)) in
       let! state := call E (ComposeState (messageIdOf E t))
                          (composeState E (messageIdOf E t) additionalKeys) in
       call E (SaveRequestMessage (messageIdOf E t)) tt ;;
       let context := composeContext E state (searchTemplateOf E) in
       let! responseContent :=
         call E (GenerateMessageResponse context LARGE) (generateMessageResponse E context) in
       let responseContent := mkContent (content_text responseContent) (Some (messageIdOf E t)) in
       let response := responseContent in
       match truthy (Some (content_text response)) with
       | None =>
           log LogWarn "Returning: No response text found" ;;
           ret (NoResponseText t)
       | Some response_text =>
           log LogInfo ("Bot would respond to tweet " ++ id t ++ " with: " ++ response_text) ;;
           try_catch
             (let! responseMessages :=
                call E (SendTweet response_text (roomIdOf E t) (twitterUsername E) tweetId)
                     (sendTweet E responseContent) in
              call E UpdateRecentMessageState tt ;;
              for_of responseMessages (fun responseMessage => call E (CreateMemory responseMessage) tt) ;;
              call E UpdateRecentMessageState tt ;;
              call E (Evaluate (messageIdOf E t)) tt ;;
              call E (ProcessActions (messageIdOf E t)) tt ;;
              respondedTweets_add (id t) ;;
              let responseInfo := responseInfoOf context t message_text response_text in
              cache_set_text E ("twitter/tweet_generation_" ++ id t ++ ".txt") responseInfo ;;
              call E Wait tt ;;
              ret (Responded t))
             (fun error =>
                log ConsoleError ("Error sending response post: " ++ JS.Error_toString error) ;;
                ret (SendFailed t))
       end) w1 = (Ok (Responded t), w') /\
      trace w' =
        (trace w1 ++
         describeCalls (photos t) ++
         [ComposeState (messageIdOf E t); SaveRequestMessage (messageIdOf E t);
          GenerateMessageResponse (contextOf E t message_text formatted) LARGE;
          SendTweet (content_text (generateMessageResponse E (contextOf E t message_text formatted)))
            (roomIdOf E t) (twitterUsername E) tweetId;
          UpdateRecentMessageState] ++
         map CreateMemory
           (sendTweet E
              (mkContent (content_text (generateMessageResponse E (contextOf E t message_text formatted)))
                 (Some (messageIdOf E t)))) ++
         [UpdateRecentMessageState; Evaluate (messageIdOf E t); ProcessActions (messageIdOf E t);
          CacheSet (generationKey t); Wait])%list /\
      cache_text w' =
        <[generationKey t :=
            responseInfoOf (contextOf E t message_text formatted) t message_text
              (content_text (generateMessageResponse E (contextOf E t message_text formatted)))]>
          (cache_text w1) /\
      respondedTweets w' = {[ id t ]} ∪ respondedTweets w1 /\
      unhandled w' = unhandled w1 /\
      cache_strings w' = cache_strings w1 /\ cache_objects w' = cache_objects w1 /\
      logs w' =
        (logs w1 ++
         [(LogInfo,
           ("Bot would respond to tweet " ++ id t ++ " with: " ++
            content_text (generateMessageResponse E (contextOf E t message_text formatted)))%string)])%list).
  { intros w1 Hw1.
    unfold bind at 1. rewrite describe_run by done.
    fold (imageDescriptionsOf E t). cbv zeta.
    ok_call. ok_call.
    change (composeContext E (composeState E (messageIdOf E t) _) (searchTemplateOf E))
      with (contextOf E t message_text formatted).
    ok_call.
    cbn [content_text truthy].
    destruct (content_text (generateMessageResponse E (contextOf E t message_text formatted)))
      as [|c0 reply0] eqn:Hr; [done |].
    unfold bind at 1. unfold log at 1.
    unfold try_catch.
    ok_call. ok_call.
    unfold bind at 1. rewrite for_of_call_run by index.
    ok_call. ok_call. ok_call.
    unfold bind at 1. unfold respondedTweets_add at 1.
    unfold cache_set_text.
    unfold bind at 1. rewrite ext_run. rewrite others_succeed by index. cbn [fst snd].
    ok_call.
    unfold ret. eexists. split; [reflexivity |].
    split_and!; try reflexivity.
    cbn [trace set_trace set_logs set_unhandled set_respondedTweets set_cache_text].
    unfold generationKey. rewrite <- !app_assoc. reflexivity. }
  unfold rejected.
  destruct (fault E N) as [e|].
  - match goal with |- context [bind ?m ?k (set_unhandled ?g ?w1)] =>
      destruct (Hrest (set_unhandled g w1)) as (w' & Hrun & Ht & Hc & Hr & Hu & Hs & Ho & Hl);
        [index |]
    end.
    exists w'. split; [exact Hrun |].
    split_and!; try done.
    + rewrite Ht. cbn [trace set_trace set_logs set_unhandled].
      unfold replyCalls. by rewrite <- !app_assoc.
    + rewrite Hl. cbn [logs set_trace set_unhandled set_logs]. unfold replyLogs.
      by rewrite <- app_assoc.
  - match goal with |- context [bind ?m ?k ?w1] =>
      destruct (Hrest w1) as (w' & Hrun & Ht & Hc & Hr & Hu & Hs & Ho & Hl);
        [index |]
    end.
    exists w'. split; [exact Hrun |].
    split_and!; try done.
    + rewrite Ht. cbn [trace set_trace set_logs set_unhandled].
      unfold replyCalls. by rewrite <- !app_assoc.
    + rewrite Hu. simpl. by rewrite app_nil_r.
    + rewrite Hl. cbn [logs set_trace set_unhandled set_logs]. unfold replyLogs.
      by rewrite <- app_assoc.
Qed.

(** The same, for the whole pass. *)
Lemma pass_run (w : World) (t : Tweet) (message_text : string) :
  N = (length (trace w) + 7 + (if isRetweet t then 1 else 0))%nat ->
  JS.find (matchesTweetId (pass_tweetId E w)) (pass_slicedTweets E w) = Some t ->
  username t <> twitterUsername E ->
  truthy (text t) = Some message_text ->
  content_text (generateMessageResponse E
    (contextOf E t message_text (formatHomeTimeline E (fetchHomeTimeline E)))) <> "" ->
  exists w',
    engageWithSearchTerms E w = (Ok (Responded t), w') /\
    trace w' =
      (trace w ++ selectionCalls E w ++
       replyCalls E t (pass_tweetId E w)
         (contextOf E t message_text (formatHomeTimeline E (fetchHomeTimeline E)))
         (content_text (generateMessageResponse E
            (contextOf E t message_text (formatHomeTimeline E (fetchHomeTimeline E))))))%list /\
    cache_text w' =
      <[generationKey t :=
          responseInfoOf (contextOf E t message_text (formatHomeTimeline E (fetchHomeTimeline E)))
            t message_text
            (content_text (generateMessageResponse E
               (contextOf E t message_text (formatHomeTimeline E (fetchHomeTimeline E)))))]>
        (cache_text w) /\
    respondedTweets w' = {[ id t ]} ∪ respondedTweets w /\
    unhandled w' = (unhandled w ++ rejected E N)%list /\
    cache_strings w' = cache_strings w /\ cache_objects w' = cache_objects w /\
    logs w' =
      (logs w ++
       passLogs t
         (content_text (generateMessageResponse E
            (contextOf E t message_text (formatHomeTimeline E (fetchHomeTimeline E))))))%list.
Proof.
  intros HN Hfind Hown Htext Hreply.
  unfold engageWithSearchTerms, engageWithSearchTerms_body.
  unfold bind at 1. unfold log at 1. unfold try_catch.
  unfold bind at 1. unfold Math_random at 1.
  unfold bind at 1. unfold log at 1.
  unfold bind at 1. unfold tick at 1.
  ok_call.
  unfold bind at 1. unfold log at 1.
  ok_call. ok_call.
  change (draws (set_logs _ w)) with (draws w).
  fold (pass_searchTerm E w). fold (pass_slicedTweets E w). fold (pass_prompt E w).
  destruct (pass_slicedTweets E w) as [|t0 pool] eqn:Hpool; [discriminate |].
  replace (length (t0 :: pool) =? 0)%nat with false by reflexivity.
  ok_call.
  fold (pass_tweetId E w). rewrite Hfind.
  match goal with |- context [replyTo E t ?i ?f ?w1] =>
    destruct (replyTo_run t i f message_text w1)
      as (w' & Hrun & Ht & Hc & Hr & Hu & Hs & Ho & Hl);
      [index | done | done | done |]
  end.
  rewrite Hrun. exists w'. split; [done |].
  split_and!; try done.
  - rewrite Ht. cbn [trace set_trace set_logs set_draws]. unfold selectionCalls.
    by rewrite <- !app_assoc.
  - rewrite Hl. cbn [logs set_trace set_logs set_draws]. unfold passLogs.
    by rewrite <- !app_assoc.
Qed.

End PipelineFacts.

(** X14.  When no call fails, the selected tweet is not the agent's own and
    has text, and the model writes a reply, the calls of the pass are those
    of [selectionCalls] and [replyCalls], in that order: for each photo of
    the tweet a look-up of the image description service and a description,
    one stored memory for each message that [sendTweet] returned.  The pass
    then records the tweet as responded and stores the context and the reply
    under the key "twitter/tweet_generation_<id>.txt"; its log has the five
    lines of [passLogs] and no other. *)
Theorem X14_pass_reply_pipeline (E : Env) (w : World) (t : Tweet) (message_text : string) :
  no_fault E ->
  JS.find (matchesTweetId (pass_tweetId E w)) (pass_slicedTweets E w) = Some t ->
  username t <> twitterUsername E ->
  truthy (text t) = Some message_text ->
  let context := contextOf E t message_text (formatHomeTimeline E (fetchHomeTimeline E)) in
  let reply := content_text (generateMessageResponse E context) in
  reply <> "" ->
  exists w',
    engageWithSearchTerms E w = (Ok (Responded t), w') /\
    trace w' =
      (trace w ++ selectionCalls E w ++ replyCalls E t (pass_tweetId E w) context reply)%list /\
    cache_text w' =
      <[generationKey t := responseInfoOf context t message_text reply]> (cache_text w) /\
    respondedTweets w' = {[ id t ]} ∪ respondedTweets w /\
    logs w' = (logs w ++ passLogs t reply)%list.
Proof.
  intros Hnf Hfind Hown Htext context reply Hreply.
  destruct (pass_run E (length (trace w) + 7 + (if isRetweet t then 1 else 0))
              (fun n _ => Hnf n) w t message_text eq_refl Hfind Hown Htext Hreply)
    as (w' & Hrun & Ht & Hc & Hr & _ & _ & _ & Hl).
  by exists w'.
Qed.

(** The pass that replies to the tweet 888, which has two photos: after
    the call of [getTrends], the service is looked up and asked once for
    each photo. *)
Lemma X14_pass_reply_pipeline_witness :
  exists w',
    engageWithSearchTerms Cases.env_888 Scenario.world0 = (Ok (Responded Cases.ivan), w') /\
    take 6 (drop 7 (trace w')) =
      [GetTrends;
       GetService "IMAGE_DESCRIPTION"; DescribeImage "https://example.org/1.png";
       GetService "IMAGE_DESCRIPTION"; DescribeImage "https://example.org/2.png";
       ComposeState "uuid:888-agent"].
Proof.
  destruct (X14_pass_reply_pipeline Cases.env_888 Scenario.world0 Cases.ivan "post 888")
    as (w' & Hrun & Ht & _).
  - intros n. reflexivity.
  - reflexivity.
  - discriminate.
  - reflexivity.
  - discriminate.
  - exists w'. split; [exact Hrun |]. rewrite Ht. vm_compute. reflexivity.
Defined.



(** X16.  The thread-exclusion filter is applied to the prompt, not to the
    selection: a tweet of the pool in whose thread the agent has replied is
    not in the prompt, yet when the answer of the model resolves to it (no
    call failing, the tweet having text, the model writing a reply) the pass
    replies to it. *)
Theorem X16_thread_filter_does_not_guard_selection (E : Env) (w : World) (t : Tweet) :
  no_fault E ->
  JS.find (matchesTweetId (pass_tweetId E w)) (pass_slicedTweets E w) = Some t ->
  (exists reply, reply ∈ thread t /\ username reply = twitterUsername E) ->
  username t <> twitterUsername E ->
  truthy (text t) <> None ->
  (forall context, content_text (generateMessageResponse E context) <> "") ->
  (t ∉ promptPool E (pass_slicedTweets E w) (fetchHomeTimeline E)) /\
  exists w',
    engageWithSearchTerms E w = (Ok (Responded t), w') /\
    reply_sent E (pass_tweetId E w) w'.
Proof.
  intros Hnf Hfind (reply & Hin & Hbot) Hown Htext Hreply. split.
  - unfold promptPool. rewrite list_elem_of_In, filter_In. intros [_ Hkeep].
    unfold notInBotThread in Hkeep.
    destruct (JS.find _ (thread t)) as [b|] eqn:Hb; [discriminate |].
    rewrite JSFacts.find_None in Hb. specialize (Hb reply Hin).
    apply String.eqb_neq in Hb. done.
  - destruct (pass_responds E w t Hnf Hfind Hown Htext Hreply) as (w' & Hrun & _ & Hsent).
    by exists w'.
Qed.

(** A tweet in whose thread the agent has replied, and whose id the model answers. *)
Lemma X16_thread_filter_does_not_guard_selection_witness :
  (Cases.frank ∉ promptPool Cases.env_4242 (pass_slicedTweets Cases.env_4242 Scenario.world0)
                  (fetchHomeTimeline Cases.env_4242)) /\
  exists w',
    engageWithSearchTerms Cases.env_4242 Scenario.world0 = (Ok (Responded Cases.frank), w') /\
    reply_sent Cases.env_4242 (pass_tweetId Cases.env_4242 Scenario.world0) w'.
Proof.
  apply (X16_thread_filter_does_not_guard_selection Cases.env_4242 Scenario.world0 Cases.frank).
  - intros n. reflexivity.
  - reflexivity.
  - exists (Scenario.tweet "4243" "ruby" []). split; [left | reflexivity].
  - discriminate.
  - discriminate.
  - intros context. discriminate.
Defined.

(** ** The early exits of a pass *)

Section EarlyExits.

Variable E : Env.
Hypothesis Hnf : no_fault E.

(** Without failing calls, a pass whose pool is not empty reaches its
    selection step with the calls of [selectionCalls] made. *)
Lemma pass_selects (w : World) :
  pass_slicedTweets E w <> [] ->
  exists w1,
    engageWithSearchTerms E w =
      try_catch
        (match JS.find (matchesTweetId (pass_tweetId E w)) (pass_slicedTweets E w) with
         | None =>
             log LogWarn "No matching tweet found for the selected ID" ;;
             log LogInfo ("Selected tweet ID: " ++ pass_tweetId E w) ;;
             ret NoMatchingTweet
         | Some selectedTweet =>
             replyTo E selectedTweet (pass_tweetId E w)
               (formatHomeTimeline E (fetchHomeTimeline E))
         end)
        (fun error =>
           log ConsoleError ("Error engaging with search terms: " ++ JS.message error) ;;
           ret PassError) w1 /\
    trace w1 = (trace w ++ selectionCalls E w)%list /\
    respondedTweets w1 = respondedTweets w /\
    cache_text w1 = cache_text w.
Proof.
  intros Hpool.
  unfold engageWithSearchTerms, engageWithSearchTerms_body.
  unfold bind at 1. unfold log at 1. unfold try_catch.
  unfold bind at 1. unfold Math_random at 1.
  unfold bind at 1. unfold log at 1.
  unfold bind at 1. unfold tick at 1.
  unfold bind at 1. rewrite call_run, Hnf.
  unfold bind at 1. unfold log at 1.
  unfold bind at 1. rewrite call_run, Hnf.
  unfold bind at 1. rewrite call_run, Hnf.
  change (draws (set_logs _ w)) with (draws w).
  fold (pass_searchTerm E w). fold (pass_slicedTweets E w). fold (pass_prompt E w).
  destruct (pass_slicedTweets E w) as [|t0 pool] eqn:Hsliced; [done |].
  replace (length (t0 :: pool) =? 0)%nat with false by reflexivity.
  unfold bind at 1. rewrite call_run, Hnf.
  fold (pass_tweetId E w).
  eexists. split; [reflexivity |]. split_and!; try reflexivity.
  cbn [trace set_trace set_logs set_draws]. unfold selectionCalls. by rewrite <- !app_assoc.
Qed.

End EarlyExits.

(** X17.  What a pass has done when it ends early, no call failing.  With
    an empty pool: the search, the home timeline and its caching, and no
    call to the model.  With no match, or with a selected tweet that is the
    agent's own: those calls and the selection prompt.  With a selected
    tweet without text: the connection and the conversation thread besides.
    In each of these cases nothing is recorded as responded and nothing is
    stored. *)
Theorem X17_pass_early_exits (E : Env) (w : World) :
  no_fault E ->
  let pool := pass_slicedTweets E w in
  let selected := JS.find (matchesTweetId (pass_tweetId E w)) pool in
  let w' := snd (engageWithSearchTerms E w) in
  (pool = [] ->
   trace w' =
     (trace w ++ [Sleep 5000; FetchSearchTweets (pass_searchTerm E w) 20 Top;
                  FetchHomeTimeline 50; CacheTimeline])%list) /\
  (pool <> [] -> selected = None -> trace w' = (trace w ++ selectionCalls E w)%list) /\
  (forall t, selected = Some t -> username t = twitterUsername E ->
     trace w' = (trace w ++ selectionCalls E w)%list) /\
  (forall t, selected = Some t -> username t <> twitterUsername E -> truthy (text t) = None ->
     trace w' =
       (trace w ++ selectionCalls E w ++
        [EnsureConnection (userIdOf E t) (roomIdOf E t) (username t) (name t) "twitter";
         BuildConversationThread (id t)])%list) /\
  (pool = [] \/ selected = None \/
   (exists t, selected = Some t /\ (username t = twitterUsername E \/ truthy (text t) = None)) ->
   respondedTweets w' = respondedTweets w /\ cache_text w' = cache_text w).
Proof.
  intros Hnf pool selected w'. subst pool selected w'.
  assert (Hempty : pass_slicedTweets E w = [] ->
    exists w1, engageWithSearchTerms E w = (Ok NoTweets, w1) /\
      trace w1 =
        (trace w ++ [Sleep 5000; FetchSearchTweets (pass_searchTerm E w) 20 Top;
                     FetchHomeTimeline 50; CacheTimeline])%list /\
      respondedTweets w1 = respondedTweets w /\ cache_text w1 = cache_text w).
  { intros Hpool.
    unfold engageWithSearchTerms, engageWithSearchTerms_body.
    unfold bind at 1. unfold log at 1. unfold try_catch.
    unfold bind at 1. unfold Math_random at 1.
    unfold bind at 1. unfold log at 1.
    unfold bind at 1. unfold tick at 1.
    unfold bind at 1. rewrite call_run, Hnf.
    unfold bind at 1. unfold log at 1.
    unfold bind at 1. rewrite call_run, Hnf.
    unfold bind at 1. rewrite call_run, Hnf.
    change (draws (set_logs _ w)) with (draws w).
    fold (pass_searchTerm E w). fold (pass_slicedTweets E w). rewrite Hpool.
    simpl. unfold bind, log, ret. eexists. split; [reflexivity |].
    split_and!; try reflexivity. simpl. by rewrite <- !app_assoc. }
  assert (Hnone : pass_slicedTweets E w <> [] ->
    JS.find (matchesTweetId (pass_tweetId E w)) (pass_slicedTweets E w) = None ->
    exists w1, engageWithSearchTerms E w = (Ok NoMatchingTweet, w1) /\
      trace w1 = (trace w ++ selectionCalls E w)%list /\
      respondedTweets w1 = respondedTweets w /\ cache_text w1 = cache_text w).
  { intros Hpool Hfind.
    destruct (pass_selects E Hnf w Hpool) as (w1 & -> & Ht & Hr & Hc).
    rewrite Hfind. unfold try_catch, bind, log, ret. eexists. split; [reflexivity |].
    by split_and!. }
  assert (Hself : forall t,
    JS.find (matchesTweetId (pass_tweetId E w)) (pass_slicedTweets E w) = Some t ->
    username t = twitterUsername E ->
    exists w1, engageWithSearchTerms E w = (Ok (OwnTweet t), w1) /\
      trace w1 = (trace w ++ selectionCalls E w)%list /\
      respondedTweets w1 = respondedTweets w /\ cache_text w1 = cache_text w).
  { intros t Hfind Hown.
    destruct (pass_selects E Hnf w) as (w1 & -> & Ht & Hr & Hc).
    { intros Hpool. rewrite Hpool in Hfind. discriminate. }
    rewrite Hfind. unfold try_catch, replyTo.
    unfold bind at 1. unfold log at 1.
    apply String.eqb_eq in Hown. rewrite Hown.
    unfold bind, log, ret. eexists. split; [reflexivity |]. by split_and!. }
  assert (Hnotext : forall t,
    JS.find (matchesTweetId (pass_tweetId E w)) (pass_slicedTweets E w) = Some t ->
    username t <> twitterUsername E -> truthy (text t) = None ->
    exists w1, engageWithSearchTerms E w = (Ok (NoMessageText t), w1) /\
      trace w1 =
        (trace w ++ selectionCalls E w ++
         [EnsureConnection (userIdOf E t) (roomIdOf E t) (username t) (name t) "twitter";
          BuildConversationThread (id t)])%list /\
      respondedTweets w1 = respondedTweets w /\ cache_text w1 = cache_text w).
  { intros t Hfind Hown Htext.
    destruct (pass_selects E Hnf w) as (w1 & -> & Ht & Hr & Hc).
    { intros Hpool. rewrite Hpool in Hfind. discriminate. }
    rewrite Hfind. unfold try_catch, replyTo.
    unfold bind at 1. unfold log at 1.
    apply String.eqb_neq in Hown. rewrite Hown.
    unfold bind at 1. rewrite call_run, Hnf.
    unfold bind at 1. rewrite call_run, Hnf.
    rewrite Htext.
    unfold bind, log, ret. eexists. split; [reflexivity |].
    split_and!; try done. simpl. rewrite Ht. by rewrite <- !app_assoc. }
  split_and!.
  - intros Hpool. destruct (Hempty Hpool) as (w1 & -> & Ht & _). exact Ht.
  - intros Hpool Hfind. destruct (Hnone Hpool Hfind) as (w1 & -> & Ht & _). exact Ht.
  - intros t Hfind Hown. destruct (Hself t Hfind Hown) as (w1 & -> & Ht & _). exact Ht.
  - intros t Hfind Hown Htext. destruct (Hnotext t Hfind Hown Htext) as (w1 & -> & Ht & _).
    exact Ht.
  - intros [Hpool | [Hfind | (t & Hfind & Hcase)]].
    + destruct (Hempty Hpool) as (w1 & -> & _ & Hr & Hc). by split.
    + destruct (pass_slicedTweets E w) as [|t0 pool0] eqn:Hpool.
      * destruct (Hempty eq_refl) as (w1 & -> & _ & Hr & Hc). by split.
      * destruct (Hnone ltac:(discriminate) Hfind) as (w1 & -> & _ & Hr & Hc). by split.
    + destruct (String.eqb (username t) (twitterUsername E)) eqn:Hown.
      * apply String.eqb_eq in Hown.
        destruct (Hself t Hfind Hown) as (w1 & -> & _ & Hr & Hc). by split.
      * apply String.eqb_neq in Hown. destruct Hcase as [Hc' | Htext]; [done |].
        destruct (Hnotext t Hfind Hown Htext) as (w1 & -> & _ & Hr & Hc). by split.
Qed.

(** A pass whose search finds nothing. *)
Lemma X17_pass_early_exits_witness :
  trace (snd (engageWithSearchTerms Scenario.env_xyz Scenario.world0)) =
    [Sleep 5000; FetchSearchTweets (Some "crypto") 20 Top; FetchHomeTimeline 50; CacheTimeline].
Proof.
  destruct (X17_pass_early_exits Scenario.env_xyz Scenario.world0) as (Hempty & _).
  - intros n. reflexivity.
  - by apply Hempty.
Defined.

(** ** The set of responded tweets is never read *)

Ltac same_worlds :=
  match goal with
  | H : same_but_responded _ _ |- _ =>
      destruct H as (?H & ?H & ?H & ?H & ?H & ?H & ?H)
  end;
  unfold same_but_responded; simpl; split_and?; congruence.

Lemma blind_ret {A : Type} (a : A) : blind (ret a).
Proof. intros w1 w2 H. by split. Qed.

Lemma blind_throw {A : Type} (e : JS.Error) : blind (@throw A e).
Proof. intros w1 w2 H. by split. Qed.

Lemma blind_lift {A : Type} (r : JS.Error + A) : blind (lift r).
Proof. destruct r; [apply blind_throw | apply blind_ret]. Qed.

Lemma blind_log (level : LogLevel) (msg : string) : blind (log level msg).
Proof. intros w1 w2 H. split; [done |]. same_worlds. Qed.

Lemma blind_tick (c : Call) : blind (tick c).
Proof. intros w1 w2 H. split; [done |]. same_worlds. Qed.

Lemma blind_respondedTweets_add (tweetId : string) : blind (respondedTweets_add tweetId).
Proof. intros w1 w2 H. split; [done |]. same_worlds. Qed.

Lemma blind_Math_random (E : Env) : blind (Math_random E).
Proof.
  intros w1 w2 H. unfold Math_random. simpl. split.
  - destruct H as (_ & _ & _ & _ & _ & Hd & _). by rewrite Hd.
  - same_worlds.
Qed.

Lemma blind_ext (E : Env) {A : Type} (c : Call) (answer : World -> A * World) :
  (forall w1 w2, same_but_responded w1 w2 ->
     fst (answer w1) = fst (answer w2) /\ same_but_responded (snd (answer w1)) (snd (answer w2))) ->
  blind (ext E c answer).
Proof.
  intros Hanswer w1 w2 H. rewrite !ext_run.
  assert (Hw : same_but_responded (set_trace (fun t => (t ++ [c])%list) w1)
                                  (set_trace (fun t => (t ++ [c])%list) w2)).
  { same_worlds. }
  destruct H as (_ & _ & _ & Ht & _). rewrite Ht.
  destruct (fault E _); simpl; [by split |].
  destruct (Hanswer _ _ Hw) as [Ha Hs]. by rewrite Ha.
Qed.

Lemma blind_call (E : Env) {A : Type} (c : Call) (a : A) : blind (call E c a).
Proof. apply blind_ext. intros w1 w2 H. by split. Qed.

Lemma blind_call_detached (E : Env) (c : Call) : blind (call_detached E c).
Proof.
  intros w1 w2 H. unfold call_detached.
  assert (Ht : trace w1 = trace w2) by (by destruct H as (_ & _ & _ & Ht & _)).
  rewrite Ht. destruct (fault E _); (split; [done | same_worlds]).
Qed.

Lemma blind_bind {A B : Type} (m : M A) (k : A -> M B) :
  blind m -> (forall a, blind (k a)) -> blind (bind m k).
Proof.
  intros Hm Hk w1 w2 H. unfold bind. destruct (Hm _ _ H) as [Hr Hw].
  destruct (m w1) as [[a1|e1] w1'], (m w2) as [[a2|e2] w2']; simpl in *; try discriminate.
  - injection Hr as ->. by apply Hk.
  - injection Hr as ->. by split.
Qed.

Lemma blind_try_catch {A : Type} (m : M A) (h : JS.Error -> M A) :
  blind m -> (forall e, blind (h e)) -> blind (try_catch m h).
Proof.
  intros Hm Hh w1 w2 H. unfold try_catch. destruct (Hm _ _ H) as [Hr Hw].
  destruct (m w1) as [[a1|e1] w1'], (m w2) as [[a2|e2] w2']; simpl in *; try discriminate.
  - injection Hr as ->. by split.
  - injection Hr as ->. by apply Hh.
Qed.

Lemma blind_for_of {A : Type} (l : list A) (body : A -> M unit) :
  (forall x, blind (body x)) -> blind (for_of l body).
Proof.
  intros Hbody. induction l as [|x l IH]; simpl.
  - apply blind_ret.
  - apply blind_bind; [apply Hbody | intros _; apply IH].
Qed.

Lemma blind_map_M {A B : Type} (f : A -> M B) (l : list A) :
  (forall x, blind (f x)) -> blind (map_M f l).
Proof.
  intros Hf. induction l as [|x l IH]; simpl.
  - apply blind_ret.
  - apply blind_bind; [apply Hf | intros y].
    apply blind_bind; [apply IH | intros ys; apply blind_ret].
Qed.

Ltac blind_step :=
  first
    [ apply blind_ret | apply blind_throw | apply blind_lift | apply blind_log
    | apply blind_tick | apply blind_respondedTweets_add | apply blind_Math_random
    | apply blind_call | apply blind_call_detached
    | apply blind_ext; intros ? ? ?; split; [done | same_worlds]
    | apply blind_for_of; intros ?
    | apply blind_map_M; intros ?
    | apply blind_bind; [| intros ?]
    | apply blind_try_catch; [| intros ?]
    | match goal with |- blind (if ?b then _ else _) => destruct b end
    | match goal with |- blind (match ?x with _ => _ end) => destruct x end ].

Lemma pass_blind (E : Env) : blind (engageWithSearchTerms E).
Proof.
  unfold engageWithSearchTerms, engageWithSearchTerms_body, replyTo, cache_set_text.
  repeat blind_step.
Qed.

(** X18.  A pass never reads the set of responded tweets: whatever the set
    holds at the start, the pass ends the same way, with the same calls, the
    same log, the same stored texts and the same unhandled rejections.  A
    tweet recorded as responded is thus treated like any other. *)
Theorem X18_responded_set_is_never_read (E : Env) (w : World) (responded : gset string) :
  let w0 := set_respondedTweets (fun _ => responded) w in
  fst (engageWithSearchTerms E w0) = fst (engageWithSearchTerms E w) /\
  trace (snd (engageWithSearchTerms E w0)) = trace (snd (engageWithSearchTerms E w)) /\
  logs (snd (engageWithSearchTerms E w0)) = logs (snd (engageWithSearchTerms E w)) /\
  cache_text (snd (engageWithSearchTerms E w0)) = cache_text (snd (engageWithSearchTerms E w)) /\
  unhandled (snd (engageWithSearchTerms E w0)) = unhandled (snd (engageWithSearchTerms E w)).
Proof.
  intros w0.
  destruct (pass_blind E w0 w) as [Hr (_ & _ & Hc & Ht & Hl & _ & Hu)].
  { subst w0. by split_and!. }
  by split_and!.
Qed.

(** ** Ids of equal length *)

Lemma length_append (s1 s2 : string) :
  String.length (s1 ++ s2) = (String.length s1 + String.length s2)%nat.
Proof. induction s1 as [|c s1 IH]; simpl; [done | by rewrite IH]. Qed.

Lemma append_empty_r (s : string) : s ++ "" = s.
Proof. induction s as [|c s IH]; [done |]. change (String c (s ++ "") = String c s). by rewrite IH. Qed.

Lemma substring_of_length (sub s : string) :
  substring_of sub s -> (String.length sub <= String.length s)%nat.
Proof. intros (before & after & ->). rewrite !length_append. lia. Qed.

Lemma substring_of_same_length (sub s : string) :
  substring_of sub s -> String.length sub = String.length s -> sub = s.
Proof.
  intros (before & after & ->) Hlen. rewrite !length_append in Hlen.
  destruct before; [|simpl in Hlen; lia].
  destruct after; [|simpl in Hlen; lia].
  simpl. by rewrite append_empty_r.
Qed.

Lemma matchesTweetId_same_length (tweetId : string) (c : Tweet) :
  String.length (id c) = String.length tweetId ->
  matchesTweetId tweetId c = String.eqb (id c) tweetId.
Proof.
  intros Hlen. destruct (String.eqb (id c) tweetId) eqn:Heq.
  - apply String.eqb_eq in Heq. apply matchesTweetId_spec. left. rewrite Heq.
    exists "", "". simpl. by rewrite append_empty_r.
  - apply String.eqb_neq in Heq. destruct (matchesTweetId tweetId c) eqn:Hm; [|done].
    exfalso. apply Heq. apply matchesTweetId_spec in Hm as [Hsub | Hsub].
    + symmetry. by apply substring_of_same_length.
    + by apply substring_of_same_length.
Qed.

(** X19.  When the ids of the pool have the length of the trimmed answer,
    the containment match is an exact match: the selected tweet is the first
    tweet of the pool whose id is the answer, it is the tweet with that id
    when ids are not shared, and nothing is selected when no id is the
    answer. *)
Theorem X19_ids_of_equal_length_match_exactly (pool : list Tweet) (tweetId : string) :
  (forall c, c ∈ pool -> String.length (id c) = String.length tweetId) ->
  JS.find (matchesTweetId tweetId) pool = JS.find (fun c => String.eqb (id c) tweetId) pool /\
  (forall c, JS.find (matchesTweetId tweetId) pool = Some c -> id c = tweetId) /\
  (forall c, c ∈ pool -> id c = tweetId ->
     (forall c', c' ∈ pool -> id c' = id c -> c' = c) ->
     JS.find (matchesTweetId tweetId) pool = Some c) /\
  ((forall c, c ∈ pool -> id c <> tweetId) -> JS.find (matchesTweetId tweetId) pool = None).
Proof.
  intros Hlen.
  assert (Heq : JS.find (matchesTweetId tweetId) pool =
                JS.find (fun c => String.eqb (id c) tweetId) pool).
  { induction pool as [|c pool IH]; simpl; [done |].
    rewrite matchesTweetId_same_length by (apply Hlen; left).
    destruct (String.eqb (id c) tweetId); [done |].
    apply IH. intros c' Hc'. apply Hlen. by right. }
  split_and!; [done | | |].
  - intros c. rewrite Heq, JSFacts.find_Some. intros (_ & _ & _ & Hc & _).
    by apply String.eqb_eq.
  - intros c Hin Hid Huniq. rewrite Heq.
    destruct (JS.find (fun c0 => String.eqb (id c0) tweetId) pool) as [c'|] eqn:Hfind.
    + apply JSFacts.find_Some in Hfind as (pre & post & Hpool & Hc' & _).
      apply String.eqb_eq in Hc'. f_equal. apply Huniq; [|congruence].
      rewrite Hpool. apply elem_of_app. right. left.
    + rewrite JSFacts.find_None in Hfind. specialize (Hfind c Hin).
      apply String.eqb_neq in Hfind. done.
  - intros Hno. rewrite Heq. apply JSFacts.find_None. intros c Hin.
    apply String.eqb_neq. by apply Hno.
Qed.

(** The answer 778 against the ids 777 and 778. *)
Lemma X19_ids_of_equal_length_match_exactly_witness :
  JS.find (matchesTweetId "778") [Scenario.bob; Cases.grace] = Some Cases.grace.
Proof.
  destruct (X19_ids_of_equal_length_match_exactly [Scenario.bob; Cases.grace] "778")
    as (_ & _ & Hsel & _).
  - intros c Hc. apply elem_of_cons in Hc as [-> | Hc]; [reflexivity |].
    apply list_elem_of_singleton in Hc as ->. reflexivity.
  - apply Hsel.
    + right. left.
    + reflexivity.
    + intros c' Hc' Hid. apply elem_of_cons in Hc' as [-> | Hc']; [discriminate |].
      by apply list_elem_of_singleton in Hc'.
Defined.

(** ** The scan of the trends *)

Section ScanFacts.

Variable E : Env.
Hypothesis Hnf : no_fault E.

(** The loop reads the log once for every trend it examines. *)
Lemma selectTrend_all_used (trends : list TwitterTrend) (w : World) :
  (forall tr, tr ∈ trends -> trend_name tr ∈ UsedTrendsLog w) ->
  selectTrend E trends w =
    (Ok None,
     set_trace (fun t => (t ++ repeat (CacheGet used_trends_key) (length trends))%list) w).
Proof.
  revert w. induction trends as [|tr trends IH]; intros w Hused; simpl.
  - unfold ret. f_equal. destruct w. unfold set_trace. simpl. by rewrite app_nil_r.
  - unfold bind. rewrite isTopicUsed_run, Hnf.
    assert (Htr : JS.array_includes (UsedTrendsLog w) (trend_name tr) = true).
    { apply JSFacts.array_includes_elem_of. apply Hused. left. }
    rewrite Htr. simpl. rewrite IH.
    + f_equal. unfold set_trace. simpl. by rewrite <- app_assoc.
    + intros x Hx. apply (Hused x). by right.
Qed.

Lemma selectTrend_stops (pre : list TwitterTrend) (tr : TwitterTrend)
    (post : list TwitterTrend) (w : World) :
  (forall x, x ∈ pre -> trend_name x ∈ UsedTrendsLog w) ->
  trend_name tr ∉ UsedTrendsLog w ->
  selectTrend E (pre ++ tr :: post) w =
    (Ok (Some (trend_name tr)),
     set_trace (fun t => (t ++ repeat (CacheGet used_trends_key) (S (length pre)))%list) w).
Proof.
  revert w. induction pre as [|x pre IH]; intros w Hused Hnot; simpl.
  - unfold bind. rewrite isTopicUsed_run, Hnf.
    apply JSFacts.array_includes_false in Hnot. rewrite Hnot. reflexivity.
  - unfold bind. rewrite isTopicUsed_run, Hnf.
    assert (Hx : JS.array_includes (UsedTrendsLog w) (trend_name x) = true).
    { apply JSFacts.array_includes_elem_of. apply Hused. left. }
    rewrite Hx. simpl. rewrite IH.
    + f_equal. unfold set_trace. simpl. by rewrite <- app_assoc.
    + intros y Hy. apply (Hused y). by right.
    + exact Hnot.
Qed.

End ScanFacts.

(** X20.  When no call fails and every trend is used (in particular when
    there is no trend), or the first unused trend has an empty name, the
    generator returns [null] after logging "No unused trends found": it has
    fetched the trends and read the log once for each trend it examined,
    and has neither asked the model nor written the cache. *)
Theorem X20_generator_without_usable_trend (E : Env) (w : World) :
  no_fault E ->
  (forall tr, tr ∈ getTrends E -> trend_name tr ∈ UsedTrendsLog w) \/
  first_absent (UsedTrendsLog w) (getTrends E) "" ->
  exists w' reads,
    getTopTrendAndGenerateToken E w = (Ok None, w') /\
    trace w' = (trace w ++ GetTrends :: repeat (CacheGet used_trends_key) reads)%list /\
    (reads <= length (getTrends E))%nat /\
    logs w' = (logs w ++ [(LogInfo, "Fetched trends:"); (LogInfo, "No unused trends found")])%list /\
    cache_strings w' = cache_strings w.
Proof.
  intros Hnf Hcase.
  unfold getTopTrendAndGenerateToken, try_catch, getTopTrendAndGenerateToken_body.
  unfold bind at 1. rewrite call_run, Hnf.
  unfold bind at 1. unfold log at 1.
  unfold bind at 1.
  destruct Hcase as [Hused | (pre & tr & post & Htrends & Hname & Hnot & Hpre)].
  - rewrite selectTrend_all_used by done. cbn [truthy].
    unfold bind, log, ret. eexists _, (length (getTrends E)). split; [reflexivity |].
    split_and!; try done.
    + simpl. by rewrite <- !app_assoc.
    + simpl. by rewrite <- !app_assoc.
  - rewrite Htrends. rewrite selectTrend_stops; try done; [|by rewrite Hname].
    rewrite Hname. cbn [truthy].
    unfold bind, log, ret. eexists _, (S (length pre)). split; [reflexivity |].
    split_and!.
    + simpl. by rewrite <- !app_assoc.
    + rewrite length_app. simpl. lia.
    + simpl. by rewrite <- !app_assoc.
    + done.
Qed.

(** The one trend is in the log. *)
Lemma X20_generator_without_usable_trend_witness :
  exists w' reads,
    getTopTrendAndGenerateToken Cases.env_AI_only Scenario.world_AI = (Ok None, w') /\
    trace w' = (GetTrends :: repeat (CacheGet used_trends_key) reads)%list /\
    (reads <= 1)%nat.
Proof.
  destruct (X20_generator_without_usable_trend Cases.env_AI_only Scenario.world_AI)
    as (w' & reads & Hrun & Ht & Hreads & _).
  - intros n. reflexivity.
  - left. intros tr Htr. apply list_elem_of_singleton in Htr as ->. vm_compute. left.
  - by exists w', reads.
Defined.

(** ** The context of a tweet without replies *)

Lemma append_assoc (a b c : string) : (a ++ b) ++ c = a ++ (b ++ c).
Proof.
  induction a as [|x a IH]; [done |].
  change (String x ((a ++ b) ++ c) = String x (a ++ (b ++ c))). by rewrite IH.
Qed.

Lemma substring_of_app_l (sub p s : string) : substring_of sub s -> substring_of sub (p ++ s).
Proof.
  intros (before & after & ->). exists (p ++ before), after. by rewrite append_assoc.
Qed.

(** X21.  When the thread of the selected tweet holds no tweet by another
    user (in particular when it is empty), the reply context is empty and
    the tweet context built for the runtime holds the word false right after
    the text of the post. *)
Theorem X21_tweet_context_without_replies (E : Env) (tweetBackground : string) (t : Tweet)
    (message_text : string) (imageDescriptions : list string) :
  (forall reply, reply ∈ thread t -> username reply = twitterUsername E) ->
  replyContextOf E (thread t) = "" /\
  substring_of (message_text ++ "false")
    (tweetContextOf tweetBackground t message_text (replyContextOf E (thread t))
       imageDescriptions).
Proof.
  intros Hbot.
  assert (Hempty : replyContextOf E (thread t) = "").
  { unfold replyContextOf.
    replace (List.filter _ (thread t)) with (@nil Tweet); [done |].
    symmetry. induction (thread t) as [|r l IH]; [done |]. simpl.
    rewrite (proj2 (String.eqb_eq _ _) (Hbot r ltac:(left))). simpl.
    apply IH. intros x Hx. apply Hbot. by right. }
  split; [done |]. rewrite Hempty. unfold tweetContextOf.
  change (0 <? String.length "")%nat with false. cbv iota.
  apply substring_of_app_l.
  match goal with |- substring_of _ (?a ++ ?b ++ ?c ++ ?d) =>
    rewrite <- (append_assoc a b), <- (append_assoc (a ++ b) c)
  end.
  apply substring_of_app_l.
  match goal with |- substring_of _ (_ ++ "false" ++ ?rest) => exists "", rest end.
  simpl. by rewrite append_assoc.
Qed.

(** A tweet without a thread. *)
Lemma X21_tweet_context_without_replies_witness :
  substring_of ("post 777" ++ "false")
    (tweetContextOf "" Scenario.bob "post 777" (replyContextOf Scenario.env_12345 (thread Scenario.bob)) []).
Proof.
  apply (X21_tweet_context_without_replies Scenario.env_12345 "" Scenario.bob "post 777" []).
  intros reply Hin. inversion Hin.
Defined.

(** ** The loop, forever *)

Module PerpetualLoop.
Import EventLoop.

Lemma length_loop_timers_enqueue (due : Z) (t : Task) (q : list (Z * Task)) :
  length (List.filter is_loop_timer (enqueue due t q)) =
    (length (List.filter is_loop_timer q) + (if is_loop_timer (due, t) then 1 else 0))%nat.
Proof.
  induction q as [|[d t'] q IH]; simpl.
  - destruct (is_loop_timer (due, t)); reflexivity.
  - destruct (d <=? due)%Z; simpl.
    + destruct (is_loop_timer (d, t')); simpl; rewrite IH; lia.
    + destruct (is_loop_timer (due, t)), (is_loop_timer (d, t')); simpl; lia.
Qed.

Lemma pending_enqueue (due : Z) (t : Task) (q : list (Z * Task)) :
  pending (enqueue due t q) = (suspensions (due, t) + pending q)%nat.
Proof.
  induction q as [|[d t'] q IH]; simpl; [done |].
  destruct (d <=? due)%Z; simpl; [rewrite IH |]; lia.
Qed.

Section Perpetual.

Variable random : nat -> JS.double.
Variable latency : nat -> list Z.

Lemma continue_timers (k : nat) (rest : list Z) (s : Sched) :
  length (loop_timers (continue k rest s)) = length (loop_timers s).
Proof.
  unfold loop_timers, continue. destruct rest as [|d rest]; simpl; [done |].
  rewrite length_loop_timers_enqueue. simpl. lia.
Qed.

Lemma loop_timers_after_loop (s : Sched) :
  length (loop_timers (engageWithSearchTermsLoop random latency s)) = S (length (loop_timers s)).
Proof.
  unfold engageWithSearchTermsLoop, engageWithSearchTerms_call.
  unfold loop_timers at 1. unfold setTimeout, record. cbn [queue].
  rewrite length_loop_timers_enqueue. cbn [is_loop_timer snd].
  match goal with |- context [continue ?k ?r ?s0] =>
    change (List.filter is_loop_timer (queue (continue k r s0))) with (loop_timers (continue k r s0));
    rewrite (continue_timers k r s0)
  end.
  unfold loop_timers. simpl. lia.
Qed.

Lemma step_one_timer (s s' : Sched) :
  one_timer s -> step random latency s = Some s' -> one_timer s'.
Proof.
  unfold one_timer, step. destruct (queue s) as [|[due t] q'] eqn:Hq; [discriminate |].
  intros Hone [= <-]. unfold loop_timers in Hone. rewrite Hq in Hone. simpl in Hone.
  destruct t as [|k rest]; simpl in *.
  - rewrite loop_timers_after_loop. unfold loop_timers. simpl. lia.
  - rewrite continue_timers. unfold loop_timers. simpl. lia.
Qed.

Lemma one_timer_steps (s : Sched) : one_timer s -> is_Some (step random latency s).
Proof.
  unfold one_timer, loop_timers, step. destruct (queue s) as [|[due t] q']; [discriminate |].
  intros _. by eexists.
Qed.

Lemma boot_one_timer : one_timer (boot random latency).
Proof. unfold one_timer, boot. by rewrite loop_timers_after_loop. Qed.

Lemma run_one_timer (n : nat) (s : Sched) : one_timer s -> one_timer (run random latency n s).
Proof.
  revert s. induction n as [|n IH]; intros s Hs; simpl; [done |].
  destruct (step random latency s) as [s'|] eqn:Hstep; [|done].
  apply IH. by eapply step_one_timer.
Qed.

Lemma run_add (n m : nat) (s : Sched) :
  run random latency (n + m) s = run random latency m (run random latency n s).
Proof.
  revert s. induction n as [|n IH]; intros s; simpl; [done |].
  destruct (step random latency s) as [s'|] eqn:Hstep; [apply IH |].
  destruct m; simpl; [done | by rewrite Hstep].
Qed.

(** From a state with the timer of the loop armed, the loop runs again
    after finitely many turns. *)
Lemma next_pass (s : Sched) :
  one_timer s ->
  exists n, passes (run random latency n s) = S (passes s) /\ one_timer (run random latency n s).
Proof.
  remember (pending (queue s)) as mu eqn:Hmu. revert s Hmu.
  induction mu as [mu IH] using lt_wf_ind. intros s Hmu Hone.
  destruct (one_timer_steps s Hone) as (s' & Hstep).
  pose proof (step_one_timer s s' Hone Hstep) as Hone'.
  unfold step in Hstep. destruct (queue s) as [|[due t] q'] eqn:Hq; [discriminate |].
  injection Hstep as <-.
  destruct t as [|k rest].
  - exists 1%nat. simpl. unfold step. rewrite Hq. split; [|exact Hone'].
    simpl. unfold engageWithSearchTermsLoop, engageWithSearchTerms_call. simpl.
    by destruct (latency (passes s)).
  - destruct (IH (pending (queue (exec random latency (ResumePass k rest)
                    (mkSched (Z.max (now s) due) q' (passes s) (running s) (journal s))))))
      with (s := exec random latency (ResumePass k rest)
                    (mkSched (Z.max (now s) due) q' (passes s) (running s) (journal s)))
      as (n & Hn & Hone''); [| done | exact Hone' |].
    + subst mu. simpl. destruct rest as [|d rest]; simpl; [lia |].
      rewrite pending_enqueue. simpl. lia.
    + exists (S n). simpl. unfold step. rewrite Hq. split; [|exact Hone''].
      rewrite Hn. simpl. by destruct rest.
Qed.

Lemma every_pass_starts (k : nat) :
  exists n, passes (run random latency n (boot random latency)) = S k /\
            one_timer (run random latency n (boot random latency)).
Proof.
  induction k as [|k (n & Hn & Hone)].
  - exists 0%nat. split; [|apply boot_one_timer].
    simpl. unfold boot, engageWithSearchTermsLoop, engageWithSearchTerms_call. simpl.
    by destruct (latency 0).
  - destruct (next_pass _ Hone) as (m & Hm & Hone').
    exists (n + m)%nat. rewrite run_add. split; [by rewrite Hm, Hn | done].
Qed.

End Perpetual.

End PerpetualLoop.

(** ** The process of the loop *)

Module ProcessFacts.
Import EventLoop.

Section Node.

Variable random : nat -> JS.double.
Variable latency : nat -> list Z.
Variable rejection : nat -> option Z.
Variable listener : bool.

Lemma exited_for_good (n : nat) (c t : Z) (k : nat) (s : Sched) :
  Process.run random latency rejection listener n (Process.Exited c t k s) =
    Process.Exited c t k s.
Proof. by destruct n. Qed.

Lemma process_run_add (n m : nat) (p : Process.State) :
  Process.run random latency rejection listener (n + m) p =
    Process.run random latency rejection listener m
      (Process.run random latency rejection listener n p).
Proof.
  revert p. induction n as [|n IH]; intros p; simpl; [done |].
  destruct (Process.step random latency rejection listener p) as [p'|] eqn:Hstep; [apply IH |].
  destruct m; simpl; [done | by rewrite Hstep].
Qed.

(** Without a report that is due, the process runs the turns of the loop. *)
Lemma alive_run (n : nat) (s : Sched) :
  (listener = true \/ forall k, rejection k = None) ->
  Process.run random latency rejection listener n (Process.Alive s None) =
    Process.Alive (EventLoop.run random latency n s) None.
Proof.
  intros Hsafe. revert s. induction n as [|n IH]; intros s; simpl; [done |].
  unfold Process.turn. destruct (EventLoop.step random latency s) as [s'|]; [|done].
  replace (Process.schedule_report rejection listener s s' None) with (@None (Z * nat)); [apply IH |].
  unfold Process.schedule_report. destruct (passes s' =? S (passes s))%nat; [|done].
  destruct Hsafe as [-> | Hnone]; [by destruct (rejection _) | by rewrite Hnone].
Qed.

Lemma passes_step (s s' : Sched) :
  EventLoop.step random latency s = Some s' -> (passes s <= passes s')%nat.
Proof.
  unfold EventLoop.step. destruct (queue s) as [|[due t] q']; [discriminate |].
  intros [= <-]. destruct t as [|k rest]; simpl.
  - unfold engageWithSearchTermsLoop, engageWithSearchTerms_call. simpl.
    destruct (latency (passes s)); simpl; lia.
  - destruct rest; simpl; lia.
Qed.

Lemma schedule_report_doomed (s s' : Sched) (doom : option (Z * nat)) :
  (passes s <= passes s')%nat ->
  Process.doomed rejection listener (Process.Alive s doom) ->
  Process.doomed rejection listener
    (Process.Alive s' (Process.schedule_report rejection listener s s' doom)).
Proof.
  intros Hle Hdoom. unfold Process.schedule_report.
  assert (Hkeep : Process.doomed rejection listener (Process.Alive s' doom)).
  { destruct doom as [[t k]|]; [|done]. destruct Hdoom as (Hl & Hd & Hk).
    split_and!; try done. lia. }
  destruct (passes s' =? S (passes s))%nat eqn:Hstarted; [|exact Hkeep].
  apply Nat.eqb_eq in Hstarted.
  destruct (rejection (passes s)) as [d|] eqn:Hd; [|exact Hkeep].
  destruct listener eqn:Hl; [exact Hkeep |].
  assert (Hnew : Process.doomed rejection listener
                   (Process.Alive s' (Some ((now s' + d)%Z, passes s)))).
  { simpl. split_and!; [done | by exists d | lia]. }
  rewrite Hl in Hnew. unfold Process.earlier. destruct doom as [[t k]|]; [|exact Hnew].
  destruct (t <=? _)%Z; [exact Hkeep | exact Hnew].
Qed.

Lemma step_doomed (p p' : Process.State) :
  Process.doomed rejection listener p ->
  Process.step random latency rejection listener p = Some p' ->
  Process.doomed rejection listener p'.
Proof.
  destruct p as [s doom | c t k s]; [|discriminate]. intros Hdoom. simpl.
  assert (Hturn : Process.turn random latency rejection listener s doom = Some p' ->
                  Process.doomed rejection listener p').
  { unfold Process.turn.
    destruct (EventLoop.step random latency s) as [s'|] eqn:Hstep; [|discriminate].
    intros [= <-]. apply schedule_report_doomed; [by eapply passes_step | done]. }
  destruct doom as [[t k]|]; [|exact Hturn].
  destruct (queue s) as [|[due task] q'].
  - intros [= <-]. exact Hdoom.
  - destruct (t <=? due)%Z; [| exact Hturn]. intros [= <-]. exact Hdoom.
Qed.

Lemma run_doomed (n : nat) (p : Process.State) :
  Process.doomed rejection listener p ->
  Process.doomed rejection listener (Process.run random latency rejection listener n p).
Proof.
  revert p. induction n as [|n IH]; intros p Hp; simpl; [done |].
  destruct (Process.step random latency rejection listener p) as [p'|] eqn:Hstep; [|done].
  apply IH. by eapply step_doomed.
Qed.

Lemma boot_doomed :
  Process.doomed rejection listener (Process.boot random latency rejection listener).
Proof.
  unfold Process.boot. apply schedule_report_doomed; [|done].
  unfold engageWithSearchTermsLoop, engageWithSearchTerms_call. simpl.
  destruct (latency 0); simpl; lia.
Qed.

(** The exit code of a process that has ended is 1. *)
Lemma exit_code (n : nat) (p : Process.State) (c t : Z) (k : nat) (s : Sched) :
  (forall c' t' k' s', p = Process.Exited c' t' k' s' -> c' = 1%Z) ->
  Process.run random latency rejection listener n p = Process.Exited c t k s -> c = 1%Z.
Proof.
  revert p. induction n as [|n IH]; intros p Hp; simpl; [by apply Hp |].
  destruct (Process.step random latency rejection listener p) as [p'|] eqn:Hstep; [| by apply Hp].
  apply IH. intros c' t' k' s' ->.
  destruct p as [s0 doom | ? ? ? ?]; [|discriminate]. simpl in Hstep.
  assert (Hturn : Process.turn random latency rejection listener s0 doom
                    = Some (Process.Exited c' t' k' s') -> c' = 1%Z).
  { unfold Process.turn. by destruct (EventLoop.step random latency s0). }
  destruct doom as [[t0 k0]|]; [|by apply Hturn].
  destruct (queue s0) as [|[due task] q']; [by injection Hstep as <- |].
  destruct (t0 <=? due)%Z; [by injection Hstep as <- | by apply Hturn].
Qed.

End Node.

End ProcessFacts.

(** X22.  The loop of the plugin does not stop of itself and does not
    double: after any number of turns of the event loop exactly one timer
    of the loop is pending and the queue is not empty, and for every [k]
    there is a turn after which [k + 1] passes have been started, whatever
    the passes last.  These are the turns of a process that lives: a
    process in which no pass leaves a rejection unhandled, or whose host
    listens, runs them all.  A process ends only on the unhandled rejection
    of a pass that it has started, with nobody listening and with the exit
    code 1, and it ends for good: no timer fires and no pass starts
    afterwards. *)
Theorem X22_loop_is_perpetual (random : nat -> JS.double) (latency : nat -> list Z)
    (rejection : nat -> option Z) (listener : bool) :
  (forall n,
     length (loop_timers (EventLoop.run random latency n (EventLoop.boot random latency))) = 1%nat /\
     is_Some (EventLoop.step random latency
                (EventLoop.run random latency n (EventLoop.boot random latency)))) /\
  (forall k, exists n,
     EventLoop.passes (EventLoop.run random latency n (EventLoop.boot random latency)) = S k) /\
  ((listener = true \/ forall k, rejection k = None) ->
   forall n,
     Process.run random latency rejection listener n
       (Process.boot random latency rejection listener) =
     Process.Alive (EventLoop.run random latency n (EventLoop.boot random latency)) None) /\
  (forall n c t k s,
     Process.run random latency rejection listener n
       (Process.boot random latency rejection listener) = Process.Exited c t k s ->
     c = 1%Z /\ listener = false /\ (exists d, rejection k = Some d) /\
     (k < EventLoop.passes s)%nat /\
     forall m,
       Process.run random latency rejection listener (n + m)
         (Process.boot random latency rejection listener) = Process.Exited c t k s).
Proof.
  split_and!.
  - intros n.
    pose proof (PerpetualLoop.run_one_timer random latency n _
                  (PerpetualLoop.boot_one_timer random latency)) as Hone.
    split; [exact Hone | by apply PerpetualLoop.one_timer_steps].
  - intros k. destruct (PerpetualLoop.every_pass_starts random latency k) as (n & Hn & _).
    by exists n.
  - intros Hsafe n. unfold Process.boot, EventLoop.boot.
    replace (Process.schedule_report rejection listener _ _ None) with (@None (Z * nat)).
    + by apply ProcessFacts.alive_run.
    + unfold Process.schedule_report. destruct (_ =? _)%nat; [|done].
      destruct Hsafe as [-> | Hnone]; [by destruct (rejection _) | by rewrite Hnone].
  - intros n c t k s Hrun.
    pose proof (ProcessFacts.run_doomed random latency rejection listener n _
                  (ProcessFacts.boot_doomed random latency rejection listener)) as Hdoom.
    unfold Process.doomed in Hdoom.
    rewrite Hrun in Hdoom. destruct Hdoom as (Hl & Hd & Hk).
    split_and!; try done.
    + eapply ProcessFacts.exit_code; [|exact Hrun]. intros c' t' k' s'. discriminate.
    + intros m. rewrite ProcessFacts.process_run_add, Hrun. apply ProcessFacts.exited_for_good.
Qed.

(** Passes of twenty-five seconds, delays of sixty minutes, and a first
    pass whose promise rejects after ten seconds, between its two
    suspensions: the process ends at that time, with one pass started. *)
Example process_ends_on_rejection :
  exists s,
    Process.run Scenario.zero_random Scenario.quick_latency Cases.first_pass_rejects false 2
      (Process.boot Scenario.zero_random Scenario.quick_latency Cases.first_pass_rejects false)
      = Process.Exited 1 10000 0 s /\
    EventLoop.passes s = 1%nat /\
    EventLoop.journal s = [(0%Z, EventLoop.PassStarted 0); (0%Z, EventLoop.LoopRescheduled 0 60)].
Proof. eexists. vm_compute. split_and!; reflexivity. Qed.

(** ** The times of the passes *)

Module Schedule.
Import EventLoop.

Lemma in_order_enqueue (lo due : Z) (t : Task) (q : list (Z * Task)) :
  (lo <= due)%Z -> in_order lo q -> in_order lo (enqueue due t q).
Proof.
  revert lo. induction q as [|[d t'] q IH]; intros lo Hle; simpl.
  - intros _. by split.
  - intros [Hd Hq]. destruct (d <=? due)%Z eqn:Hcmp; simpl.
    + apply Z.leb_le in Hcmp. split; [done | by apply IH].
    + apply Z.leb_gt in Hcmp. split; [done |]. split; [lia | done].
Qed.

Lemma resumable_enqueue (due : Z) (t : Task) (q : list (Z * Task)) :
  resumable (due, t) -> Forall resumable q -> Forall resumable (enqueue due t q).
Proof.
  intros Ht Hq. induction Hq as [|[d t'] q Hd Hq IH]; simpl.
  - by constructor.
  - destruct (d <=? due)%Z; constructor; try done. by constructor.
Qed.

Lemma loop_timers_enqueue_resume (due : Z) (k : nat) (rest : list Z) (q : list (Z * Task)) :
  List.filter is_loop_timer (enqueue due (ResumePass k rest) q) = List.filter is_loop_timer q.
Proof.
  induction q as [|[d t'] q IH]; simpl; [done |].
  destruct (d <=? due)%Z; simpl; [|done].
  destruct (is_loop_timer (d, t')); by rewrite IH.
Qed.

Lemma loop_timers_enqueue_loop (due : Z) (q : list (Z * Task)) :
  List.filter is_loop_timer q = [] ->
  List.filter is_loop_timer (enqueue due RunLoop q) = [(due, RunLoop)].
Proof.
  induction q as [|[d t'] q IH]; simpl; [done |].
  destruct (is_loop_timer (d, t')) eqn:Ht; [discriminate |]. intros Hq.
  destruct (d <=? due)%Z; simpl; rewrite Ht; [by apply IH | by rewrite Hq].
Qed.

Section Times.

Variable random : nat -> JS.double.
Variable latency : nat -> list Z.
Hypothesis random_range : forall k, JS.unit_interval (random k).
Hypothesis latency_nonneg : forall k, Forall (fun d => 0 <= d)%Z (latency k).

Lemma timely_le (p p' : nat) (entry : Z * Event) :
  (p <= p')%nat -> timely random p entry -> timely random p' entry.
Proof.
  unfold timely. destruct (snd entry); [|done|].
  - intros Hle [Hk Ht]. split; [lia | done].
  - intros Hle (Hk & Ht & Hm). split_and!; [lia | done | done].
Qed.

(** After a pass has run to its next suspension. *)
Lemma continue_on_schedule (k : nat) (rest : list Z) (s : Sched) (p : nat) :
  Forall (fun d => 0 <= d)%Z rest ->
  in_order (now s) (queue s) ->
  Forall resumable (queue s) ->
  Forall (timely random p) (journal s) ->
  let s' := continue k rest s in
  now s' = now s /\ passes s' = passes s /\
  in_order (now s) (queue s') /\
  Forall resumable (queue s') /\
  loop_timers s' = loop_timers s /\
  Forall (timely random p) (journal s').
Proof.
  intros Hrest Hord Hres Hj s'. subst s'. unfold continue.
  destruct rest as [|d rest]; simpl.
  - split_and!; try done. apply Forall_app. split; [done |]. constructor; [|constructor]. done.
  - inversion Hrest as [|? ? Hd Hrest']; subst.
    split_and!; try done.
    + apply in_order_enqueue; [lia | done].
    + by apply resumable_enqueue.
    + unfold loop_timers. simpl. apply loop_timers_enqueue_resume.
Qed.

Lemma loop_on_schedule (n : Z) (q : list (Z * Task)) (p : nat) (r : list nat)
    (j : list (Z * Event)) :
  n = start_time random (S p) ->
  in_order n q ->
  Forall resumable q ->
  List.filter is_loop_timer q = [] ->
  Forall (timely random p) j ->
  on_schedule random (engageWithSearchTermsLoop random latency (mkSched n q (S p) r j)).
Proof.
  intros Hn Hord Hres Hnone Hj.
  pose proof (EventLoopFacts.randomMinutes_range random random_range (S p)) as Hm.
  unfold engageWithSearchTermsLoop, engageWithSearchTerms_call. cbn [passes].
  match goal with |- context [continue (S p) (latency (S p)) ?s1] =>
    destruct (continue_on_schedule (S p) (latency (S p)) s1 (S p)) as
      (Hnow & Hpass & Hord' & Hres' & Htimers & Hj');
      [ apply latency_nonneg | exact Hord | exact Hres | |
        set (s2 := continue (S p) (latency (S p)) s1) in * ]
  end.
  { unfold record. simpl. apply Forall_app. split.
    - eapply Forall_impl; [exact Hj |]. intros e. apply timely_le. lia.
    - constructor; [|constructor]. unfold timely. simpl. split; [lia | done]. }
  simpl in Hnow, Hpass, Hord'. unfold loop_timers in Htimers. simpl in Htimers.
  unfold on_schedule, setTimeout, record. cbn [now queue passes journal].
  rewrite Hnow, Hpass. split_and!.
  - apply in_order_enqueue; [lia | done].
  - by apply resumable_enqueue.
  - exists (S p). split_and!; [done | |].
    + unfold loop_timers. cbn [queue]. rewrite loop_timers_enqueue_loop by (by rewrite Htimers).
      do 2 f_equal. rewrite Hn. reflexivity.
    + apply Forall_app. split; [done |]. constructor; [|constructor].
      unfold timely. simpl. split_and!; [lia | done | done].
Qed.

Lemma boot_on_schedule : on_schedule random (boot random latency).
Proof.
  unfold boot.
  pose proof (EventLoopFacts.randomMinutes_range random random_range 0) as Hm.
  unfold engageWithSearchTermsLoop, engageWithSearchTerms_call. cbn [passes].
  match goal with |- context [continue 0 (latency 0) ?s1] =>
    destruct (continue_on_schedule 0 (latency 0) s1 0) as
      (Hnow & Hpass & Hord' & Hres' & Htimers & Hj');
      [ apply latency_nonneg | done | done | |
        set (s2 := continue 0 (latency 0) s1) in * ]
  end.
  { unfold record. simpl. constructor; [|constructor]. unfold timely. simpl. by split. }
  simpl in Hnow, Hpass, Hord'. unfold loop_timers in Htimers. simpl in Htimers.
  unfold on_schedule, setTimeout, record. cbn [now queue passes journal].
  rewrite Hnow, Hpass. split_and!.
  - apply in_order_enqueue; [lia | done].
  - by apply resumable_enqueue.
  - exists 0%nat. split_and!; [done | |].
    + unfold loop_timers. cbn [queue]. by rewrite loop_timers_enqueue_loop by (by rewrite Htimers).
    + apply Forall_app. split; [done |]. constructor; [|constructor].
      unfold timely. simpl. by split_and!.
Qed.

Lemma step_on_schedule (s s' : Sched) :
  on_schedule random s -> step random latency s = Some s' -> on_schedule random s'.
Proof.
  intros (Hord & Hres & p & Hp & Htimers & Hj). unfold step.
  destruct (queue s) as [|[due t] q'] eqn:Hq; [discriminate |]. intros [= <-].
  simpl in Hord. destruct Hord as [Hdue Hord].
  inversion Hres as [|? ? Hhead Hres']; subst.
  replace (Z.max (now s) due) with due by lia.
  unfold loop_timers in Htimers. rewrite Hq in Htimers. simpl in Htimers.
  destruct t as [|k rest]; simpl in Htimers.
  - injection Htimers as Hdue' Hnone. simpl. rewrite Hp.
    by apply loop_on_schedule.
  - simpl.
    destruct (continue_on_schedule k rest (mkSched due q' (passes s) (running s) (journal s))
                p Hhead Hord Hres' Hj)
      as (Hnow & Hpass & Hord' & Hres'' & Htimers' & Hj').
    simpl in Hnow, Hpass, Hord'. unfold on_schedule. rewrite Hnow, Hpass.
    split_and!; [done | done |]. exists p. split_and!; [done | | done].
    rewrite Htimers'. unfold loop_timers. simpl. exact Htimers.
Qed.

Lemma run_on_schedule (n : nat) (s : Sched) :
  on_schedule random s -> on_schedule random (run random latency n s).
Proof.
  revert s. induction n as [|n IH]; intros s Hs; simpl; [done |].
  destruct (step random latency s) as [s'|] eqn:Hstep; [|done].
  apply IH. by eapply step_on_schedule.
Qed.

End Times.

End Schedule.

(** X23.  When no suspension is negative and the draws of [Math.random] are
    in range, the [k]-th pass starts, and the loop arms its next timer, at
    the sum of the delays drawn before it, whatever the passes last;
    consecutive starts are 60 to 120 minutes apart. *)
Theorem X23_passes_start_on_schedule (random : nat -> JS.double) (latency : nat -> list Z) :
  (forall k, JS.unit_interval (random k)) ->
  (forall k, Forall (fun d => 0 <= d)%Z (latency k)) ->
  (forall n t k,
     (t, EventLoop.PassStarted k) ∈
       EventLoop.journal (EventLoop.run random latency n (EventLoop.boot random latency)) ->
     t = start_time random k) /\
  (forall n t k m,
     (t, EventLoop.LoopRescheduled k m) ∈
       EventLoop.journal (EventLoop.run random latency n (EventLoop.boot random latency)) ->
     t = start_time random k /\ m = EventLoop.randomMinutes random k) /\
  (forall k,
     (60 * 60 * 1000 <= start_time random (S k) - start_time random k <= 120 * 60 * 1000)%Z).
Proof.
  intros Hrandom Hlatency.
  assert (Hinv : forall n, on_schedule random
            (EventLoop.run random latency n (EventLoop.boot random latency))).
  { intros n. apply Schedule.run_on_schedule; try done. by apply Schedule.boot_on_schedule. }
  split_and!.
  - intros n t k Hin. destruct (Hinv n) as (_ & _ & p & _ & _ & Hj).
    rewrite Forall_forall in Hj. apply Hj in Hin. by destruct Hin.
  - intros n t k m Hin. destruct (Hinv n) as (_ & _ & p & _ & _ & Hj).
    rewrite Forall_forall in Hj. apply Hj in Hin. by destruct Hin as (_ & ? & ?).
  - intros k. pose proof (EventLoopFacts.randomMinutes_range random Hrandom k). simpl. lia.
Qed.

(** Passes of twenty-five seconds and draws of 0.19672131147540983: the
    delay is of 72 minutes, and the second pass starts 4 320 000 ms after
    the first. *)
Lemma X23_passes_start_on_schedule_witness :
  4320000%Z = start_time Cases.same_draw 1 /\
  EventLoop.randomMinutes Cases.same_draw 0 = 72%Z.
Proof.
  destruct (X23_passes_start_on_schedule Cases.same_draw Scenario.quick_latency)
    as (Hstart & _).
  - intros k. repeat split; vm_compute; first [reflexivity | discriminate].
  - intros k. repeat constructor; vm_compute; discriminate.
  - split; [| reflexivity].
    apply (Hstart 3%nat 4320000%Z 1%nat).
    apply list_elem_of_In. vm_compute.
    repeat (first [left; reflexivity | right]).
Defined.

(** ** The version script *)




